(** * Tapioca / PyoroLike: per-frame simulation core

    A shallow embedding of the gameplay logic of the repository and the
    properties established about it.  Three programs are modelled:
    - [Tapioca]: [src/Tapioca/Main.cpp], first translation unit, the
      scene-based game with eggs, explosions and scoring;
    - [PyoroLike]: [src/PyoroLike/Main.cpp], first translation unit, the
      prototype with a global block list;
    - [Prototype]: [src/Tapioca/Main.cpp], second translation unit, as far as
      entering its [Playing] scene goes.

    Conventions.
    - A C++ [double] that holds a position, a size or a velocity is the
      rational number it stands for ([Q]).  Every constant of the programs is
      a multiple of 1/2 and every coordinate stays far below 2^52, so the
      sums and comparisons the programs perform on them are exact in
      binary64.  A literal such as [3.0] is written [3].
    - The one computation that binary64 does not carry out exactly, the
      height a destroyed block reports and its hundredfold, goes through
      [Double], which rounds each operation to the nearest binary64 number.
    - The scores are [int]s: 32 bits, two's complement ([Int]).  The other
      integers (the window size, the clock, a random lane) stay far inside
      that range and are plain integers ([Z]).
    - Everything the framework answers during one frame (window size, keys,
      clock, the random lane) is collected in a [Frame.t] that is passed to
      the code explicitly.  Timers and stopwatches read the clock of the
      frame.
    - An in-place loop [for (auto& block : blocks)] over a [std::vector] is a
      recursion over the elements not yet visited that carries the elements
      already rewritten; [this != &block] is a comparison of positions.
    - A call of a hit callback is returned to the caller as the argument of
      the call; [Playing::update] applies the callback. *)

From Stdlib Require Import ZArith QArith Qround Qpower Qabs Lqa Lia List Bool.
From Stdlib Require Import SpecFloat.
Import ListNotations.

Open Scope Q_scope.

(** ** Numbers *)

Definition Qltb (a b : Q) : bool := negb (Qle_bool b a).
Definition Qgtb (a b : Q) : bool := Qltb b a.
Definition Qleb (a b : Q) : bool := Qle_bool a b.

(** A C++ [int]: 32 bits, two's complement.  An operation on [int]s is the
    operation on the integers followed by [wrap]. *)
Module Int.
Definition min : Z := (- 2 ^ 31)%Z.
Definition max : Z := (2 ^ 31 - 1)%Z.

(** The [int] with the low 32 bits of [z]. *)
Definition wrap (z : Z) : Z := ((z + 2 ^ 31) mod 2 ^ 32 - 2 ^ 31)%Z.

Definition add (a b : Z) : Z := wrap (a + b).
Definition mul (a b : Z) : Z := wrap (a * b).
End Int.

(** Binary64 arithmetic (IEEE 754, round to nearest, ties to even): 53
    significant bits, the smallest positive number is 2^-1074, and a result
    of magnitude 2^1024 or more is an infinity.  A finite number is the
    rational it stands for.  A zero carries no sign here: the only divisor of
    the programs is [Window::Height()], whose zero is [+0.0]. *)
Module Double.
Inductive t :=
| finite (q : Q)
| infinity (negative : bool)
| nan.

Definition pow2 (e : Z) : Q := 2 ^ e.

(** The integer nearest to [q]; of two equally near ones, the even one. *)
Definition nearest_even (q : Q) : Z :=
  let f := Qfloor q in
  match Qcompare (q - inject_Z f) (1 # 2) with
  | Lt => f
  | Gt => (f + 1)%Z
  | Eq => if Z.even f then f else (f + 1)%Z
  end.

(** For [0 < q]: the [k] with [2^k <= q < 2^(k+1)]. *)
Definition ilog2 (q : Q) : Z :=
  let k := (Z.log2 (Qnum q) - Z.log2 (Zpos (Qden q)))%Z in
  if Qle_bool (pow2 k) q then k else (k - 1)%Z.

Definition negative (q : Q) : bool := negb (Qle_bool 0 q).

(** The binary64 number nearest to [q]: [q] is cut to 53 significant bits,
    or to a multiple of 2^-1074 if that is coarser. *)
Definition round (q : Q) : t :=
  if Qeq_bool q 0 then finite 0
  else
    let e := Z.max (ilog2 (Qabs q) - 52) (-1074) in
    let v := inject_Z (nearest_even (q / pow2 e)) * pow2 e in
    if Qle_bool (pow2 1024) (Qabs v) then infinity (negative q) else finite v.

(** An [int] converted to [double]: exact. *)
Definition of_int (z : Z) : t := finite (inject_Z z).

Definition div (a b : t) : t :=
  match a, b with
  | nan, _ | _, nan => nan
  | infinity _, infinity _ => nan
  | infinity s, finite y => infinity (xorb s (negative y))
  | finite _, infinity _ => finite 0
  | finite x, finite y =>
      if Qeq_bool y 0
      then (if Qeq_bool x 0 then nan else infinity (negative x))
      else round (x / y)
  end.

Definition mul (a b : t) : t :=
  match a, b with
  | nan, _ | _, nan => nan
  | infinity s, infinity s' => infinity (xorb s s')
  | infinity s, finite y | finite y, infinity s =>
      if Qeq_bool y 0 then nan else infinity (xorb s (negative y))
  | finite x, finite y => round (x * y)
  end.

Definition sub (a b : t) : t :=
  match a, b with
  | nan, _ | _, nan => nan
  | infinity s, infinity s' => if Bool.eqb s s' then nan else infinity s
  | infinity s, finite _ => infinity s
  | finite _, infinity s => infinity (negb s)
  | finite x, finite y => round (x - y)
  end.
End Double.

(** [static_cast<int>(d)] of a [double]: the fractional part is discarded
    (toward zero).  For a value that has no [int], an infinity or a NaN the
    conversion is undefined in C++; the conversion instruction of the x86
    then gives [INT_MIN]. *)
Definition static_cast_int (d : Double.t) : Z :=
  match d with
  | Double.finite q =>
      let z := Z.quot (Qnum q) (Zpos (Qden q)) in
      if ((Int.min <=? z) && (z <=? Int.max))%Z then z else Int.min
  | _ => Int.min
  end.

(** ** The framework, as far as the game observes it *)

Module Frame.
Record t := mk {
  Window_Width : Z;        (* Window::Width() *)
  Window_Height : Z;       (* Window::Height() *)
  KeyZ_down : bool;        (* KeyZ.down(): newly pressed this frame *)
  KeyR_down : bool;
  KeyUp_down : bool;
  KeyLeft_pressed : bool;  (* KeyLeft.pressed(): held *)
  KeyRight_pressed : bool;
  now : Z;                 (* the clock, in milliseconds *)
  Random : Z               (* the value Random(0, n - 1) returns *)
}.
End Frame.

Module Vec2.
Record t := mk { x : Q; y : Q }.
Definition add (a b : t) : t := mk (x a + x b) (y a + y b).
Definition sub (a b : t) : t := mk (x a - x b) (y a - y b).
End Vec2.

Module RectF.
Record t := mk { x : Q; y : Q; w : Q; h : Q }.

Definition pos (r : t) : Vec2.t := Vec2.mk (x r) (y r).
Definition at_pos (p : Vec2.t) (w h : Q) : t := mk (Vec2.x p) (Vec2.y p) w h.
Definition set_x (r : t) (v : Q) : t := mk v (y r) (w r) (h r).
Definition set_y (r : t) (v : Q) : t := mk (x r) v (w r) (h r).
Definition set_pos (r : t) (p : Vec2.t) : t := mk (Vec2.x p) (Vec2.y p) (w r) (h r).
Definition topCenter (r : t) : Vec2.t := Vec2.mk (x r + w r / 2) (y r).

(** [RectF::intersects(const RectF&)]: the two open rectangles overlap;
    rectangles that only share an edge do not intersect. *)
Definition intersects (a b : t) : bool :=
  Qltb (x a) (x b + w b) && Qltb (x b) (x a + w a) &&
  Qltb (y a) (y b + h b) && Qltb (y b) (y a + h a).
End RectF.

(** A count-down timer driven by the frame clock: [remaining] is what is left
    of the count-down at the time [since]; while [running] the clock eats into
    it. *)
Module Timer.
Record t := mk { duration : Z; remaining : Z; since : Z; running : bool }.

(** [Timer(duration, false)]: not started. *)
Definition make (duration_ms : Z) : t := mk duration_ms duration_ms 0 false.
Definition ms (now : Z) (tm : t) : Z :=
  if running tm then Z.max 0 (remaining tm - (now - since tm)) else remaining tm.
Definition reachedZero (now : Z) (tm : t) : bool := (ms now tm =? 0)%Z.
Definition restart (now : Z) (tm : t) : t := mk (duration tm) (duration tm) now true.
Definition pause (now : Z) (tm : t) : t := mk (duration tm) (ms now tm) now false.
(** [set] changes the time that is left, not the duration [restart] counts
    down from. *)
Definition set (v : Z) (now : Z) (tm : t) : t := mk (duration tm) v now (running tm).
End Timer.

Module Stopwatch.
Record t := mk { accumulated : Z; since : Z; running : bool }.

Definition make : t := mk 0 0 false.
Definition ms (now : Z) (sw : t) : Z :=
  if running sw then (accumulated sw + (now - since sw))%Z else accumulated sw.
Definition start (now : Z) (sw : t) : t :=
  if running sw then sw else mk (accumulated sw) now true.
Definition restart (now : Z) (sw : t) : t := mk 0 now true.
End Stopwatch.


(** ** Tapioca ([src/Tapioca/Main.cpp], first translation unit) *)

Module Tapioca.

Definition gravity : Q := 1.5.
Definition floorHeight : Q := 80.
Definition numBlocksX : Z := 8.

Inductive Scene := Title | Playing | GameOver.

(** The line the floor starts at, [Window::Height() - floorHeight]. *)
Definition floorLine (fr : Frame.t) : Q :=
  inject_Z (Frame.Window_Height fr) - floorHeight.

Module Animation.
Record t := mk {
  looped : bool;
  texAssets_size : Z;   (* texAssets.size(), a size_t *)
  timer : Timer.t;
  idx : Z;              (* size_t *)
  started : bool
}.

(** [texAssets.size() - 1] in [size_t] arithmetic. *)
Definition last_idx (a : t) : Z := ((texAssets_size a - 1) mod 2 ^ 64)%Z.

Definition start (now : Z) (a : t) : t :=
  mk (looped a) (texAssets_size a) (Timer.restart now (timer a)) (idx a) true.

Definition stop (now : Z) (a : t) : t :=
  mk (looped a) (texAssets_size a) (Timer.pause now (timer a)) (idx a) false.

Definition make (now : Z) (textures : Z) (intervals_ms : Z)
    (looped immediatelyStarted : bool) : t :=
  let a := mk looped textures (Timer.make intervals_ms) 0 false in
  if immediatelyStarted then start now a else a.

Definition update (now : Z) (a : t) : t :=
  if Timer.reachedZero now (timer a) then
    if looped a then
      mk (looped a) (texAssets_size a) (Timer.restart now (timer a))
         ((idx a + 1) mod texAssets_size a)%Z (started a)
    else if (idx a <? last_idx a)%Z then
      mk (looped a) (texAssets_size a) (Timer.restart now (timer a))
         (idx a + 1)%Z (started a)
    else
      mk (looped a) (texAssets_size a) (timer a) (idx a) false
  else a.

Definition isFinished (now : Z) (a : t) : bool :=
  negb (looped a) && (idx a =? last_idx a)%Z && Timer.reachedZero now (timer a).

Definition isStarted (a : t) : bool := started a.
End Animation.

Module Stage.
Record t := mk { floorRect : RectF.t; sunRect : RectF.t; sunAnim : Animation.t }.

Definition make (fr : Frame.t) : t :=
  mk (RectF.mk 0 (floorLine fr) (inject_Z (Frame.Window_Width fr)) floorHeight)
     (RectF.mk 0 0 170 170)
     (Animation.make (Frame.now fr) 2 500 true true).

Definition update (fr : Frame.t) (s : t) : t :=
  mk (floorRect s) (sunRect s) (Animation.update (Frame.now fr) (sunAnim s)).
End Stage.

Module Block.
Definition fallingSpeed : Q := 3.
Definition size : Q := 50.

Record t := mk {
  rect : RectF.t;
  destroyed : bool;
  moving : bool;
  touchingTop : bool;
  speed : Q
}.

(** [Block(double x)] *)
Definition make (x : Q) : t :=
  mk (RectF.mk x (- size) size size) false true false 3.

Definition set_speed (b : t) (v : Q) : t :=
  mk (rect b) (destroyed b) (moving b) (touchingTop b) v.
Definition set_moving (b : t) (v : bool) : t :=
  mk (rect b) (destroyed b) v (touchingTop b) (speed b).
Definition set_touchingTop (b : t) (v : bool) : t :=
  mk (rect b) (destroyed b) (moving b) v (speed b).
Definition set_destroyed (b : t) (v : bool) : t :=
  mk (rect b) v (moving b) (touchingTop b) (speed b).
Definition set_rect (b : t) (r : RectF.t) : t :=
  mk r (destroyed b) (moving b) (touchingTop b) (speed b).

Definition intersects (b : t) (other : RectF.t) : bool :=
  RectF.intersects other (rect b).

Definition isDestroyed (b : t) : bool := destroyed b.
Definition isMoving (b : t) : bool := moving b.
Definition isTouchingTop (b : t) : bool := touchingTop b.

(** The rectangle the block would occupy after this frame's step. *)
Definition nextRect (b : t) : RectF.t :=
  RectF.set_y (rect b) (RectF.y (rect b) + speed b).

(** The loop of [willCollide]: [j] is the position of the head of [blocks] in
    the vector and [this] the position of the block being tested. *)
Fixpoint hitsOther (this : nat) (next : RectF.t) (j : nat) (blocks : list t) : bool :=
  match blocks with
  | [] => false
  | block :: rest =>
      if negb (Nat.eqb this j) && RectF.intersects next (rect block) then true
      else hitsOther this next (S j) rest
  end.

Definition willCollide (fr : Frame.t) (blocks : list t) (this : nat) (b : t) : bool :=
  if Qgtb (RectF.y (rect b) + RectF.h (rect b) + speed b) (floorLine fr) then true
  else hitsOther this (nextRect b) 0 blocks.

(** [Block::update]: [blocks] is the vector as it stands when the call is
    made and [this] the position of the block in it. *)
Definition update (fr : Frame.t) (blocks : list t) (this : nat) (b : t) : t :=
  let b := set_speed b fallingSpeed in
  if willCollide fr blocks this b then
    let b := if Qleb (RectF.y (rect b)) 0 then set_touchingTop b true else b in
    let b := set_moving b false in
    set_speed b 0
  else
    let b := set_moving b true in
    set_rect b (RectF.set_y (rect b) (RectF.y (rect b) + speed b)).

(** [Block::destroy]: the block is flagged and its hit callback is called;
    the call is returned as the argument it is made with.  Every block of the
    game gets the same callback, [Playing.hitCallback], when it is spawned. *)
Definition destroy (fr : Frame.t) (b : t) : t * Double.t :=
  (set_destroyed b true,
   Double.sub (Double.finite 1)
     (Double.div (Double.finite (RectF.y (rect b)))
                 (Double.of_int (Frame.Window_Height fr)))).
End Block.

Module Egg.
Definition speed : Q := 20.
Definition size : Q := 50.

Record t := mk {
  rect : RectF.t;
  velocity : Vec2.t;
  destroyed : bool;
  explosionAnim : Animation.t
}.

(** [Egg(Vec2 pos, bool right)] *)
Definition make (now : Z) (pos : Vec2.t) (right : bool) : t :=
  mk (RectF.at_pos (Vec2.sub pos (Vec2.mk (size / 2) (size / 4))) size size)
     (Vec2.mk (if right then speed else - speed) (- speed))
     false
     (Animation.make now 2 100 false false).

Definition set_explosionAnim (e : t) (a : Animation.t) : t :=
  mk (rect e) (velocity e) (destroyed e) a.
Definition set_destroyed (e : t) (v : bool) : t :=
  mk (rect e) (velocity e) v (explosionAnim e).

Definition isDestroyed (e : t) : bool := destroyed e.

(** The loop over the blocks in [Egg::update]: the first block that
    intersects [r] is destroyed and the loop is left.  The result is the
    vector after the loop and, when a block was hit, the argument of its hit
    callback. *)
Fixpoint hitFirst (fr : Frame.t) (r : RectF.t) (blocks : list Block.t)
    : list Block.t * option Double.t :=
  match blocks with
  | [] => ([], None)
  | block :: rest =>
      if Block.intersects block r then
        let (block', height) := Block.destroy fr block in
        (block' :: rest, Some height)
      else
        let (rest', hit) := hitFirst fr r rest in
        (block :: rest', hit)
  end.

(** [Egg::update]: the egg, the vector of blocks and the hit callback call
    made, if any. *)
Definition update (fr : Frame.t) (blocks : list Block.t) (e : t)
    : t * list Block.t * option Double.t :=
  let now := Frame.now fr in
  let e := set_explosionAnim e (Animation.update now (explosionAnim e)) in
  if Animation.isFinished now (explosionAnim e) then
    (set_destroyed e true, blocks, None)
  else if Animation.isStarted (explosionAnim e) then
    (e, blocks, None)
  else if Qleb (RectF.x (rect e) + RectF.w (rect e)) 0
          || Qgtb (RectF.x (rect e)) (inject_Z (Frame.Window_Width fr)) then
    (set_explosionAnim e (Animation.start now (explosionAnim e)), blocks, None)
  else
    match hitFirst fr (rect e) blocks with
    | (blocks', Some height) =>
        (set_explosionAnim e (Animation.start now (explosionAnim e)),
         blocks', Some height)
    | (_, None) =>
        let velocity' :=
          Vec2.mk (Vec2.x (velocity e)) (Vec2.y (velocity e) + gravity) in
        (mk (RectF.set_pos (rect e) (Vec2.add (RectF.pos (rect e)) velocity'))
            velocity' (destroyed e) (explosionAnim e),
         blocks, None)
    end.
End Egg.

Module Player.
Definition size : Vec2.t := Vec2.mk 40 70.
Definition speed : Q := 8.
Definition jumpSpeed : Q := 20.

Record t := mk {
  vy : Q;
  rect : RectF.t;
  grounded : bool;
  facingRight : bool;
  dead : bool;
  egg : option Egg.t;
  eggLaunchTimer : Timer.t;
  restingAnim : Animation.t;
  throwingAnim : Animation.t
}.

(** [Player()] *)
Definition make (fr : Frame.t) : t :=
  mk 0
     (RectF.mk 100 (floorLine fr - Vec2.y size) (Vec2.x size) (Vec2.y size))
     false true false None
     (Timer.set 0 (Frame.now fr) (Timer.make 500))
     (Animation.make (Frame.now fr) 2 300 true true)
     (Animation.make (Frame.now fr) 1 200 false false).

Definition isDead (p : t) : bool := dead p.

Definition set_vy (p : t) (v : Q) : t :=
  mk v (rect p) (grounded p) (facingRight p) (dead p) (egg p)
     (eggLaunchTimer p) (restingAnim p) (throwingAnim p).
Definition set_rect (p : t) (r : RectF.t) : t :=
  mk (vy p) r (grounded p) (facingRight p) (dead p) (egg p)
     (eggLaunchTimer p) (restingAnim p) (throwingAnim p).
Definition set_grounded (p : t) (v : bool) : t :=
  mk (vy p) (rect p) v (facingRight p) (dead p) (egg p)
     (eggLaunchTimer p) (restingAnim p) (throwingAnim p).
Definition set_facingRight (p : t) (v : bool) : t :=
  mk (vy p) (rect p) (grounded p) v (dead p) (egg p)
     (eggLaunchTimer p) (restingAnim p) (throwingAnim p).
Definition set_dead (p : t) (v : bool) : t :=
  mk (vy p) (rect p) (grounded p) (facingRight p) v (egg p)
     (eggLaunchTimer p) (restingAnim p) (throwingAnim p).
Definition set_egg (p : t) (v : option Egg.t) : t :=
  mk (vy p) (rect p) (grounded p) (facingRight p) (dead p) v
     (eggLaunchTimer p) (restingAnim p) (throwingAnim p).

(** The condition of the first [if] of [Player::update]. *)
Definition launches (fr : Frame.t) (p : t) : bool :=
  Frame.KeyZ_down fr && Timer.reachedZero (Frame.now fr) (eggLaunchTimer p).

(** Lines 239-243: launching an egg. *)
Definition launch (fr : Frame.t) (p : t) : t :=
  if launches fr p then
    mk (vy p) (rect p) (grounded p) (facingRight p) (dead p)
       (Some (Egg.make (Frame.now fr) (RectF.topCenter (rect p)) (facingRight p)))
       (Timer.restart (Frame.now fr) (eggLaunchTimer p))
       (restingAnim p)
       (Animation.start (Frame.now fr) (throwingAnim p))
  else p.

(** Lines 244-249: the egg in flight. *)
Definition updateEgg (fr : Frame.t) (blocks : list Block.t) (p : t)
    : t * list Block.t * option Double.t :=
  match egg p with
  | Some e =>
      let '(e', blocks', hit) := Egg.update fr blocks e in
      (set_egg p (if Egg.isDestroyed e' then None else Some e'), blocks', hit)
  | None => (p, blocks, None)
  end.

(** Lines 251-268: walking. *)
Definition walk (fr : Frame.t) (blocks : list Block.t) (p : t) : t :=
  if xorb (Frame.KeyLeft_pressed fr) (Frame.KeyRight_pressed fr) then
    let p := set_facingRight p (Frame.KeyRight_pressed fr) in
    let left := Frame.KeyLeft_pressed fr && Qgtb (RectF.x (rect p)) 0 in
    let right :=
      Frame.KeyRight_pressed fr &&
      Qltb (RectF.x (rect p) + RectF.w (rect p)) (inject_Z (Frame.Window_Width fr)) in
    if xorb left right then
      let vx := if left then - speed else speed in
      let nextRect := RectF.set_x (rect p) (RectF.x (rect p) + vx) in
      let vx := if existsb (fun block => Block.intersects block nextRect) blocks
                then 0 else vx in
      set_rect p (RectF.set_x (rect p) (RectF.x (rect p) + vx))
    else p
  else p.

(** Lines 270-274: jumping. *)
Definition jump (fr : Frame.t) (p : t) : t :=
  if grounded p && Frame.KeyUp_down fr then
    set_grounded (set_vy p (- jumpSpeed)) false
  else p.

(** Lines 276-293: gravity, then the first block the proposed vertical move
    runs into.  The second component is the local [touching]. *)
Definition contact (blocks : list Block.t) (p : t) : t * bool :=
  let p := set_vy p (vy p + gravity) in
  let nextRect := RectF.set_y (rect p) (RectF.y (rect p) + vy p) in
  match find (fun block => Block.intersects block nextRect) blocks with
  | Some block =>
      if Block.isMoving block then
        let (p, touching) :=
          if Qgtb (vy p) 0 then (set_grounded p true, true) else (p, false) in
        (set_vy p Block.fallingSpeed, touching)
      else
        (set_vy (set_grounded p true) 0, true)
  | None => (p, false)
  end.

(** Lines 295-300: the floor, and the vertical move itself. *)
Definition land (fr : Frame.t) (touching : bool) (p : t) : t :=
  let p :=
    if negb touching &&
       Qgtb (RectF.y (rect p) + RectF.h (rect p) + vy p) (floorLine fr)
    then set_vy (set_grounded p true) 0
    else p in
  set_rect p (RectF.set_y (rect p) (RectF.y (rect p) + vy p)).

(** Lines 302-309: crushed by a falling block. *)
Definition crush (blocks : list Block.t) (p : t) : t :=
  if grounded p then
    if existsb (fun block => Block.isMoving block && Block.intersects block (rect p))
               blocks
    then set_dead p true else p
  else p.

(** Lines 311-312. *)
Definition animate (fr : Frame.t) (p : t) : t :=
  mk (vy p) (rect p) (grounded p) (facingRight p) (dead p) (egg p)
     (eggLaunchTimer p)
     (Animation.update (Frame.now fr) (restingAnim p))
     (Animation.update (Frame.now fr) (throwingAnim p)).

(** The player after the movement part of [Player::update], lines 251-309. *)
Definition move (fr : Frame.t) (blocks : list Block.t) (p : t) : t :=
  let p := walk fr blocks p in
  let p := jump fr p in
  let (p, touching) := contact blocks p in
  let p := land fr touching p in
  crush blocks p.

(** [Player::update] *)
Definition update (fr : Frame.t) (blocks : list Block.t) (p : t)
    : t * list Block.t * option Double.t :=
  let p := launch fr p in
  let '(p, blocks, hit) := updateEgg fr blocks p in
  (animate fr (move fr blocks p), blocks, hit).
End Player.

Module Data.
Record t := mk {
  score : Z;        (* int *)
  highScore : Z;    (* int *)
  stage : Stage.t;
  player : Player.t;
  blocks : list Block.t
}.

(** [std::make_shared<Data>()] followed by the read of the score file, whose
    outcome is [savedHighScore]. *)
Definition make (fr : Frame.t) (savedHighScore : option Z) : t :=
  mk 0 (match savedHighScore with Some v => v | None => 0 end)%Z
     (Stage.make fr) (Player.make fr) [].
End Data.

Module PlayingScene.
Definition blockFallIntervalms : Z := 500.

(** The lambda given to [setHitCallback]. *)
Definition hitCallback (height : Double.t) (d : Data.t) : Data.t :=
  let score :=
    Int.add (Data.score d)
            (static_cast_int (Double.mul (Double.finite 100) height)) in
  Data.mk score (Z.max score (Data.highScore d))
          (Data.stage d) (Data.player d) (Data.blocks d).

(** [Playing::Playing]: the data as the constructor leaves it and the
    stopwatch member. *)
Definition make (fr : Frame.t) (d : Data.t) : Data.t * Stopwatch.t :=
  (Data.mk 0 (Data.highScore d) (Data.stage d) (Player.make fr) [],
   Stopwatch.start (Frame.now fr) Stopwatch.make).

(** Lines 412-421: a new block at the top of a random lane. *)
Definition spawn (fr : Frame.t) (sw : Stopwatch.t) (blocks : list Block.t)
    : list Block.t * Stopwatch.t :=
  if (Stopwatch.ms (Frame.now fr) sw >? blockFallIntervalms)%Z then
    (blocks ++
       [Block.make (inject_Z (Frame.Random fr * Frame.Window_Width fr)
                    / inject_Z numBlocksX)],
     Stopwatch.restart (Frame.now fr) sw)
  else (blocks, sw).

(** Lines 422-428: the loop over the blocks.  [updated] are the blocks already
    visited, as rewritten, and [pending] those still to visit; the vector the
    code holds at that point is [updated ++ pending].  The flag tells that the
    loop was left through [changeScene(Scene::GameOver); return]. *)
Fixpoint updateBlocks (fr : Frame.t) (updated pending : list Block.t)
    : list Block.t * bool :=
  match pending with
  | [] => (updated, false)
  | block :: rest =>
      let block' := Block.update fr (updated ++ pending) (length updated) block in
      if Block.isTouchingTop block' then (updated ++ block' :: rest, true)
      else updateBlocks fr (updated ++ [block']) rest
  end.

Definition set_blocks (d : Data.t) (blocks : list Block.t) : Data.t :=
  Data.mk (Data.score d) (Data.highScore d) (Data.stage d) (Data.player d) blocks.
Definition set_player (d : Data.t) (p : Player.t) : Data.t :=
  Data.mk (Data.score d) (Data.highScore d) (Data.stage d) p (Data.blocks d).
Definition set_stage (d : Data.t) (s : Stage.t) : Data.t :=
  Data.mk (Data.score d) (Data.highScore d) s (Data.player d) (Data.blocks d).

(** [Playing::update]: the data, the stopwatch and the scene asked for with
    [changeScene], if any. *)
Definition update (fr : Frame.t) (d : Data.t) (sw : Stopwatch.t)
    : Data.t * Stopwatch.t * option Scene :=
  let d := set_stage d (Stage.update fr (Data.stage d)) in
  let (blocks, sw) := spawn fr sw (Data.blocks d) in
  let (blocks, touchingTop) := updateBlocks fr [] blocks in
  let d := set_blocks d blocks in
  if touchingTop then (d, sw, Some GameOver)
  else
    let '(p, blocks, hit) := Player.update fr (Data.blocks d) (Data.player d) in
    let d := set_blocks (set_player d p) blocks in
    let d := match hit with Some height => hitCallback height d | None => d end in
    if Player.isDead (Data.player d) then (d, sw, Some GameOver)
    else
      (set_blocks d (filter (fun block => negb (Block.isDestroyed block))
                            (Data.blocks d)),
       sw, None).
End PlayingScene.

(** The scene manager with the three scenes registered in [Main].  A scene
    asked for with [changeScene(_, 0, false)] replaces the current one: its
    constructor runs on the shared data. *)
Module App.
Inductive scene :=
| TitleScene
| PlayingSceneOf (blockFallSW : Stopwatch.t)
| GameOverScene.

Record t := mk { current : scene; data : Data.t }.

Definition state (a : t) : Scene :=
  match current a with
  | TitleScene => Title
  | PlayingSceneOf _ => Playing
  | GameOverScene => GameOver
  end.

Definition changeScene (fr : Frame.t) (next : Scene) (d : Data.t) : t :=
  match next with
  | Title => mk TitleScene d
  | Playing => let (d, sw) := PlayingScene.make fr d in mk (PlayingSceneOf sw) d
  | GameOver => mk GameOverScene d
  end.

(** [mgr.changeScene(Scene::Title, 0, false)] in [Main]. *)
Definition make (fr : Frame.t) (savedHighScore : option Z) : t :=
  changeScene fr Title (Data.make fr savedHighScore).

(** One [mgr.update()]: [Title::update], [Playing::update] or
    [GameOver::update]. *)
Definition update (fr : Frame.t) (a : t) : t :=
  match current a with
  | TitleScene =>
      if Frame.KeyZ_down fr then changeScene fr Playing (data a) else a
  | PlayingSceneOf sw =>
      match PlayingScene.update fr (data a) sw with
      | (d, sw, Some next) => changeScene fr next d
      | (d, sw, None) => mk (PlayingSceneOf sw) d
      end
  | GameOverScene =>
      if Frame.KeyR_down fr then changeScene fr Playing (data a) else a
  end.
End App.

End Tapioca.

(** ** PyoroLike ([src/PyoroLike/Main.cpp], first translation unit)

    The block list is a global vector; the functions below receive it and
    return it. *)

Module PyoroLike.

Definition GRAVITY : Q := 1.
Definition FLOOR_HEIGHT : Q := 10.
Definition NUM_X_BLOCKS : Z := 8.

Definition floorLine (fr : Frame.t) : Q :=
  inject_Z (Frame.Window_Height fr) - FLOOR_HEIGHT.

Module Block.
Record t := mk {
  rect : RectF.t;
  speed : Q;
  destroyed : bool;
  collided : bool
}.

Definition make (x : Q) : t := mk (RectF.mk x (-50) 50 50) 3 false false.

Definition intersects (b : t) (other : RectF.t) : bool :=
  RectF.intersects other (rect b).

Definition nextRect (b : t) : RectF.t :=
  RectF.set_y (rect b) (RectF.y (rect b) + speed b).

Fixpoint hitsOther (this : nat) (next : RectF.t) (j : nat) (blocks : list t) : bool :=
  match blocks with
  | [] => false
  | block :: rest =>
      if negb (Nat.eqb this j) && RectF.intersects next (rect block) then true
      else hitsOther this next (S j) rest
  end.

Definition willCollide (fr : Frame.t) (blocks : list t) (this : nat) (b : t) : bool :=
  if Qgtb (RectF.y (rect b) + RectF.h (rect b) + speed b) (floorLine fr) then true
  else hitsOther this (nextRect b) 0 blocks.

Definition update (fr : Frame.t) (blocks : list t) (this : nat) (b : t) : t :=
  if negb (collided b) then
    let b :=
      if willCollide fr blocks this b
      then mk (rect b) 0 (destroyed b) true
      else b in
    mk (RectF.set_y (rect b) (RectF.y (rect b) + speed b))
       (speed b) (destroyed b) (collided b)
  else b.

Definition set_destroyed (b : t) (v : bool) : t :=
  mk (rect b) (speed b) v (collided b).
End Block.

Module Bullet.
Definition SPEED : Q := 20.

Record t := mk { active : bool; rect : RectF.t; velocity : Vec2.t }.

Definition make (pos : Vec2.t) (right : bool) : t :=
  mk true
     (RectF.at_pos (Vec2.sub pos (Vec2.mk 25 50)) 50 50)
     (Vec2.mk (if right then SPEED else - SPEED) (- SPEED)).

(** The loop over the blocks in [Bullet::update]; the flag tells whether a
    block was hit. *)
Fixpoint hitFirst (r : RectF.t) (blocks : list Block.t) : list Block.t * bool :=
  match blocks with
  | [] => ([], false)
  | block :: rest =>
      if Block.intersects block r then (Block.set_destroyed block true :: rest, true)
      else
        let (rest', hit) := hitFirst r rest in
        (block :: rest', hit)
  end.

Definition update (fr : Frame.t) (blocks : list Block.t) (b : t)
    : t * list Block.t :=
  if negb (active b) then (b, blocks)
  else if Qleb (RectF.x (rect b) + RectF.w (rect b)) 0
          || Qgtb (RectF.x (rect b)) (inject_Z (Frame.Window_Width fr)) then
    (mk false (rect b) (velocity b), blocks)
  else
    match hitFirst (rect b) blocks with
    | (blocks', true) => (mk false (rect b) (velocity b), blocks')
    | (_, false) =>
        let velocity' :=
          Vec2.mk (Vec2.x (velocity b)) (Vec2.y (velocity b) + GRAVITY) in
        (mk (active b)
            (RectF.set_pos (rect b) (Vec2.add (RectF.pos (rect b)) velocity'))
            velocity',
         blocks)
    end.
End Bullet.

Module Player.
Definition SPEED : Q := 10.

Record t := mk {
  vy : Q;
  rect : RectF.t;
  grounded : bool;
  facingRight : bool;
  bullet : option Bullet.t;
  bulletFireTimer : Timer.t
}.

Definition make : t :=
  mk 0 (RectF.mk 50 50 50 100) false true None (Timer.make 1000).

Definition set_vy (p : t) (v : Q) : t :=
  mk v (rect p) (grounded p) (facingRight p) (bullet p) (bulletFireTimer p).
Definition set_rect (p : t) (r : RectF.t) : t :=
  mk (vy p) r (grounded p) (facingRight p) (bullet p) (bulletFireTimer p).
Definition set_grounded (p : t) (v : bool) : t :=
  mk (vy p) (rect p) v (facingRight p) (bullet p) (bulletFireTimer p).
Definition set_facingRight (p : t) (v : bool) : t :=
  mk (vy p) (rect p) (grounded p) v (bullet p) (bulletFireTimer p).
Definition set_bullet (p : t) (v : option Bullet.t) : t :=
  mk (vy p) (rect p) (grounded p) (facingRight p) v (bulletFireTimer p).

(** The condition of the first [if] of [Player::update]. *)
Definition fires (fr : Frame.t) (p : t) : bool :=
  Frame.KeyZ_down fr &&
  match bullet p with
  | None => true
  | Some b =>
      negb (Bullet.active b) &&
      Timer.reachedZero (Frame.now fr) (bulletFireTimer p)
  end.

(** Lines 105-108. *)
Definition fire (fr : Frame.t) (p : t) : t :=
  if fires fr p then
    mk (vy p) (rect p) (grounded p) (facingRight p)
       (Some (Bullet.make (RectF.topCenter (rect p)) (facingRight p)))
       (Timer.restart (Frame.now fr) (bulletFireTimer p))
  else p.

(** Lines 109-111. *)
Definition updateBullet (fr : Frame.t) (blocks : list Block.t) (p : t)
    : t * list Block.t :=
  match bullet p with
  | Some b =>
      let (b', blocks') := Bullet.update fr blocks b in
      (set_bullet p (Some b'), blocks')
  | None => (p, blocks)
  end.

(** Lines 113-136: walking. *)
Definition walk (fr : Frame.t) (blocks : list Block.t) (p : t) : t :=
  let left := Frame.KeyLeft_pressed fr && Qgtb (RectF.x (rect p)) 0 in
  let right :=
    Frame.KeyRight_pressed fr &&
    Qltb (RectF.x (rect p) + RectF.w (rect p)) (inject_Z (Frame.Window_Width fr)) in
  let (vx, p) :=
    if xorb left right then
      let (vx, p) := if left then (- SPEED, set_facingRight p false) else (0, p) in
      if right then (SPEED, set_facingRight p true) else (vx, p)
    else (0, p) in
  let nextRect := RectF.set_x (rect p) (RectF.x (rect p) + vx) in
  let vx :=
    if existsb (fun block => negb (Block.intersects block (rect p))
                             && Block.intersects block nextRect) blocks
    then 0 else vx in
  set_rect p (RectF.set_x (rect p) (RectF.x (rect p) + vx)).

(** Lines 138-141: jumping. *)
Definition jump (fr : Frame.t) (p : t) : t :=
  if grounded p && Frame.KeyUp_down fr then
    set_grounded (set_vy p (-20)) false
  else p.

(** Lines 143-162: gravity and the first block the proposed vertical move
    runs into; the second component is the local [touching]. *)
Definition contact (blocks : list Block.t) (p : t) : t * bool :=
  let p := set_vy p (vy p + GRAVITY) in
  let nextRect := RectF.set_y (rect p) (RectF.y (rect p) + vy p) in
  match find (fun block => Block.intersects block nextRect) blocks with
  | Some block =>
      if Qgtb (Block.speed block) 0 then
        let (p, touching) :=
          if Qgtb (vy p) 0 then (set_grounded p true, true) else (p, false) in
        (set_vy p (Block.speed block), touching)
      else
        (set_vy (set_grounded p true) 0, true)
  | None => (p, false)
  end.

(** Lines 164-169: the floor, and the vertical move itself. *)
Definition land (fr : Frame.t) (touching : bool) (p : t) : t :=
  let p :=
    if negb touching &&
       Qgtb (RectF.y (rect p) + RectF.h (rect p) + vy p) (floorLine fr)
    then set_vy (set_grounded p true) 0
    else p in
  set_rect p (RectF.set_y (rect p) (RectF.y (rect p) + vy p)).

(** Lines 171-175: [assert(false)] as soon as a block overlaps the player. *)
Definition assertNoOverlap (blocks : list Block.t) (p : t) : option t :=
  if existsb (fun block => Block.intersects block (rect p)) blocks
  then None else Some p.

(** [Player::update]; [None] is the failed assertion. *)
Definition update (fr : Frame.t) (blocks : list Block.t) (p : t)
    : option t * list Block.t :=
  let p := fire fr p in
  let (p, blocks) := updateBullet fr blocks p in
  let p := walk fr blocks p in
  let p := jump fr p in
  let (p, touching) := contact blocks p in
  let p := land fr touching p in
  (assertNoOverlap blocks p, blocks).
End Player.

End PyoroLike.

(** ** The scene-based prototype ([src/Tapioca/Main.cpp], second translation
    unit), as far as entering the [Playing] scene goes

    Its [Block] and [Bullet] classes have the members of [Tapioca.Block] and
    [PyoroLike.Bullet]; the player and the blocks are members of the scene,
    and the shared data only holds the two scores. *)

Module Prototype.

Module Player.
Record t := mk {
  vy : Q;
  rect : RectF.t;
  grounded : bool;
  facingRight : bool;
  dead : bool;
  bullet : option PyoroLike.Bullet.t;
  bulletFireTimer : Timer.t
}.

Definition make : t :=
  mk 0 (RectF.mk 50 50 50 100) false true false None (Timer.make 1000).
End Player.

Module Data.
Record t := mk { score : Z; highScore : Z }.
Definition make : t := mk 0 0.
End Data.

Module PlayingScene.
Record t := mk {
  player : Player.t;
  blocks : list Tapioca.Block.t;
  blockFallSW : Stopwatch.t
}.

(** [Playing::Playing]: the members are default-constructed and the
    stopwatch is started; the shared data is not touched. *)
Definition make (fr : Frame.t) (d : Data.t) : Data.t * t :=
  (d, mk Player.make [] (Stopwatch.start (Frame.now fr) Stopwatch.make)).
End PlayingScene.

(** [Main]: [App mgr; mgr.init(Scene::Title); mgr.changeScene(Scene::Playing, 0, false)],
    the only place the [Playing] scene is entered from. *)
Definition enterPlaying (fr : Frame.t) : Data.t * PlayingScene.t :=
  PlayingScene.make fr Data.make.

End Prototype.

(** ** Further parts of the programs *)

(** [Animation::get] of Tapioca: [texAssets.at(idx)] gives the texture at
    [idx], here its position, and throws [std::out_of_range] ([None]) when
    [idx] is not below [texAssets.size()]. *)
Definition Animation_get (a : Tapioca.Animation.t) : option Z :=
  if (0 <=? Tapioca.Animation.idx a)%Z
     && (Tapioca.Animation.idx a <? Tapioca.Animation.texAssets_size a)%Z
  then Some (Tapioca.Animation.idx a) else None.

(** ** The scene-based prototype ([src/Tapioca/Main.cpp], second translation
    unit): the game itself

    The records are those of [Prototype]; a block has the members of
    [Tapioca.Block] and a bullet those of [PyoroLike.Bullet].  The constants
    and the member functions are those of this translation unit: the floor is
    10 high, a destroyed block has no callback, and the score is counted by
    [Playing::update], in [int] arithmetic. *)

Module PrototypeGame.

Definition gravity : Q := 1.5.
Definition floorHeight : Q := 10.
Definition numBlocksX : Z := 8.

Definition floorLine (fr : Frame.t) : Q :=
  inject_Z (Frame.Window_Height fr) - floorHeight.

(** [static_cast<int>] of a [size_t]: the low 32 bits, read as a signed
    number. *)
Definition int_of_size_t (n : Z) : Z := Int.wrap n.

(** [a - b] on two [size_t]. *)
Definition size_t_sub (a b : Z) : Z := ((a - b) mod 2 ^ 64)%Z.

Module Block.
Definition willCollide (fr : Frame.t) (blocks : list Tapioca.Block.t) (this : nat)
    (b : Tapioca.Block.t) : bool :=
  if Qgtb (RectF.y (Tapioca.Block.rect b) + RectF.h (Tapioca.Block.rect b)
           + Tapioca.Block.speed b) (floorLine fr)
  then true
  else Tapioca.Block.hitsOther this (Tapioca.Block.nextRect b) 0 blocks.

(** [Block::update(blocks)]: [this] is the position of the block in
    [blocks]. *)
Definition update (fr : Frame.t) (blocks : list Tapioca.Block.t) (this : nat)
    (b : Tapioca.Block.t) : Tapioca.Block.t :=
  let b := Tapioca.Block.set_speed b Tapioca.Block.fallingSpeed in
  if willCollide fr blocks this b then
    let b := if Qleb (RectF.y (Tapioca.Block.rect b)) 0
             then Tapioca.Block.set_touchingTop b true else b in
    let b := Tapioca.Block.set_moving b false in
    Tapioca.Block.set_speed b 0
  else
    let b := Tapioca.Block.set_moving b true in
    Tapioca.Block.set_rect b
      (RectF.set_y (Tapioca.Block.rect b)
         (RectF.y (Tapioca.Block.rect b) + Tapioca.Block.speed b)).

(** [Block::destroy] *)
Definition destroy (b : Tapioca.Block.t) : Tapioca.Block.t :=
  Tapioca.Block.set_destroyed b true.
End Block.

Module Bullet.
Definition speed : Q := 20.
Definition size : Q := 50.

(** [Bullet(Vec2 pos, bool right)] *)
Definition make (pos : Vec2.t) (right : bool) : PyoroLike.Bullet.t :=
  PyoroLike.Bullet.mk true
    (RectF.at_pos (Vec2.sub pos (Vec2.mk (size / 2) size)) size size)
    (Vec2.mk (if right then speed else - speed) (- speed)).

(** The loop over the blocks in [Bullet::update]; the flag tells whether a
    block was hit. *)
Fixpoint hitFirst (r : RectF.t) (blocks : list Tapioca.Block.t)
    : list Tapioca.Block.t * bool :=
  match blocks with
  | [] => ([], false)
  | block :: rest =>
      if Tapioca.Block.intersects block r then (Block.destroy block :: rest, true)
      else
        let (rest', hit) := hitFirst r rest in
        (block :: rest', hit)
  end.

(** [Bullet::update(blocks)] *)
Definition update (fr : Frame.t) (blocks : list Tapioca.Block.t)
    (b : PyoroLike.Bullet.t) : PyoroLike.Bullet.t * list Tapioca.Block.t :=
  if negb (PyoroLike.Bullet.active b) then (b, blocks)
  else if Qleb (RectF.x (PyoroLike.Bullet.rect b)
                + RectF.w (PyoroLike.Bullet.rect b)) 0
          || Qgtb (RectF.x (PyoroLike.Bullet.rect b))
                  (inject_Z (Frame.Window_Width fr)) then
    (PyoroLike.Bullet.mk false (PyoroLike.Bullet.rect b)
       (PyoroLike.Bullet.velocity b), blocks)
  else
    match hitFirst (PyoroLike.Bullet.rect b) blocks with
    | (blocks', true) =>
        (PyoroLike.Bullet.mk false (PyoroLike.Bullet.rect b)
           (PyoroLike.Bullet.velocity b), blocks')
    | (_, false) =>
        let velocity' :=
          Vec2.mk (Vec2.x (PyoroLike.Bullet.velocity b))
                  (Vec2.y (PyoroLike.Bullet.velocity b) + gravity) in
        (PyoroLike.Bullet.mk (PyoroLike.Bullet.active b)
           (RectF.set_pos (PyoroLike.Bullet.rect b)
              (Vec2.add (RectF.pos (PyoroLike.Bullet.rect b)) velocity'))
           velocity',
         blocks)
    end.
End Bullet.

Module Player.
Import Prototype.Player.

Definition speed : Q := 10.

Definition isDead (p : t) : bool := dead p.

Definition set_vy (p : t) (v : Q) : t :=
  mk v (rect p) (grounded p) (facingRight p) (dead p) (bullet p)
     (bulletFireTimer p).
Definition set_rect (p : t) (r : RectF.t) : t :=
  mk (vy p) r (grounded p) (facingRight p) (dead p) (bullet p)
     (bulletFireTimer p).
Definition set_grounded (p : t) (v : bool) : t :=
  mk (vy p) (rect p) v (facingRight p) (dead p) (bullet p)
     (bulletFireTimer p).
Definition set_facingRight (p : t) (v : bool) : t :=
  mk (vy p) (rect p) (grounded p) v (dead p) (bullet p)
     (bulletFireTimer p).
Definition set_dead (p : t) (v : bool) : t :=
  mk (vy p) (rect p) (grounded p) (facingRight p) v (bullet p)
     (bulletFireTimer p).
Definition set_bullet (p : t) (v : option PyoroLike.Bullet.t) : t :=
  mk (vy p) (rect p) (grounded p) (facingRight p) (dead p) v
     (bulletFireTimer p).

(** The condition of the first [if] of [Player::update]. *)
Definition fires (fr : Frame.t) (p : t) : bool :=
  Frame.KeyZ_down fr &&
  match bullet p with
  | None => true
  | Some b =>
      negb (PyoroLike.Bullet.active b) &&
      Timer.reachedZero (Frame.now fr) (bulletFireTimer p)
  end.

(** Lines 676-680: firing. *)
Definition fire (fr : Frame.t) (p : t) : t :=
  if fires fr p then
    mk (vy p) (rect p) (grounded p) (facingRight p) (dead p)
       (Some (Bullet.make (RectF.topCenter (rect p)) (facingRight p)))
       (Timer.restart (Frame.now fr) (bulletFireTimer p))
  else p.

(** Lines 681-683: the bullet in flight. *)
Definition updateBullet (fr : Frame.t) (blocks : list Tapioca.Block.t) (p : t)
    : t * list Tapioca.Block.t :=
  match bullet p with
  | Some b =>
      let (b', blocks') := Bullet.update fr blocks b in
      (set_bullet p (Some b'), blocks')
  | None => (p, blocks)
  end.

(** Lines 685-702: walking. *)
Definition walk (fr : Frame.t) (blocks : list Tapioca.Block.t) (p : t) : t :=
  let left := Frame.KeyLeft_pressed fr && Qgtb (RectF.x (rect p)) 0 in
  let right :=
    Frame.KeyRight_pressed fr &&
    Qltb (RectF.x (rect p) + RectF.w (rect p)) (inject_Z (Frame.Window_Width fr)) in
  let (vx, p) :=
    if xorb left right
    then (if left then - speed else speed, set_facingRight p right)
    else (0, p) in
  let nextRect := RectF.set_x (rect p) (RectF.x (rect p) + vx) in
  let vx := if existsb (fun block => Tapioca.Block.intersects block nextRect) blocks
            then 0 else vx in
  set_rect p (RectF.set_x (rect p) (RectF.x (rect p) + vx)).

(** Lines 704-707: jumping. *)
Definition jump (fr : Frame.t) (p : t) : t :=
  if grounded p && Frame.KeyUp_down fr then
    set_grounded (set_vy p (-20)) false
  else p.

(** Lines 709-728: gravity and the first block the proposed vertical move
    runs into; the second component is the local [touching]. *)
Definition contact (blocks : list Tapioca.Block.t) (p : t) : t * bool :=
  let p := set_vy p (vy p + gravity) in
  let nextRect := RectF.set_y (rect p) (RectF.y (rect p) + vy p) in
  match find (fun block => Tapioca.Block.intersects block nextRect) blocks with
  | Some block =>
      if Tapioca.Block.isMoving block then
        let (p, touching) :=
          if Qgtb (vy p) 0 then (set_grounded p true, true) else (p, false) in
        (set_vy p Tapioca.Block.fallingSpeed, touching)
      else
        (set_vy (set_grounded p true) 0, true)
  | None => (p, false)
  end.

(** Lines 730-735: the floor, and the vertical move itself. *)
Definition land (fr : Frame.t) (touching : bool) (p : t) : t :=
  let p :=
    if negb touching &&
       Qgtb (RectF.y (rect p) + RectF.h (rect p) + vy p) (floorLine fr)
    then set_vy (set_grounded p true) 0
    else p in
  set_rect p (RectF.set_y (rect p) (RectF.y (rect p) + vy p)).

(** Lines 737-742: a block that overlaps the player kills it. *)
Definition die (blocks : list Tapioca.Block.t) (p : t) : t :=
  if existsb (fun block => Tapioca.Block.intersects block (rect p)) blocks
  then set_dead p true else p.

(** [Player::update(blocks)] *)
Definition update (fr : Frame.t) (blocks : list Tapioca.Block.t) (p : t)
    : t * list Tapioca.Block.t :=
  let p := fire fr p in
  let (p, blocks) := updateBullet fr blocks p in
  let p := walk fr blocks p in
  let p := jump fr p in
  let (p, touching) := contact blocks p in
  let p := land fr touching p in
  (die blocks p, blocks).
End Player.

Module PlayingScene.
Import Prototype.PlayingScene.

Definition blockFallIntervalms : Z := 1000.

(** Lines 781-787: a new block at the top of a random lane. *)
Definition spawn (fr : Frame.t) (sw : Stopwatch.t) (blocks : list Tapioca.Block.t)
    : list Tapioca.Block.t * Stopwatch.t :=
  if (Stopwatch.ms (Frame.now fr) sw >? blockFallIntervalms)%Z then
    (blocks ++
       [Tapioca.Block.make (inject_Z (Frame.Random fr * Frame.Window_Width fr)
                            / inject_Z numBlocksX)],
     Stopwatch.restart (Frame.now fr) sw)
  else (blocks, sw).

(** Lines 788-793: the loop over the blocks, which goes on after a
    [changeScene]; the flag tells that [changeScene(Scene::GameOver)] was
    called. *)
Fixpoint updateBlocks (fr : Frame.t) (updated pending : list Tapioca.Block.t)
    : list Tapioca.Block.t * bool :=
  match pending with
  | [] => (updated, false)
  | block :: rest =>
      let block' := Block.update fr (updated ++ pending) (length updated) block in
      let (blocks, asked) := updateBlocks fr (updated ++ [block']) rest in
      (blocks, Tapioca.Block.isTouchingTop block' || asked)
  end.

(** [Playing::update]: the shared data, the scene and whether
    [changeScene(Scene::GameOver)] was called. *)
Definition update (fr : Frame.t) (d : Prototype.Data.t) (s : t)
    : Prototype.Data.t * t * bool :=
  let (blocks, sw) := spawn fr (blockFallSW s) (blocks s) in
  let (blocks, top) := updateBlocks fr [] blocks in
  let numBlocks := Z.of_nat (length blocks) in
  let blocks :=
    filter (fun block => negb (Tapioca.Block.isDestroyed block)) blocks in
  let score :=
    Int.add (Prototype.Data.score d)
      (Int.mul 10 (Z.max 0 (int_of_size_t
                              (size_t_sub numBlocks (Z.of_nat (length blocks)))))) in
  let d := Prototype.Data.mk score (Z.max score (Prototype.Data.highScore d)) in
  let (p, blocks) := Player.update fr blocks (player s) in
  (d, mk p blocks sw, top || Player.isDead p).
End PlayingScene.

End PrototypeGame.

(** * Notions used in the statements *)

(** What [willCollide] decides, in terms of the geometry. *)
Definition crossesFloor (fr : Frame.t) (b : Tapioca.Block.t) : Prop :=
  Tapioca.floorLine fr <
  RectF.y (Tapioca.Block.rect b) + RectF.h (Tapioca.Block.rect b)
  + Tapioca.Block.fallingSpeed.

Definition runsIntoOther (blocks : list Tapioca.Block.t) (this : nat)
    (b : Tapioca.Block.t) : Prop :=
  exists k other,
    nth_error blocks k = Some other /\ k <> this /\
    RectF.intersects
      (RectF.set_y (Tapioca.Block.rect b)
         (RectF.y (Tapioca.Block.rect b) + Tapioca.Block.fallingSpeed))
      (Tapioca.Block.rect other) = true.

(** ** Concrete frames and states used in the examples *)

(** A frame of the 400 x 600 window [Main] opens, with no key down. *)
Definition frame0 : Frame.t := Frame.mk 400 600 false false false false false 0 0.

(** The same frame with one key. *)
Definition frameZ : Frame.t := Frame.mk 400 600 true false false false false 0 0.
Definition frameR : Frame.t := Frame.mk 400 600 false true false false false 0 0.
Definition frameUp : Frame.t := Frame.mk 400 600 false false true false false 0 0.
Definition frameRight : Frame.t := Frame.mk 400 600 false false false false true 0 0.

(** A block in free fall at horizontal position [x], [n] steps after it was
    spawned. *)
Definition fallen (x : Q) (n : Z) : Tapioca.Block.t :=
  Tapioca.Block.mk (RectF.mk x (-50 + 3 * inject_Z n) 50 50) false true false 3.

(** The player standing on the floor and a block that has come down to the
    player's head. *)
Definition playerOnFloor : Tapioca.Player.t :=
  Tapioca.Player.set_grounded (Tapioca.Player.make frame0) true.
Definition blockOnHead : Tapioca.Block.t := fallen 100 152.

(** A game that has ended: score 250, a dead player, two blocks left. *)
Definition C8_gameOver : Tapioca.App.t :=
  Tapioca.App.mk Tapioca.App.GameOverScene
    (Tapioca.Data.mk 250 300 (Tapioca.Stage.make frame0)
       (Tapioca.Player.set_dead (Tapioca.Player.make frame0) true)
       [fallen 100 152; fallen 200 30]).

(** ** Projectiles *)

(** An egg in flight: its explosion has not been started, and the timer of
    the explosion, which only runs once it is started, has not run out. *)
Definition flying (fr : Frame.t) (e : Tapioca.Egg.t) : Prop :=
  Tapioca.Animation.isStarted (Tapioca.Egg.explosionAnim e) = false /\
  Timer.reachedZero (Frame.now fr)
    (Tapioca.Animation.timer (Tapioca.Egg.explosionAnim e)) = false.

(** An egg whose explosion is being played. *)
Definition exploding (e : Tapioca.Egg.t) : Prop :=
  let a := Tapioca.Egg.explosionAnim e in
  Tapioca.Animation.looped a = false /\
  Tapioca.Animation.texAssets_size a = 2%Z /\
  Tapioca.Animation.started a = true /\
  (Tapioca.Animation.idx a = 0 \/ Tapioca.Animation.idx a = 1)%Z /\
  (0 < Timer.duration (Tapioca.Animation.timer a))%Z.

(** The blocks lie between the left and the right edge of the window, as the
    lanes they are spawned in do. *)
Definition insideWindow (fr : Frame.t) (r : RectF.t) : Prop :=
  0 <= RectF.x r /\ RectF.x r + RectF.w r <= inject_Z (Frame.Window_Width fr).

(** What [Egg::update] and [Bullet::update] leave of a vector in which [hit]
    was the first block to intersect the projectile. *)
Definition firstHit {B : Type} (touches : B -> bool) (blocks before : list B)
    (hit : B) (after : list B) : Prop :=
  blocks = before ++ hit :: after /\
  (forall b, In b before -> touches b = false) /\
  touches hit = true.

(** An egg thrown to the right from the top centre (120, 450) of the player,
    and three blocks of which the second and the third intersect it. *)
Definition C5_egg : Tapioca.Egg.t := Tapioca.Egg.make 0 (Vec2.mk 120 450) true.
Definition C5_blocks : list Tapioca.Block.t :=
  [fallen 300 10; fallen 100 152; fallen 50 160].

(** ** The player *)

(** The rectangle [r] moved sideways by [vx]. *)
Definition shifted (r : RectF.t) (vx : Q) : RectF.t :=
  RectF.set_x r (RectF.x r + vx).

(** The horizontal step the keys ask for in Tapioca: left or right but not
    both, and not beyond the edge of the window. *)
Definition Tapioca_proposes (fr : Frame.t) (p : Tapioca.Player.t) (vx : Q) : Prop :=
  (Frame.KeyLeft_pressed fr = true /\ Frame.KeyRight_pressed fr = false /\
   0 < RectF.x (Tapioca.Player.rect p) /\ vx = - Tapioca.Player.speed) \/
  (Frame.KeyLeft_pressed fr = false /\ Frame.KeyRight_pressed fr = true /\
   RectF.x (Tapioca.Player.rect p) + RectF.w (Tapioca.Player.rect p)
     < inject_Z (Frame.Window_Width fr) /\
   vx = Tapioca.Player.speed).

(** The horizontal step the keys ask for in PyoroLike: a key counts when it
    is held and the player is not at that edge of the window, and exactly one
    of the two has to count. *)
Definition PyoroLike_proposes (fr : Frame.t) (p : PyoroLike.Player.t) (vx : Q) : Prop :=
  let left :=
    Frame.KeyLeft_pressed fr = true /\ 0 < RectF.x (PyoroLike.Player.rect p) in
  let right :=
    Frame.KeyRight_pressed fr = true /\
    RectF.x (PyoroLike.Player.rect p) + RectF.w (PyoroLike.Player.rect p)
      < inject_Z (Frame.Window_Width fr) in
  (left /\ ~ right /\ vx = - PyoroLike.Player.SPEED) \/
  (right /\ ~ left /\ vx = PyoroLike.Player.SPEED).

(** A PyoroLike player in mid-air with the right key held, and a falling
    block that has come down 2 pixels into the player's head: the block
    intersects the player's rectangle and the rectangle one step to the
    right. *)
Definition C6_player : PyoroLike.Player.t :=
  PyoroLike.Player.mk 0 (RectF.mk 100 300 50 100) false true None (Timer.make 1000).
Definition C6_block : PyoroLike.Block.t :=
  PyoroLike.Block.mk (RectF.mk 120 252 50 50) 3 false false.

(** A block at rest on the floor at x = 150 and a Tapioca player
    standing 2 pixels to its left. *)
Definition C6_wall : Tapioca.Block.t :=
  Tapioca.Block.mk (RectF.mk 150 469 50 50) false false false 0.
Definition C6_walker : Tapioca.Player.t :=
  Tapioca.Player.set_rect
    (Tapioca.Player.set_grounded (Tapioca.Player.make frame0) true)
    (RectF.mk 108 450 40 70).

(** ** The block loop against a snapshot

    The loop of [Playing::update] as the specification describes it: the
    blocks are visited in the same order and the loop is left in the same
    way, but every collision test is made against [snapshot], the vector as
    it was when the loop started. *)
Fixpoint updateBlocksFromSnapshot (fr : Frame.t) (snapshot : list Tapioca.Block.t)
    (updated pending : list Tapioca.Block.t) : list Tapioca.Block.t * bool :=
  match pending with
  | [] => (updated, false)
  | block :: rest =>
      let block' := Tapioca.Block.update fr snapshot (length updated) block in
      if Tapioca.Block.isTouchingTop block' then (updated ++ block' :: rest, true)
      else updateBlocksFromSnapshot fr snapshot (updated ++ [block']) rest
  end.

(** A block that has stopped [n] steps after it was spawned. *)
Definition stopped (x : Q) (n : Z) : Tapioca.Block.t :=
  Tapioca.Block.mk (RectF.mk x (-50 + 3 * inject_Z n) 50 50) false false false 0.

(** Two blocks of one lane that were stacked on a third one, which an egg has
    just destroyed: the lower one stopped at y = 418 on the block that lay on
    the floor, the upper one at y = 367 on the lower one. *)
Definition unsupportedStack : list Tapioca.Block.t := [stopped 100 156; stopped 100 139].

(** The tick before [unsupportedStack]: the stack of three blocks at rest, the
    player two lanes to the right, and an egg in flight that has reached the
    block on the floor. *)
Definition stackBeingHit : Tapioca.Data.t :=
  Tapioca.Data.mk 0 0 (Tapioca.Stage.make frame0)
    (Tapioca.Player.mk 0 (RectF.mk 200 450 40 70) true false false
       (Some (Tapioca.Egg.mk (RectF.mk 140 480 50 50) (Vec2.mk (-20) 10) false
                (Tapioca.Animation.make 0 2 100 false false)))
       (Timer.restart 0 (Timer.make 500))
       (Tapioca.Animation.make 0 2 300 true true)
       (Tapioca.Animation.make 0 1 200 false false))
    [stopped 100 173; stopped 100 156; stopped 100 139].

(** ** Blocks over several ticks *)

(** What a PyoroLike block meets in one tick: the frame, the vector and its
    own position in it. *)
Definition PyoroLike_tick : Type := (Frame.t * list PyoroLike.Block.t * nat)%type.

Definition PyoroLike_run (ticks : list PyoroLike_tick) (b : PyoroLike.Block.t)
    : PyoroLike.Block.t :=
  fold_left (fun b '(fr, blocks, this) => PyoroLike.Block.update fr blocks this b)
            ticks b.

(** ** Firing *)

(** A frame 600 ms after [frameZ], again with Z going down. *)
Definition frameZ_later : Frame.t :=
  Frame.mk 400 600 true false false false false 600 0.

(** The Tapioca player one update after it threw its first egg. *)
Definition C2_thrower : Tapioca.Player.t :=
  fst (fst (Tapioca.Player.update frameZ [] (Tapioca.Player.make frameZ))).

(** A PyoroLike player that holds an inactive bullet fired 1200 ms ago. *)
Definition C2_shooter : PyoroLike.Player.t :=
  PyoroLike.Player.mk 0 (RectF.mk 50 490 50 100) true true
    (Some (PyoroLike.Bullet.mk false (RectF.mk 420 300 50 50) (Vec2.mk 20 5)))
    (Timer.restart (-600) (Timer.make 1000)).

(** ** Scoring *)


(** A rectangle whose lower edge is not below the floor line. *)
Definition aboveFloor (fr : Frame.t) (r : RectF.t) : Prop :=
  0 <= RectF.h r /\ RectF.y r + RectF.h r <= Tapioca.floorLine fr.

Definition blocksAboveFloor (fr : Frame.t) (blocks : list Tapioca.Block.t) : Prop :=
  Forall (fun b => aboveFloor fr (Tapioca.Block.rect b)) blocks.

(** A rectangle that is not higher up than the place blocks are spawned
    at. *)
Definition fromTop (r : RectF.t) : Prop := - Tapioca.Block.size <= RectF.y r.

Definition blocksFromTop (blocks : list Tapioca.Block.t) : Prop :=
  Forall (fun b => fromTop (Tapioca.Block.rect b)) blocks.

(** What the hit callback adds to the score for a block: the [int] of the
    hundredfold of the height [Block::destroy] reports. *)
Definition hitScore (fr : Frame.t) (b : Tapioca.Block.t) : Z :=
  static_cast_int
    (Double.mul (Double.finite 100) (snd (Tapioca.Block.destroy fr b))).

(** The arithmetic of [Double] against the specification of IEEE 754 in the
    Standard Library ([SpecFloat], binary64 is [prec = 53], [emax = 1024]):
    a number of the specification as a [Double.t], and the three operations
    of the score carried out by either, for the position [y2 / 2] in a window
    of height [H]. *)
Definition Double_of_spec (f : spec_float) : Double.t :=
  match f with
  | S754_zero _ => Double.finite 0
  | S754_infinity s => Double.infinity s
  | S754_nan => Double.nan
  | S754_finite s m e =>
      Double.finite ((if s then - inject_Z (Zpos m) else inject_Z (Zpos m))
                     * Double.pow2 e)
  end.

Definition Double_same (a b : Double.t) : bool :=
  match a, b with
  | Double.finite x, Double.finite y => Qeq_bool x y
  | Double.infinity s, Double.infinity s' => Bool.eqb s s'
  | Double.nan, Double.nan => true
  | _, _ => false
  end.

Definition SpecFloat_score (y2 H : Z) : spec_float :=
  SFmul 53 1024 (binary_normalize 53 1024 100 0 false)
    (SFsub 53 1024 (binary_normalize 53 1024 1 0 false)
       (SFdiv 53 1024 (binary_normalize 53 1024 y2 (-1) false)
                      (binary_normalize 53 1024 H 0 false))).

Definition Double_score (y2 H : Z) : Double.t :=
  Double.mul (Double.finite 100)
    (Double.sub (Double.finite 1)
       (Double.div (Double.finite (inject_Z y2 / 2)) (Double.of_int H))).

(** The integers from [first] on, [count] of them. *)
Definition Zrange (first : Z) (count : nat) : list Z :=
  map (fun k => (first + Z.of_nat k)%Z) (seq 0 count).

(** A block at rest at the given height. *)
Definition restingAt (y : Q) : Tapioca.Block.t :=
  Tapioca.Block.mk (RectF.mk 100 y 50 50) false false false 0.

(** A frame of a window 400 high. *)
Definition frameLow : Frame.t := Frame.mk 400 400 false false false false false 0 0.

(** The high score is a score that was reached. *)
Definition scoresInOrder (d : Tapioca.Data.t) : Prop :=
  (0 <= Tapioca.Data.highScore d /\
   Tapioca.Data.score d <= Tapioca.Data.highScore d)%Z.


(** ** Jumping into a falling block *)

(** The Tapioca player in mid-air, rising at 10 pixels per tick under a
    falling block. *)
Definition C10_rising : Tapioca.Player.t :=
  Tapioca.Player.set_vy
    (Tapioca.Player.set_rect (Tapioca.Player.make frame0) (RectF.mk 100 300 40 70))
    (-10).

(** ** Notions used in the further statements *)

(** No two blocks of the vector overlap. *)
Definition disjointBlocks (blocks : list Tapioca.Block.t) : Prop :=
  forall i j bi bj,
    i <> j -> nth_error blocks i = Some bi -> nth_error blocks j = Some bj ->
    RectF.intersects (Tapioca.Block.rect bi) (Tapioca.Block.rect bj) = false.

(** The same as a test. *)
Fixpoint disjointb (blocks : list Tapioca.Block.t) : bool :=
  match blocks with
  | [] => true
  | b :: rest =>
      forallb (fun other => negb (RectF.intersects (Tapioca.Block.rect b)
                                                  (Tapioca.Block.rect other))) rest
      && disjointb rest
  end.

(** A rectangle that fills one of the eight lanes of the window: the place a
    block is spawned at, but for the height. *)
Definition inLane (fr : Frame.t) (r : RectF.t) : Prop :=
  exists lane : Z,
    (0 <= lane <= 7)%Z /\
    RectF.x r == inject_Z (lane * Frame.Window_Width fr) / inject_Z Tapioca.numBlocksX /\
    RectF.w r = Tapioca.Block.size /\ RectF.h r = Tapioca.Block.size.

(** A frame of the 400 x 600 window in which [Random(0, 7)] gives 3. *)
Definition frameLane3 : Frame.t := Frame.mk 400 600 false false false false false 0 3.

(** The game in the [Playing] scene, the player on the floor under a block
    that has come down to its head. *)
Definition crushing : Tapioca.App.t :=
  Tapioca.App.mk (Tapioca.App.PlayingSceneOf Stopwatch.make)
    (Tapioca.Data.mk 0 0 (Tapioca.Stage.make frame0) playerOnFloor [blockOnHead]).

(** ** Eggs over several ticks *)

(** The egg after one [Egg::update] per frame, with no block around. *)
Definition Egg_fly (frames : list Frame.t) (e : Tapioca.Egg.t) : Tapioca.Egg.t :=
  fold_left (fun e fr => fst (fst (Tapioca.Egg.update fr [] e))) frames e.

(** An egg is updated tick after tick, each tick with its frame and the
    blocks of that tick, until it is flagged destroyed (and dropped by the
    player): no update changes the blocks, calls a hit callback or moves the
    egg. *)
Fixpoint Egg_inert (ticks : list (Frame.t * list Tapioca.Block.t))
    (e : Tapioca.Egg.t) : Prop :=
  match ticks with
  | [] => True
  | (fr, blocks) :: rest =>
      let e' := fst (fst (Tapioca.Egg.update fr blocks e)) in
      snd (fst (Tapioca.Egg.update fr blocks e)) = blocks /\
      snd (Tapioca.Egg.update fr blocks e) = None /\
      Tapioca.Egg.rect e' = Tapioca.Egg.rect e /\
      (Tapioca.Egg.isDestroyed e' = true \/ Egg_inert rest e')
  end.

(** ** Animations *)

(** What can be done to an animation, each at its time. *)
Inductive AnimationCall :=
| CallStart (now : Z)
| CallStop (now : Z)
| CallUpdate (now : Z).

Definition Animation_call (a : Tapioca.Animation.t) (c : AnimationCall)
    : Tapioca.Animation.t :=
  match c with
  | CallStart now => Tapioca.Animation.start now a
  | CallStop now => Tapioca.Animation.stop now a
  | CallUpdate now => Tapioca.Animation.update now a
  end.

(** ** Keys *)

(** The frame [fr] with another answer of [KeyUp.down()]. *)
Definition withKeyUp (fr : Frame.t) (up : bool) : Frame.t :=
  Frame.mk (Frame.Window_Width fr) (Frame.Window_Height fr)
           (Frame.KeyZ_down fr) (Frame.KeyR_down fr) up
           (Frame.KeyLeft_pressed fr) (Frame.KeyRight_pressed fr)
           (Frame.now fr) (Frame.Random fr).

(** ** The prototype's score *)

(** The number of blocks of the vector that are flagged destroyed. *)
Definition destroyedCount (blocks : list Tapioca.Block.t) : nat :=
  length (filter Tapioca.Block.isDestroyed blocks).

(** A scene of the prototype: a tower of two blocks, the lower of which a
    bullet has hit in the last frame. *)
Definition prototypeAfterHit : Prototype.PlayingScene.t :=
  Prototype.PlayingScene.mk Prototype.Player.make
    [Tapioca.Block.set_destroyed (stopped 100 180) true; stopped 100 163]
    (Stopwatch.start 0 Stopwatch.make).

(** * Properties *)

(** ** Comparisons and a few facts on rationals *)

Lemma Qltb_lt (a b : Q) : Qltb a b = true <-> a < b.
Proof.
  unfold Qltb. rewrite negb_true_iff, <- not_true_iff_false, Qle_bool_iff.
  split; [apply Qnot_le_lt | apply Qlt_not_le].
Qed.

Lemma Qltb_ge (a b : Q) : Qltb a b = false <-> b <= a.
Proof.
  unfold Qltb. rewrite negb_false_iff. apply Qle_bool_iff.
Qed.

Lemma Qgtb_gt (a b : Q) : Qgtb a b = true <-> b < a.
Proof. apply Qltb_lt. Qed.

Lemma Qgtb_le (a b : Q) : Qgtb a b = false <-> a <= b.
Proof. apply Qltb_ge. Qed.

Lemma Qleb_le (a b : Q) : Qleb a b = true <-> a <= b.
Proof. apply Qle_bool_iff. Qed.

Lemma Qleb_gt (a b : Q) : Qleb a b = false <-> b < a.
Proof.
  unfold Qleb. rewrite <- not_true_iff_false, Qle_bool_iff.
  split; [apply Qnot_le_lt | apply Qlt_not_le].
Qed.

(** Adding zero leaves a rational as it is, representation included. *)
Lemma Qplus_0_same (a : Q) : a + 0 = a.
Proof.
  destruct a as [n d]. unfold Qplus. simpl.
  rewrite Z.mul_1_r, Z.add_0_r, Pos.mul_1_r. reflexivity.
Qed.

(** [RectF::intersects], spelled out. *)
Lemma intersects_spec (a b : RectF.t) :
  RectF.intersects a b = true <->
  RectF.x a < RectF.x b + RectF.w b /\ RectF.x b < RectF.x a + RectF.w a /\
  RectF.y a < RectF.y b + RectF.h b /\ RectF.y b < RectF.y a + RectF.h a.
Proof.
  unfold RectF.intersects. rewrite !andb_true_iff, !Qltb_lt. tauto.
Qed.

(** ** Blocks (Tapioca) *)

(** The loop of [willCollide] finds a block exactly when some block at
    another position than [this] intersects the proposed rectangle. *)
Lemma hitsOther_spec (this : nat) (next : RectF.t) (blocks : list Tapioca.Block.t) (j : nat) :
  Tapioca.Block.hitsOther this next j blocks = true <->
  exists k other,
    nth_error blocks k = Some other /\ (j + k)%nat <> this /\
    RectF.intersects next (Tapioca.Block.rect other) = true.
Proof.
  revert j. induction blocks as [|block rest IH]; intros j; simpl.
  - split; [discriminate|]. intros (k & other & Hk & _). destruct k; discriminate.
  - destruct (Nat.eqb this j) eqn:Ej; simpl.
    + apply Nat.eqb_eq in Ej. rewrite IH. split.
      * intros (k & other & Hk & Hne & Hi). exists (S k), other.
        repeat split; auto. lia.
      * intros (k & other & Hk & Hne & Hi). destruct k as [|k].
        { exfalso. apply Hne. lia. }
        exists k, other. repeat split; auto. lia.
    + apply Nat.eqb_neq in Ej.
      destruct (RectF.intersects next (Tapioca.Block.rect block)) eqn:Ei.
      * split; [|reflexivity]. intros _. exists 0%nat, block.
        repeat split; auto. lia.
      * rewrite IH. split.
        -- intros (k & other & Hk & Hne & Hi). exists (S k), other.
           repeat split; auto. lia.
        -- intros (k & other & Hk & Hne & Hi). destruct k as [|k].
           { simpl in Hk. injection Hk as <-. congruence. }
           exists k, other. repeat split; auto. lia.
Qed.

Lemma willCollide_spec (fr : Frame.t) (blocks : list Tapioca.Block.t) (this : nat)
    (b : Tapioca.Block.t) :
  Tapioca.Block.willCollide fr blocks this
    (Tapioca.Block.set_speed b Tapioca.Block.fallingSpeed) = true <->
  crossesFloor fr b \/ runsIntoOther blocks this b.
Proof.
  unfold Tapioca.Block.willCollide, crossesFloor, runsIntoOther,
    Tapioca.Block.nextRect. simpl.
  destruct (Qgtb _ _) eqn:Ef.
  - apply Qgtb_gt in Ef. tauto.
  - apply Qgtb_le in Ef. rewrite hitsOther_spec. simpl. split.
    + intros H. right. exact H.
    + intros [H|H]; [|exact H]. exfalso. apply (Qlt_not_le _ _ H Ef).
Qed.

(** The two outcomes of [Block::update]. *)
Lemma Block_update_stop (fr : Frame.t) (blocks : list Tapioca.Block.t) (this : nat)
    (b : Tapioca.Block.t) :
  Tapioca.Block.willCollide fr blocks this
    (Tapioca.Block.set_speed b Tapioca.Block.fallingSpeed) = true ->
  Tapioca.Block.update fr blocks this b =
  Tapioca.Block.mk (Tapioca.Block.rect b) (Tapioca.Block.destroyed b) false
    (if Qleb (RectF.y (Tapioca.Block.rect b)) 0 then true
     else Tapioca.Block.touchingTop b) 0.
Proof.
  intros H. unfold Tapioca.Block.update. rewrite H. simpl.
  destruct (Qleb _ _); reflexivity.
Qed.

Lemma Block_update_fall (fr : Frame.t) (blocks : list Tapioca.Block.t) (this : nat)
    (b : Tapioca.Block.t) :
  Tapioca.Block.willCollide fr blocks this
    (Tapioca.Block.set_speed b Tapioca.Block.fallingSpeed) = false ->
  Tapioca.Block.update fr blocks this b =
  Tapioca.Block.mk
    (RectF.set_y (Tapioca.Block.rect b)
       (RectF.y (Tapioca.Block.rect b) + Tapioca.Block.fallingSpeed))
    (Tapioca.Block.destroyed b) true (Tapioca.Block.touchingTop b)
    Tapioca.Block.fallingSpeed.
Proof.
  intros H. unfold Tapioca.Block.update. rewrite H. reflexivity.
Qed.

(** C4. In one [Block::update] the block ends up stopped ([moving] false)
    exactly when its next position (current position plus the falling speed)
    crosses the floor line or intersects the rectangle another block of the
    vector has at that moment; and a block not yet flagged gets [touchingTop]
    exactly when it has stopped with its top edge at or above [y = 0]. *)
Theorem C4_block_stops_iff_collision (fr : Frame.t) (blocks : list Tapioca.Block.t)
    (this : nat) (b : Tapioca.Block.t) :
  let b' := Tapioca.Block.update fr blocks this b in
  (Tapioca.Block.isMoving b' = false <->
   crossesFloor fr b \/ runsIntoOther blocks this b) /\
  (Tapioca.Block.isTouchingTop b = false ->
   (Tapioca.Block.isTouchingTop b' = true <->
    Tapioca.Block.isMoving b' = false /\ RectF.y (Tapioca.Block.rect b') <= 0)).
Proof.
  intros b'. subst b'. rewrite <- willCollide_spec.
  destruct (Tapioca.Block.willCollide fr blocks this
              (Tapioca.Block.set_speed b Tapioca.Block.fallingSpeed)) eqn:Hc.
  - rewrite (Block_update_stop _ _ _ _ Hc). simpl. split; [tauto|].
    unfold Tapioca.Block.isTouchingTop. intros ->.
    destruct (Qleb _ _) eqn:Ey.
    + apply Qleb_le in Ey. tauto.
    + apply Qleb_gt in Ey. split; [discriminate|].
      intros [_ H]. exfalso. apply (Qlt_not_le _ _ Ey H).
  - rewrite (Block_update_fall _ _ _ _ Hc). simpl. split.
    + split; discriminate.
    + unfold Tapioca.Block.isTouchingTop. intros ->.
      split; [discriminate|]. intros [H _]. discriminate.
Qed.

(** A concrete instance: a block spawned onto a stack that reaches the top
    of the window stops at once and is flagged. *)
Lemma C4_block_stops_iff_collision_witness :
  Tapioca.Block.isTouchingTop (fallen 100 0) = false /\
  Tapioca.Block.isTouchingTop
    (Tapioca.Block.update frame0 [stopped 100 17; fallen 100 0] 1 (fallen 100 0))
  = true.
Proof.
  split; [reflexivity|].
  apply (proj2 (C4_block_stops_iff_collision frame0
                  [stopped 100 17; fallen 100 0] 1 (fallen 100 0)));
    [reflexivity|].
  split; [reflexivity|]. apply Qle_bool_iff. reflexivity.
Defined.

(** ** The player (Tapioca): death *)

Lemma launch_dead fr p :
  Tapioca.Player.dead (Tapioca.Player.launch fr p) = Tapioca.Player.dead p.
Proof. unfold Tapioca.Player.launch. destruct (Tapioca.Player.launches fr p); reflexivity. Qed.

Lemma updateEgg_dead fr blocks p :
  Tapioca.Player.dead (fst (fst (Tapioca.Player.updateEgg fr blocks p))) =
  Tapioca.Player.dead p.
Proof.
  unfold Tapioca.Player.updateEgg. destruct (Tapioca.Player.egg p) as [e|]; [|reflexivity].
  destruct (Tapioca.Egg.update fr blocks e) as [[e' blocks'] hit]. reflexivity.
Qed.

Lemma walk_dead fr blocks p :
  Tapioca.Player.dead (Tapioca.Player.walk fr blocks p) = Tapioca.Player.dead p.
Proof.
  unfold Tapioca.Player.walk.
  repeat match goal with |- context [if ?c then _ else _] => destruct c end;
    reflexivity.
Qed.

Lemma jump_dead fr p :
  Tapioca.Player.dead (Tapioca.Player.jump fr p) = Tapioca.Player.dead p.
Proof. unfold Tapioca.Player.jump. destruct (_ && _); reflexivity. Qed.

Lemma contact_dead blocks p :
  Tapioca.Player.dead (fst (Tapioca.Player.contact blocks p)) = Tapioca.Player.dead p.
Proof.
  unfold Tapioca.Player.contact. destruct (find _ blocks) as [block|]; [|reflexivity].
  destruct (Tapioca.Block.isMoving block); [|reflexivity].
  destruct (Qgtb _ _); reflexivity.
Qed.

Lemma land_dead fr touching p :
  Tapioca.Player.dead (Tapioca.Player.land fr touching p) = Tapioca.Player.dead p.
Proof. unfold Tapioca.Player.land. destruct (_ && _); reflexivity. Qed.

(** [crush] is the only place [dead] is written, and it only sets it. *)
Lemma crush_spec blocks p :
  let p' := Tapioca.Player.crush blocks p in
  Tapioca.Player.rect p' = Tapioca.Player.rect p /\
  Tapioca.Player.grounded p' = Tapioca.Player.grounded p /\
  Tapioca.Player.vy p' = Tapioca.Player.vy p /\
  Tapioca.Player.dead p' =
    Tapioca.Player.dead p ||
    (Tapioca.Player.grounded p &&
     existsb (fun block => Tapioca.Block.isMoving block &&
                           Tapioca.Block.intersects block (Tapioca.Player.rect p))
             blocks).
Proof.
  unfold Tapioca.Player.crush.
  destruct (Tapioca.Player.grounded p) eqn:Eg; simpl.
  - destruct (existsb _ blocks); simpl; rewrite ?Eg, ?orb_true_r, ?orb_false_r;
      repeat split; reflexivity.
  - rewrite Eg, orb_false_r. repeat split.
Qed.

(** [Egg::update] only ever writes the [destroyed] flag of a block. *)
Lemma hitFirst_map {A} (f : Tapioca.Block.t -> A) fr r blocks :
  (forall b v, f (Tapioca.Block.set_destroyed b v) = f b) ->
  map f (fst (Tapioca.Egg.hitFirst fr r blocks)) = map f blocks.
Proof.
  intros Hf. induction blocks as [|block rest IH]; simpl; [reflexivity|].
  destruct (Tapioca.Block.intersects block r); simpl.
  - rewrite Hf. reflexivity.
  - destruct (Tapioca.Egg.hitFirst fr r rest) as [rest' hit]. simpl in *.
    rewrite IH. reflexivity.
Qed.

Lemma Egg_update_map {A} (f : Tapioca.Block.t -> A) fr blocks e :
  (forall b v, f (Tapioca.Block.set_destroyed b v) = f b) ->
  map f (snd (fst (Tapioca.Egg.update fr blocks e))) = map f blocks.
Proof.
  intros Hf. unfold Tapioca.Egg.update.
  repeat match goal with |- context [if ?c then _ else _] => destruct c end;
    try reflexivity.
  pose proof (hitFirst_map f fr
    (Tapioca.Egg.rect
       (Tapioca.Egg.set_explosionAnim e
          (Tapioca.Animation.update (Frame.now fr) (Tapioca.Egg.explosionAnim e))))
    blocks Hf) as H.
  destruct (Tapioca.Egg.hitFirst _ _ blocks) as [blocks' [height|]]; simpl in *;
    [exact H | reflexivity].
Qed.

Lemma Player_update_map {A} (f : Tapioca.Block.t -> A) fr blocks p :
  (forall b v, f (Tapioca.Block.set_destroyed b v) = f b) ->
  map f (snd (fst (Tapioca.Player.update fr blocks p))) = map f blocks.
Proof.
  intros Hf. unfold Tapioca.Player.update, Tapioca.Player.updateEgg.
  destruct (Tapioca.Player.egg (Tapioca.Player.launch fr p)) as [e|]; [|reflexivity].
  pose proof (Egg_update_map f fr blocks e Hf) as H.
  destruct (Tapioca.Egg.update fr blocks e) as [[e' blocks'] hit]. exact H.
Qed.

(** The player before the death check of [Player::update], given the player
    and the blocks the egg phase leaves. *)
Lemma move_as_crush fr blocks p :
  exists q,
    Tapioca.Player.move fr blocks p = Tapioca.Player.crush blocks q /\
    Tapioca.Player.dead q = Tapioca.Player.dead p.
Proof.
  unfold Tapioca.Player.move.
  pose proof (contact_dead blocks
    (Tapioca.Player.jump fr (Tapioca.Player.walk fr blocks p))) as Hc.
  destruct (Tapioca.Player.contact blocks _) as [q touching]. simpl in Hc.
  exists (Tapioca.Player.land fr touching q). split; [reflexivity|].
  rewrite land_dead, Hc, jump_dead, walk_dead. reflexivity.
Qed.

(** C9. After [Player::update] a player that was alive is dead exactly when,
    at the end of the update, it is grounded and a block that is moving
    intersects its rectangle: a stationary block, or a moving block while the
    player is not grounded, does not kill.  A dead player stays dead. *)
Theorem C9_player_dies_iff_crushed (fr : Frame.t) (blocks : list Tapioca.Block.t)
    (p : Tapioca.Player.t) :
  let p' := fst (fst (Tapioca.Player.update fr blocks p)) in
  let blocks' := snd (fst (Tapioca.Player.update fr blocks p)) in
  (Tapioca.Player.isDead p = false ->
   (Tapioca.Player.isDead p' = true <->
    Tapioca.Player.grounded p' = true /\
    exists block,
      In block blocks' /\ Tapioca.Block.isMoving block = true /\
      Tapioca.Block.intersects block (Tapioca.Player.rect p') = true)) /\
  (Tapioca.Player.isDead p = true -> Tapioca.Player.isDead p' = true).
Proof.
  unfold Tapioca.Player.update, Tapioca.Player.isDead.
  pose proof (updateEgg_dead fr blocks (Tapioca.Player.launch fr p)) as He.
  rewrite launch_dead in He.
  destruct (Tapioca.Player.updateEgg fr blocks (Tapioca.Player.launch fr p))
    as [[p1 blocks1] hit]. simpl in He. simpl.
  destruct (move_as_crush fr blocks1 p1) as (q & -> & Hq).
  destruct (crush_spec blocks1 q) as (Hr & Hg & _ & Hd).
  rewrite Hr, Hg, Hd, Hq, He. split.
  - intros ->. simpl. rewrite andb_true_iff, existsb_exists. split.
    + intros [Hgr (block & Hin & Hb)]. apply andb_true_iff in Hb.
      split; [exact Hgr|]. exists block. tauto.
    + intros [Hgr (block & Hin & Hm & Hi)]. split; [exact Hgr|].
      exists block. rewrite Hm, Hi. auto.
  - intros ->. reflexivity.
Qed.

(** A concrete instance: on the floor of a 400 x 600 window, under a falling
    block that has reached the player's head. *)
Lemma C9_player_dies_iff_crushed_witness :
  Tapioca.Player.isDead playerOnFloor = false /\
  Tapioca.Player.isDead
    (fst (fst (Tapioca.Player.update frame0 [blockOnHead] playerOnFloor))) = true.
Proof.
  split; [reflexivity|].
  apply (proj1 (C9_player_dies_iff_crushed frame0 [blockOnHead] playerOnFloor));
    [reflexivity|].
  split; [reflexivity|].
  exists blockOnHead. split; [left; reflexivity|]. split; reflexivity.
Defined.

(** ** Scenes *)

(** Entering [Playing] from any scene runs [Playing::Playing]. *)
Lemma changeScene_Playing fr d :
  let a := Tapioca.App.changeScene fr Tapioca.Playing d in
  Tapioca.App.state a = Tapioca.Playing /\
  Tapioca.Data.score (Tapioca.App.data a) = 0%Z /\
  Tapioca.Data.highScore (Tapioca.App.data a) = Tapioca.Data.highScore d /\
  Tapioca.Data.player (Tapioca.App.data a) = Tapioca.Player.make fr /\
  Tapioca.Data.blocks (Tapioca.App.data a) = [].
Proof. simpl. repeat split. Qed.

(** Without the restart key the [GameOver] scene stays as it is. *)
Lemma GameOver_waits fr a :
  Tapioca.App.state a = Tapioca.GameOver ->
  Frame.KeyR_down fr = false ->
  Tapioca.App.update fr a = a.
Proof.
  unfold Tapioca.App.state, Tapioca.App.update.
  destruct (Tapioca.App.current a); try discriminate.
  intros _ ->. reflexivity.
Qed.

(** C8. In the [GameOver] scene, a frame in which R goes down switches to
    [Playing]; the scene is entered with the score at 0, the player as
    [Player()] constructs it and no block.  In the prototype, where
    [Playing] is entered once from [Main], the scene likewise starts with
    score 0, a freshly constructed player and no block. *)
Theorem C8_restart_enters_fresh_Playing (fr : Frame.t) (a : Tapioca.App.t) :
  Tapioca.App.state a = Tapioca.GameOver ->
  Frame.KeyR_down fr = true ->
  let a' := Tapioca.App.update fr a in
  (Tapioca.App.state a' = Tapioca.Playing /\
   Tapioca.Data.score (Tapioca.App.data a') = 0%Z /\
   Tapioca.Data.player (Tapioca.App.data a') = Tapioca.Player.make fr /\
   Tapioca.Data.blocks (Tapioca.App.data a') = []) /\
  (Prototype.Data.score (fst (Prototype.enterPlaying fr)) = 0%Z /\
   Prototype.PlayingScene.player (snd (Prototype.enterPlaying fr)) =
     Prototype.Player.make /\
   Prototype.PlayingScene.blocks (snd (Prototype.enterPlaying fr)) = []).
Proof.
  unfold Tapioca.App.state, Tapioca.App.update.
  destruct (Tapioca.App.current a); try discriminate.
  intros _ ->. split; [|repeat split].
  destruct (changeScene_Playing fr (Tapioca.App.data a)) as (H1 & H2 & _ & H3 & H4).
  repeat split; assumption.
Qed.

(** A concrete instance: game over with a score of 250, two blocks on the
    screen and a dead player. *)
Lemma C8_restart_enters_fresh_Playing_witness :
  Tapioca.App.state C8_gameOver = Tapioca.GameOver /\
  Tapioca.App.state (Tapioca.App.update frameR C8_gameOver) = Tapioca.Playing /\
  Tapioca.Data.score (Tapioca.App.data (Tapioca.App.update frameR C8_gameOver)) = 0%Z /\
  Tapioca.Data.blocks (Tapioca.App.data (Tapioca.App.update frameR C8_gameOver)) = [].
Proof.
  pose proof (C8_restart_enters_fresh_Playing frameR C8_gameOver
                eq_refl eq_refl) as H.
  simpl in H. destruct H as [(H1 & H2 & _ & H4) _].
  split; [reflexivity|]. repeat split; assumption.
Defined.

(** ** Projectiles *)








(** Once the explosion is started the egg is inert: every later
    [Egg::update] leaves its rectangle, its velocity and the blocks alone,
    and calls no hit callback, until the egg is flagged destroyed. *)
Lemma exploding_inert fr blocks e :
  exploding e ->
  let e' := fst (fst (Tapioca.Egg.update fr blocks e)) in
  snd (fst (Tapioca.Egg.update fr blocks e)) = blocks /\
  snd (Tapioca.Egg.update fr blocks e) = None /\
  Tapioca.Egg.rect e' = Tapioca.Egg.rect e /\
  Tapioca.Egg.velocity e' = Tapioca.Egg.velocity e /\
  (Tapioca.Egg.isDestroyed e' = true \/ exploding e').
Proof.
  destruct e as [r v d [l n tm i s]]. unfold exploding. simpl.
  intros (-> & -> & -> & Hi & Hd).
  unfold Tapioca.Egg.update, Tapioca.Animation.update,
    Tapioca.Animation.isFinished, Tapioca.Animation.last_idx. simpl.
  change ((2 - 1) mod 2 ^ 64)%Z with 1%Z.
  destruct (Timer.reachedZero (Frame.now fr) tm) eqn:Ez; simpl.
  - destruct Hi as [-> | ->]; simpl.
    + assert (Hr : Timer.reachedZero (Frame.now fr)
                     (Timer.restart (Frame.now fr) tm) = false).
      { unfold Timer.reachedZero, Timer.ms, Timer.restart. simpl.
        apply Z.eqb_neq. lia. }
      rewrite Hr. simpl. repeat split. right. simpl. repeat split; auto.
    + rewrite Ez. simpl. repeat split. left. reflexivity.
  - rewrite Ez, andb_false_r. simpl. repeat split. right. repeat split; auto.
Qed.

(** The egg an egg in flight turns into when it hits a block is exploding,
    provided its explosion is still as the constructor made it. *)
Lemma hit_starts_explosion fr e :
  Tapioca.Egg.explosionAnim e = Tapioca.Animation.make 0 2 100 false false ->
  exploding
    (Tapioca.Egg.set_explosionAnim e
       (Tapioca.Animation.start (Frame.now fr) (Tapioca.Egg.explosionAnim e))).
Proof.
  intros ->. unfold exploding. simpl. repeat split; auto.
Qed.

(** An inactive bullet is inert. *)
Lemma inactive_inert fr blocks b :
  PyoroLike.Bullet.active b = false ->
  PyoroLike.Bullet.update fr blocks b = (b, blocks).
Proof. intros H. unfold PyoroLike.Bullet.update. rewrite H. reflexivity. Qed.


(** ** The player: walking *)

Ltac break_ifs :=
  repeat match goal with
         | |- context [if ?c then _ else _] => destruct c
         end.

Lemma existsb_through {B C : Type} (f : B -> C) (g : C -> bool) (l : list B) :
  existsb (fun b => g (f b)) l = existsb g (map f l).
Proof.
  induction l as [|b rest IH]; simpl; [reflexivity|]. rewrite IH. reflexivity.
Qed.

Lemma existsb_rects {B : Type} (rect : B -> RectF.t) (r : RectF.t) (blocks : list B) :
  existsb (fun b => RectF.intersects r (rect b)) blocks =
  existsb (RectF.intersects r) (map rect blocks).
Proof. apply (existsb_through rect (RectF.intersects r)). Qed.

Lemma existsb_false {B : Type} (f : B -> bool) (l : list B) :
  existsb f l = false <-> forall b, In b l -> f b = false.
Proof.
  rewrite <- not_true_iff_false, existsb_exists. split.
  - intros H b Hin. destruct (f b) eqn:E; [|reflexivity].
    exfalso. apply H. exists b. auto.
  - intros H (b & Hin & Hb). rewrite (H b Hin) in Hb. discriminate.
Qed.

(** What [walk] does to the rectangle of the Tapioca player. *)
Lemma Tapioca_walk_rect fr blocks p :
  (forall vx, Tapioca_proposes fr p vx ->
     Tapioca.Player.rect (Tapioca.Player.walk fr blocks p) =
     RectF.set_x (Tapioca.Player.rect p)
       (RectF.x (Tapioca.Player.rect p) +
        if existsb (fun b => Tapioca.Block.intersects b
                               (shifted (Tapioca.Player.rect p) vx)) blocks
        then 0 else vx)) /\
  ((forall vx, ~ Tapioca_proposes fr p vx) ->
     Tapioca.Player.rect (Tapioca.Player.walk fr blocks p) = Tapioca.Player.rect p).
Proof.
  unfold Tapioca.Player.walk, Tapioca_proposes, shifted.
  destruct (Frame.KeyLeft_pressed fr), (Frame.KeyRight_pressed fr); simpl.
  - split; [|reflexivity]. intros vx [(_ & H & _)|(H & _)]; discriminate.
  - destruct (Qgtb _ _) eqn:E; simpl.
    + split.
      * intros vx [(_ & _ & _ & ->)|(H & _)]; [|discriminate]. reflexivity.
      * intros H. exfalso. apply (H (- Tapioca.Player.speed)). left.
        apply Qgtb_gt in E. auto.
    + split; [|reflexivity]. apply Qgtb_le in E.
      intros vx [(_ & _ & H & _)|(H & _)]; [|discriminate].
      exfalso. apply (Qlt_not_le _ _ H E).
  - destruct (Qltb _ _) eqn:E; simpl.
    + split.
      * intros vx [(H & _)|(_ & _ & _ & ->)]; [discriminate|]. reflexivity.
      * intros H. exfalso. apply (H Tapioca.Player.speed). right.
        apply Qltb_lt in E. auto.
    + split; [|reflexivity]. apply Qltb_ge in E.
      intros vx [(H & _)|(_ & _ & H & _)]; [discriminate|].
      exfalso. apply (Qlt_not_le _ _ H E).
  - split; [|reflexivity]. intros vx [(H & _)|(_ & H & _)]; discriminate.
Qed.

(** The phases of [Player::update] other than [walk] leave the horizontal
    position alone, and those before [walk] the whole rectangle. *)
Lemma Tapioca_launch_rect fr p :
  Tapioca.Player.rect (Tapioca.Player.launch fr p) = Tapioca.Player.rect p.
Proof. unfold Tapioca.Player.launch. break_ifs; reflexivity. Qed.

Lemma Tapioca_updateEgg_rect fr blocks p :
  Tapioca.Player.rect (fst (fst (Tapioca.Player.updateEgg fr blocks p))) =
  Tapioca.Player.rect p.
Proof.
  unfold Tapioca.Player.updateEgg. destruct (Tapioca.Player.egg p) as [e|]; [|reflexivity].
  destruct (Tapioca.Egg.update fr blocks e) as [[e' blocks'] hit]. reflexivity.
Qed.

Lemma Tapioca_after_walk_x fr blocks p :
  RectF.x (Tapioca.Player.rect
             (let (q, touching) :=
                Tapioca.Player.contact blocks (Tapioca.Player.jump fr p) in
              Tapioca.Player.crush blocks (Tapioca.Player.land fr touching q))) =
  RectF.x (Tapioca.Player.rect p).
Proof.
  unfold Tapioca.Player.crush, Tapioca.Player.land, Tapioca.Player.contact,
    Tapioca.Player.jump.
  destruct (find _ blocks) as [block|]; break_ifs; reflexivity.
Qed.

Lemma Tapioca_update_x fr blocks p :
  let blocks1 := snd (fst (Tapioca.Player.update fr blocks p)) in
  RectF.x (Tapioca.Player.rect (fst (fst (Tapioca.Player.update fr blocks p)))) =
  RectF.x (Tapioca.Player.rect
             (Tapioca.Player.walk fr blocks1
                (fst (fst (Tapioca.Player.updateEgg fr blocks
                             (Tapioca.Player.launch fr p)))))).
Proof.
  unfold Tapioca.Player.update.
  destruct (Tapioca.Player.updateEgg fr blocks (Tapioca.Player.launch fr p))
    as [[p1 blocks1] hit]. simpl.
  unfold Tapioca.Player.move. apply Tapioca_after_walk_x.
Qed.

(** What [walk] does to the rectangle of the PyoroLike player: a block that
    already intersects the player does not stop the step. *)
Lemma PyoroLike_walk_rect fr blocks p :
  (forall vx, PyoroLike_proposes fr p vx ->
     PyoroLike.Player.rect (PyoroLike.Player.walk fr blocks p) =
     RectF.set_x (PyoroLike.Player.rect p)
       (RectF.x (PyoroLike.Player.rect p) +
        if existsb (fun b =>
                      negb (PyoroLike.Block.intersects b (PyoroLike.Player.rect p))
                      && PyoroLike.Block.intersects b
                           (shifted (PyoroLike.Player.rect p) vx)) blocks
        then 0 else vx)) /\
  ((forall vx, ~ PyoroLike_proposes fr p vx) ->
     PyoroLike.Player.rect (PyoroLike.Player.walk fr blocks p) =
     PyoroLike.Player.rect p).
Proof.
  unfold PyoroLike.Player.walk, PyoroLike_proposes, shifted.
  set (goLeft := Frame.KeyLeft_pressed fr && Qgtb (RectF.x (PyoroLike.Player.rect p)) 0).
  set (goRight := Frame.KeyRight_pressed fr &&
                Qltb (RectF.x (PyoroLike.Player.rect p)
                      + RectF.w (PyoroLike.Player.rect p))
                     (inject_Z (Frame.Window_Width fr))).
  assert (Hl : goLeft = true <->
               Frame.KeyLeft_pressed fr = true /\ 0 < RectF.x (PyoroLike.Player.rect p)).
  { unfold goLeft. rewrite andb_true_iff, Qgtb_gt. tauto. }
  assert (Hr : goRight = true <->
               Frame.KeyRight_pressed fr = true /\
               RectF.x (PyoroLike.Player.rect p) + RectF.w (PyoroLike.Player.rect p)
               < inject_Z (Frame.Window_Width fr)).
  { unfold goRight. rewrite andb_true_iff, Qltb_lt. tauto. }
  cbv zeta. clearbody goLeft goRight.
  assert (Hstay : forall c : bool,
            RectF.set_x (PyoroLike.Player.rect p)
              (RectF.x (PyoroLike.Player.rect p) + (if c then 0 else 0)) =
            PyoroLike.Player.rect p).
  { intros c. destruct c; rewrite Qplus_0_same;
      destruct (PyoroLike.Player.rect p); reflexivity. }
  destruct goLeft, goRight; simpl.
  - pose proof (proj1 Hl eq_refl) as Al. pose proof (proj1 Hr eq_refl) as Ar.
    split; [|intros _; apply Hstay].
    intros vx [(_ & H & _)|(_ & H & _)]; exfalso; tauto.
  - pose proof (proj1 Hl eq_refl) as Al.
    assert (NAr := fun H => Bool.diff_false_true (proj2 Hr H)).
    split.
    + intros vx [(_ & _ & ->)|(H & _)]; [reflexivity|exfalso; tauto].
    + intros H. exfalso. apply (H (- PyoroLike.Player.SPEED)). tauto.
  - pose proof (proj1 Hr eq_refl) as Ar.
    assert (NAl := fun H => Bool.diff_false_true (proj2 Hl H)).
    split.
    + intros vx [(H & _)|(_ & _ & ->)]; [exfalso; tauto|reflexivity].
    + intros H. exfalso. apply (H PyoroLike.Player.SPEED). tauto.
  - assert (NAl := fun H => Bool.diff_false_true (proj2 Hl H)).
    assert (NAr := fun H => Bool.diff_false_true (proj2 Hr H)).
    split; [|intros _; apply Hstay].
    intros vx [(H & _)|(H & _)]; exfalso; tauto.
Qed.

Lemma Tapioca_update_x_walk fr blocks p vx :
  Tapioca_proposes fr p vx ->
  RectF.x (Tapioca.Player.rect (fst (fst (Tapioca.Player.update fr blocks p)))) =
  RectF.x (Tapioca.Player.rect p) +
  (if existsb (fun b => Tapioca.Block.intersects b
                          (shifted (Tapioca.Player.rect p) vx)) blocks
   then 0 else vx).
Proof.
  intros Hp. rewrite Tapioca_update_x.
  pose proof (Player_update_map Tapioca.Block.rect fr blocks p
                (fun b v => eq_refl)) as Hmap.
  pose proof (Tapioca_updateEgg_rect fr blocks (Tapioca.Player.launch fr p)) as Hr.
  rewrite Tapioca_launch_rect in Hr.
  set (blocks1 := snd (fst (Tapioca.Player.update fr blocks p))) in *.
  set (p1 := fst (fst (Tapioca.Player.updateEgg fr blocks
                         (Tapioca.Player.launch fr p)))) in *.
  assert (Hp1 : Tapioca_proposes fr p1 vx).
  { unfold Tapioca_proposes in *. rewrite Hr. exact Hp. }
  rewrite (proj1 (Tapioca_walk_rect fr blocks1 p1) vx Hp1). simpl.
  rewrite Hr. unfold Tapioca.Block.intersects.
  rewrite !(existsb_rects Tapioca.Block.rect), Hmap. reflexivity.
Qed.

Lemma Tapioca_update_x_stay fr blocks p :
  (forall vx, ~ Tapioca_proposes fr p vx) ->
  RectF.x (Tapioca.Player.rect (fst (fst (Tapioca.Player.update fr blocks p)))) =
  RectF.x (Tapioca.Player.rect p).
Proof.
  intros Hp. rewrite Tapioca_update_x.
  pose proof (Tapioca_updateEgg_rect fr blocks (Tapioca.Player.launch fr p)) as Hr.
  rewrite Tapioca_launch_rect in Hr.
  set (blocks1 := snd (fst (Tapioca.Player.update fr blocks p))) in *.
  set (p1 := fst (fst (Tapioca.Player.updateEgg fr blocks
                         (Tapioca.Player.launch fr p)))) in *.
  assert (Hp1 : forall vx, ~ Tapioca_proposes fr p1 vx).
  { intros vx. unfold Tapioca_proposes in *. rewrite Hr. apply Hp. }
  rewrite (proj2 (Tapioca_walk_rect fr blocks1 p1) Hp1), Hr. reflexivity.
Qed.

(** [Bullet::update] only ever writes the [destroyed] flag of a block. *)
Lemma Bullet_update_map {A} (f : PyoroLike.Block.t -> A) fr blocks b :
  (forall blk v, f (PyoroLike.Block.set_destroyed blk v) = f blk) ->
  map f (snd (PyoroLike.Bullet.update fr blocks b)) = map f blocks.
Proof.
  intros Hf.
  assert (H : forall r l,
            map f (fst (PyoroLike.Bullet.hitFirst r l)) = map f l).
  { intros r l. induction l as [|block rest IH]; simpl; [reflexivity|].
    destruct (PyoroLike.Block.intersects block r); simpl.
    - rewrite Hf. reflexivity.
    - destruct (PyoroLike.Bullet.hitFirst r rest) as [rest' hit]. simpl in *.
      rewrite IH. reflexivity. }
  unfold PyoroLike.Bullet.update. break_ifs; try reflexivity.
  specialize (H (PyoroLike.Bullet.rect b) blocks).
  destruct (PyoroLike.Bullet.hitFirst _ blocks) as [blocks' [|]]; simpl in *;
    [exact H | reflexivity].
Qed.

Lemma PyoroLike_after_walk_x fr blocks p p' :
  PyoroLike.Player.assertNoOverlap blocks
    (let (q, touching) :=
       PyoroLike.Player.contact blocks (PyoroLike.Player.jump fr p) in
     PyoroLike.Player.land fr touching q) = Some p' ->
  RectF.x (PyoroLike.Player.rect p') = RectF.x (PyoroLike.Player.rect p).
Proof.
  unfold PyoroLike.Player.assertNoOverlap, PyoroLike.Player.land,
    PyoroLike.Player.contact, PyoroLike.Player.jump.
  destruct (find _ blocks) as [block|]; break_ifs; simpl;
    intros H; inversion H; subst; reflexivity.
Qed.

Lemma PyoroLike_update_x fr blocks p p' :
  fst (PyoroLike.Player.update fr blocks p) = Some p' ->
  exists blocks1 p1,
    map PyoroLike.Block.rect blocks1 = map PyoroLike.Block.rect blocks /\
    PyoroLike.Player.rect p1 = PyoroLike.Player.rect p /\
    RectF.x (PyoroLike.Player.rect p') =
    RectF.x (PyoroLike.Player.rect (PyoroLike.Player.walk fr blocks1 p1)).
Proof.
  unfold PyoroLike.Player.update.
  assert (Hb : exists blocks1 p1,
            PyoroLike.Player.updateBullet fr blocks (PyoroLike.Player.fire fr p)
            = (p1, blocks1) /\
            map PyoroLike.Block.rect blocks1 = map PyoroLike.Block.rect blocks /\
            PyoroLike.Player.rect p1 = PyoroLike.Player.rect p).
  { assert (Hf : PyoroLike.Player.rect (PyoroLike.Player.fire fr p) =
                 PyoroLike.Player.rect p).
    { unfold PyoroLike.Player.fire. break_ifs; reflexivity. }
    revert Hf. generalize (PyoroLike.Player.fire fr p). intros q Hq.
    unfold PyoroLike.Player.updateBullet.
    destruct (PyoroLike.Player.bullet q) as [b|].
    - pose proof (Bullet_update_map PyoroLike.Block.rect fr blocks b
                    (fun blk v => eq_refl)) as Hm.
      destruct (PyoroLike.Bullet.update fr blocks b) as [b' blocks1].
      exists blocks1, (PyoroLike.Player.set_bullet q (Some b')). auto.
    - exists blocks, q. auto. }
  destruct Hb as (blocks1 & p1 & -> & Hm & Hr). simpl. intros H.
  exists blocks1, p1. split; [exact Hm|]. split; [exact Hr|].
  apply (PyoroLike_after_walk_x fr blocks1).
  destruct (PyoroLike.Player.contact blocks1 _) as [q touching]. exact H.
Qed.

Lemma PyoroLike_update_x_walk fr blocks p p' vx :
  fst (PyoroLike.Player.update fr blocks p) = Some p' ->
  PyoroLike_proposes fr p vx ->
  RectF.x (PyoroLike.Player.rect p') =
  RectF.x (PyoroLike.Player.rect p) +
  (if existsb (fun b =>
                 negb (PyoroLike.Block.intersects b (PyoroLike.Player.rect p))
                 && PyoroLike.Block.intersects b
                      (shifted (PyoroLike.Player.rect p) vx)) blocks
   then 0 else vx).
Proof.
  intros Hu Hp.
  destruct (PyoroLike_update_x fr blocks p p' Hu) as (blocks1 & p1 & Hm & Hr & ->).
  assert (Hp1 : PyoroLike_proposes fr p1 vx).
  { unfold PyoroLike_proposes in *. rewrite Hr. exact Hp. }
  rewrite (proj1 (PyoroLike_walk_rect fr blocks1 p1) vx Hp1). simpl.
  rewrite Hr. unfold PyoroLike.Block.intersects.
  rewrite (existsb_through PyoroLike.Block.rect
             (fun r => negb (RectF.intersects (PyoroLike.Player.rect p) r)
                       && RectF.intersects (shifted (PyoroLike.Player.rect p) vx) r)
             blocks1).
  rewrite (existsb_through PyoroLike.Block.rect
             (fun r => negb (RectF.intersects (PyoroLike.Player.rect p) r)
                       && RectF.intersects (shifted (PyoroLike.Player.rect p) vx) r)
             blocks).
  rewrite Hm. reflexivity.
Qed.

Lemma PyoroLike_update_x_stay fr blocks p p' :
  fst (PyoroLike.Player.update fr blocks p) = Some p' ->
  (forall vx, ~ PyoroLike_proposes fr p vx) ->
  RectF.x (PyoroLike.Player.rect p') = RectF.x (PyoroLike.Player.rect p).
Proof.
  intros Hu Hp.
  destruct (PyoroLike_update_x fr blocks p p' Hu) as (blocks1 & p1 & Hm & Hr & ->).
  assert (Hp1 : forall vx, ~ PyoroLike_proposes fr p1 vx).
  { intros vx. unfold PyoroLike_proposes in *. rewrite Hr. apply Hp. }
  rewrite (proj2 (PyoroLike_walk_rect fr blocks1 p1) Hp1), Hr. reflexivity.
Qed.

(** C6, as it holds.  The horizontal displacement of the player in one
    [Player::update] is all or nothing.  In Tapioca the step the keys ask for
    is cancelled when some block intersects the rectangle the step leads to,
    and taken in full otherwise.  In PyoroLike the blocks that already
    intersect the player's rectangle are left out of the test: the step is
    cancelled when some block intersects the rectangle it leads to without
    intersecting the present one, and taken in full otherwise.  Without a
    step asked for, the player keeps its horizontal position. *)
Theorem C6_walk_all_or_nothing :
  (forall (fr : Frame.t) (blocks : list Tapioca.Block.t) (p : Tapioca.Player.t)
          (vx : Q),
     Tapioca_proposes fr p vx ->
     let p' := fst (fst (Tapioca.Player.update fr blocks p)) in
     ((exists b, In b blocks /\
                 Tapioca.Block.intersects b (shifted (Tapioca.Player.rect p) vx) = true) ->
      RectF.x (Tapioca.Player.rect p') = RectF.x (Tapioca.Player.rect p)) /\
     ((forall b, In b blocks ->
                 Tapioca.Block.intersects b (shifted (Tapioca.Player.rect p) vx) = false) ->
      RectF.x (Tapioca.Player.rect p') = RectF.x (Tapioca.Player.rect p) + vx)) /\
  (forall (fr : Frame.t) (blocks : list Tapioca.Block.t) (p : Tapioca.Player.t),
     (forall vx, ~ Tapioca_proposes fr p vx) ->
     RectF.x (Tapioca.Player.rect (fst (fst (Tapioca.Player.update fr blocks p)))) =
     RectF.x (Tapioca.Player.rect p)) /\
  (forall (fr : Frame.t) (blocks : list PyoroLike.Block.t)
          (p p' : PyoroLike.Player.t) (vx : Q),
     fst (PyoroLike.Player.update fr blocks p) = Some p' ->
     PyoroLike_proposes fr p vx ->
     ((exists b, In b blocks /\
                 PyoroLike.Block.intersects b (PyoroLike.Player.rect p) = false /\
                 PyoroLike.Block.intersects b
                   (shifted (PyoroLike.Player.rect p) vx) = true) ->
      RectF.x (PyoroLike.Player.rect p') = RectF.x (PyoroLike.Player.rect p)) /\
     ((forall b, In b blocks ->
                 PyoroLike.Block.intersects b (PyoroLike.Player.rect p) = true \/
                 PyoroLike.Block.intersects b
                   (shifted (PyoroLike.Player.rect p) vx) = false) ->
      RectF.x (PyoroLike.Player.rect p') = RectF.x (PyoroLike.Player.rect p) + vx)) /\
  (forall (fr : Frame.t) (blocks : list PyoroLike.Block.t)
          (p p' : PyoroLike.Player.t),
     fst (PyoroLike.Player.update fr blocks p) = Some p' ->
     (forall vx, ~ PyoroLike_proposes fr p vx) ->
     RectF.x (PyoroLike.Player.rect p') = RectF.x (PyoroLike.Player.rect p)).
Proof.
  split; [|split; [|split]].
  - intros fr blocks p vx Hp p'. subst p'.
    rewrite (Tapioca_update_x_walk fr blocks p vx Hp). split.
    + intros Hex. apply existsb_exists in Hex. rewrite Hex. apply Qplus_0_same.
    + intros Hall. apply existsb_false in Hall. rewrite Hall. reflexivity.
  - intros fr blocks p Hp. apply Tapioca_update_x_stay. exact Hp.
  - intros fr blocks p p' vx Hu Hp.
    rewrite (PyoroLike_update_x_walk fr blocks p p' vx Hu Hp). split.
    + intros (b & Hin & H1 & H2).
      assert (Hex : existsb (fun b =>
                 negb (PyoroLike.Block.intersects b (PyoroLike.Player.rect p))
                 && PyoroLike.Block.intersects b
                      (shifted (PyoroLike.Player.rect p) vx)) blocks = true).
      { apply existsb_exists. exists b. rewrite H1, H2. auto. }
      rewrite Hex. apply Qplus_0_same.
    + intros Hall.
      assert (Hno : existsb (fun b =>
                 negb (PyoroLike.Block.intersects b (PyoroLike.Player.rect p))
                 && PyoroLike.Block.intersects b
                      (shifted (PyoroLike.Player.rect p) vx)) blocks = false).
      { apply existsb_false. intros b Hin.
        destruct (Hall b Hin) as [-> | ->]; [reflexivity|apply andb_false_r]. }
      rewrite Hno. reflexivity.
  - intros fr blocks p p' Hu Hp. apply (PyoroLike_update_x_stay fr blocks p p' Hu Hp).
Qed.

(** A concrete instance in Tapioca: one step to the right would lead into the
    resting block, so the player stays where it is. *)
Lemma C6_walk_all_or_nothing_witness :
  Tapioca_proposes frameRight C6_walker Tapioca.Player.speed /\
  RectF.x (Tapioca.Player.rect
             (fst (fst (Tapioca.Player.update frameRight [C6_wall] C6_walker)))) =
  RectF.x (Tapioca.Player.rect C6_walker).
Proof.
  assert (Hp : Tapioca_proposes frameRight C6_walker Tapioca.Player.speed).
  { right. repeat split. }
  split; [exact Hp|].
  apply (proj1 (proj1 C6_walk_all_or_nothing frameRight [C6_wall] C6_walker
                  Tapioca.Player.speed Hp)).
  exists C6_wall. split; [left; reflexivity | reflexivity].
Defined.

(** C6 as the specification words it fails in PyoroLike: the falling block
    intersects the rectangle the step to the right leads to, and the step is
    taken all the same, because the block already intersects the player. *)
Lemma C6_counterexample :
  PyoroLike_proposes frameRight C6_player PyoroLike.Player.SPEED /\
  (exists b, In b [C6_block] /\
             PyoroLike.Block.intersects b
               (shifted (PyoroLike.Player.rect C6_player) PyoroLike.Player.SPEED) = true) /\
  exists p',
    fst (PyoroLike.Player.update frameRight [C6_block] C6_player) = Some p' /\
    RectF.x (PyoroLike.Player.rect p') =
      RectF.x (PyoroLike.Player.rect C6_player) + PyoroLike.Player.SPEED /\
    ~ RectF.x (PyoroLike.Player.rect p') == RectF.x (PyoroLike.Player.rect C6_player).
Proof.
  split; [|split].
  - right. split; [split; reflexivity|]. split; [|reflexivity].
    intros [H _]. discriminate H.
  - exists C6_block. split; [left; reflexivity | reflexivity].
  - eexists. split; [vm_compute; reflexivity|]. split; [reflexivity|].
    intros H. vm_compute in H. discriminate H.
Qed.

(** ** The block loop *)

(** The collision test only looks at the rectangles of the other blocks. *)
Lemma hitsOther_rects this next (l1 l2 : list Tapioca.Block.t) j :
  map Tapioca.Block.rect l1 = map Tapioca.Block.rect l2 ->
  Tapioca.Block.hitsOther this next j l1 = Tapioca.Block.hitsOther this next j l2.
Proof.
  revert l2 j. induction l1 as [|a l1 IH]; intros [|b l2] j H; try discriminate;
    [reflexivity|].
  simpl in *. injection H as Hab Hl. rewrite Hab, (IH l2 (S j) Hl). reflexivity.
Qed.

Lemma Block_update_rects fr (l1 l2 : list Tapioca.Block.t) this b :
  map Tapioca.Block.rect l1 = map Tapioca.Block.rect l2 ->
  Tapioca.Block.update fr l1 this b = Tapioca.Block.update fr l2 this b.
Proof.
  intros H. unfold Tapioca.Block.update, Tapioca.Block.willCollide.
  rewrite (hitsOther_rects this _ l1 l2 0 H). reflexivity.
Qed.

(** Two facts on lists used for the vector of blocks. *)
Lemma Forall_along {B C : Type} (f : B -> C) (P : C -> Prop) (l1 l2 : list B) :
  map f l1 = map f l2 ->
  Forall (fun b => P (f b)) l2 -> Forall (fun b => P (f b)) l1.
Proof.
  intros Hm H. apply Forall_forall. intros b Hin.
  apply (in_map f) in Hin. rewrite Hm in Hin.
  apply in_map_iff in Hin. destruct Hin as (b2 & <- & Hin2).
  rewrite Forall_forall in H. apply H. exact Hin2.
Qed.

Lemma Forall_kept {B : Type} (P : B -> Prop) (keep : B -> bool) (l : list B) :
  Forall P l -> Forall P (filter keep l).
Proof.
  intros H. apply Forall_forall. intros b Hin. apply filter_In in Hin.
  rewrite Forall_forall in H. apply H, Hin.
Qed.

(** What every [Block::update] keeps, the loop keeps. *)
Lemma updateBlocks_Forall fr (P : Tapioca.Block.t -> Prop) :
  (forall blocks this b, P b -> P (Tapioca.Block.update fr blocks this b)) ->
  forall pending updated,
    Forall P updated -> Forall P pending ->
    Forall P (fst (Tapioca.PlayingScene.updateBlocks fr updated pending)).
Proof.
  intros HP. induction pending as [|block rest IH]; intros updated Hu Hp; simpl;
    [exact Hu|].
  inversion Hp as [|? ? Hb Hrest]; subst.
  pose proof (HP (updated ++ block :: rest) (length updated) block Hb) as Hb'.
  destruct (Tapioca.Block.isTouchingTop _); simpl.
  - apply Forall_app. split; [exact Hu|]. constructor; assumption.
  - apply IH; [|exact Hrest]. apply Forall_app. split; [exact Hu|].
    constructor; [exact Hb'|constructor].
Qed.

(** The shape of the vector the loop returns: [n] blocks were visited, the
    others are as they were, and the block at position [i] was updated
    against the vector made of the visited blocks before it, as the loop left
    them, and of the blocks from [i] on, as they were. *)
Lemma updateBlocks_shape fr pending :
  forall updated result flag,
    Tapioca.PlayingScene.updateBlocks fr updated pending = (result, flag) ->
    exists n,
      (n <= length pending)%nat /\
      (flag = false -> n = length pending) /\
      length result = (length updated + length pending)%nat /\
      firstn (length updated) result = updated /\
      skipn (length updated + n) result = skipn n pending /\
      forall k b,
        (k < n)%nat -> nth_error pending k = Some b ->
        nth_error result (length updated + k) =
        Some (Tapioca.Block.update fr
                (firstn (length updated + k) result ++ skipn k pending)
                (length updated + k) b).
Proof.
  induction pending as [|block rest IH]; intros updated result flag H; simpl in H.
  - injection H as <- <-. exists 0%nat. simpl.
    rewrite Nat.add_0_r, firstn_all, skipn_all. repeat split; auto. lia.
  - set (block' := Tapioca.Block.update fr (updated ++ block :: rest)
                     (length updated) block) in *.
    destruct (Tapioca.Block.isTouchingTop block') eqn:Et.
    + injection H as <- <-. exists 1%nat. simpl. repeat split.
      * lia.
      * discriminate.
      * rewrite length_app. simpl. lia.
      * rewrite firstn_app, firstn_all, Nat.sub_diag. simpl. apply app_nil_r.
      * rewrite skipn_app, skipn_all2 by lia.
        replace (length updated + 1 - length updated)%nat with 1%nat by lia.
        reflexivity.
      * intros k b Hk Hb. assert (k = 0)%nat as -> by lia.
        simpl in Hb. injection Hb as <-. rewrite Nat.add_0_r.
        rewrite nth_error_app2, Nat.sub_diag by lia. simpl.
        rewrite firstn_app, firstn_all, Nat.sub_diag. simpl.
        rewrite app_nil_r. reflexivity.
    + destruct (IH _ _ _ H) as (n & Hn & Hflag & Hlen & Hfirst & Hskip & Hnth).
      rewrite length_app in *. simpl in *.
      assert (Hfirst' : firstn (length updated) result = updated).
      { replace (firstn (length updated) result)
          with (firstn (length updated) (firstn (length updated + 1) result))
          by (rewrite firstn_firstn; f_equal; lia).
        rewrite Hfirst, firstn_app, firstn_all, Nat.sub_diag. simpl.
        apply app_nil_r. }
      assert (Hblock : nth_error result (length updated) = Some block').
      { rewrite <- (firstn_skipn (length updated + 1) result), Hfirst.
        rewrite nth_error_app1 by (rewrite length_app; simpl; lia).
        rewrite nth_error_app2, Nat.sub_diag by lia. reflexivity. }
      exists (S n). repeat split.
      * lia.
      * intros Hf. rewrite (Hflag Hf). reflexivity.
      * lia.
      * exact Hfirst'.
      * replace (length updated + S n)%nat with (length updated + 1 + n)%nat by lia.
        exact Hskip.
      * intros k b Hk Hb. destruct k as [|k].
        -- simpl in Hb. injection Hb as <-. rewrite Nat.add_0_r, Hfirst'.
           exact Hblock.
        -- simpl in Hb.
           replace (length updated + S k)%nat with (length updated + 1 + k)%nat by lia.
           apply Hnth; [lia|exact Hb].
Qed.

(** As long as the blocks visited so far have kept their rectangles, the loop
    and the loop against the snapshot make the same tests. *)
Lemma updateBlocks_agrees fr pending :
  forall updated orig result flag,
    map Tapioca.Block.rect updated = map Tapioca.Block.rect orig ->
    Tapioca.PlayingScene.updateBlocks fr updated pending = (result, flag) ->
    (forall k b b',
       (S k < length pending)%nat ->
       nth_error pending k = Some b ->
       nth_error result (length updated + k) = Some b' ->
       Tapioca.Block.rect b' = Tapioca.Block.rect b) ->
    updateBlocksFromSnapshot fr (orig ++ pending) updated pending = (result, flag).
Proof.
  induction pending as [|block rest IH]; intros updated orig result flag Hm H Hkeep;
    simpl in *; [exact H|].
  assert (Hsame :
    Tapioca.Block.update fr (orig ++ block :: rest) (length updated) block =
    Tapioca.Block.update fr (updated ++ block :: rest) (length updated) block).
  { apply Block_update_rects. rewrite !map_app, Hm. reflexivity. }
  rewrite Hsame.
  set (block' := Tapioca.Block.update fr (updated ++ block :: rest)
                   (length updated) block) in *.
  destruct (Tapioca.Block.isTouchingTop block'); [exact H|].
  destruct rest as [|next rest'].
  - simpl in *. exact H.
  - destruct (updateBlocks_shape fr _ _ _ _ H) as (_ & _ & _ & _ & Hfirst & _).
    rewrite length_app in Hfirst. simpl in Hfirst.
    assert (Hblock : nth_error result (length updated) = Some block').
    { rewrite <- (firstn_skipn (length updated + 1) result), Hfirst.
      rewrite nth_error_app1 by (rewrite length_app; simpl; lia).
      rewrite nth_error_app2, Nat.sub_diag by lia. reflexivity. }
    assert (Hrect : Tapioca.Block.rect block' = Tapioca.Block.rect block).
    { apply (Hkeep 0%nat); [simpl; lia | reflexivity |].
      rewrite Nat.add_0_r. exact Hblock. }
    replace (orig ++ block :: next :: rest')
      with ((orig ++ [block]) ++ next :: rest')
      by (rewrite <- app_assoc; reflexivity).
    apply IH.
    + rewrite !map_app, Hm. simpl. rewrite Hrect. reflexivity.
    + exact H.
    + intros k b b' Hk Hb Hb'. apply (Hkeep (S k)); [simpl in *; lia | exact Hb |].
      rewrite length_app in Hb'. simpl in Hb'.
      replace (length updated + S k)%nat with (length updated + 1 + k)%nat by lia.
      exact Hb'.
Qed.

(** C1, as it holds.  [Playing::update] rewrites the blocks one after the
    other in the vector itself, so the collision test of a block sees the
    blocks stored before it as this tick has already left them and the blocks
    stored after it as the last tick left them.  The result is that of an
    update against a snapshot taken at the start of the tick whenever no block
    other than the last one of the vector has changed its rectangle. *)
Theorem C1_blocks_updated_in_place (fr : Frame.t)
    (blocks blocks' : list Tapioca.Block.t) (flag : bool) :
  Tapioca.PlayingScene.updateBlocks fr [] blocks = (blocks', flag) ->
  (exists n,
     (n <= length blocks)%nat /\
     (flag = false -> n = length blocks) /\
     length blocks' = length blocks /\
     skipn n blocks' = skipn n blocks /\
     forall i b,
       (i < n)%nat -> nth_error blocks i = Some b ->
       nth_error blocks' i =
       Some (Tapioca.Block.update fr (firstn i blocks' ++ skipn i blocks) i b)) /\
  ((forall i b b',
      (S i < length blocks)%nat ->
      nth_error blocks i = Some b -> nth_error blocks' i = Some b' ->
      Tapioca.Block.rect b' = Tapioca.Block.rect b) ->
   updateBlocksFromSnapshot fr blocks [] blocks = (blocks', flag)).
Proof.
  intros H. split.
  - destruct (updateBlocks_shape fr _ _ _ _ H) as (n & Hn & Hf & Hl & _ & Hs & Hnth).
    exists n. simpl in *. repeat split; auto.
  - intros Hkeep. apply (updateBlocks_agrees fr blocks [] [] blocks' flag);
      [reflexivity | exact H | exact Hkeep].
Qed.

(** A concrete instance: a block on the floor and a block falling above
    it. *)
Lemma C1_blocks_updated_in_place_witness :
  updateBlocksFromSnapshot frame0 [stopped 100 173; fallen 100 60] []
    [stopped 100 173; fallen 100 60] =
  ([stopped 100 173; fallen 100 61], false).
Proof.
  assert (H : Tapioca.PlayingScene.updateBlocks frame0 []
                [stopped 100 173; fallen 100 60] =
              ([stopped 100 173; fallen 100 61], false)).
  { vm_compute. reflexivity. }
  apply (proj2 (C1_blocks_updated_in_place frame0 _ _ _ H)).
  intros i b b' Hi Hb Hb'. simpl in Hi.
  assert (i = 0)%nat as -> by lia.
  simpl in Hb, Hb'. injection Hb as <-. injection Hb' as <-. reflexivity.
Defined.

(** C1 as the specification words it fails: the lower block, visited first,
    falls by 3 and thereby gets out of the way of the upper one, which falls
    as well; against the snapshot the upper block would still run into the
    lower one and stay. *)
Lemma C1_counterexample :
  Tapioca.PlayingScene.updateBlocks frame0 [] unsupportedStack =
    ([fallen 100 157; fallen 100 140], false) /\
  updateBlocksFromSnapshot frame0 unsupportedStack [] unsupportedStack =
    ([fallen 100 157; stopped 100 139], false) /\
  Tapioca.PlayingScene.updateBlocks frame0 [] unsupportedStack <>
  updateBlocksFromSnapshot frame0 unsupportedStack [] unsupportedStack.
Proof.
  split; [vm_compute; reflexivity|]. split; [vm_compute; reflexivity|].
  intros H. vm_compute in H. discriminate H.
Qed.

(** How the stack comes about: two blocks falling in the lane of a block that
    lies on the floor stop one above the other, each one pixel short of the
    block below. *)
Example stack_comes_to_rest :
  let first := fst (Tapioca.PlayingScene.updateBlocks frame0 []
                      [stopped 100 173; fallen 100 155; fallen 100 138]) in
  let second := fst (Tapioca.PlayingScene.updateBlocks frame0 [] first) in
  first = [stopped 100 173; fallen 100 156; fallen 100 139] /\
  second = [stopped 100 173; stopped 100 156; stopped 100 139].
Proof. vm_compute. split; reflexivity. Qed.

(** The vector of the counterexample is what one [Playing::update] leaves of
    a stack of three blocks at rest when an egg destroys the lowest one. *)
Example unsupportedStack_arises :
  let '(d, _, next) := Tapioca.PlayingScene.update frame0 stackBeingHit Stopwatch.make in
  Tapioca.Data.blocks d = unsupportedStack /\ next = None /\ Tapioca.Data.score d = 21%Z.
Proof. vm_compute. repeat split. Qed.

(** ** Blocks over several ticks *)

Lemma PyoroLike_collided_fixed ticks b :
  PyoroLike.Block.collided b = true -> PyoroLike_run ticks b = b.
Proof.
  intros Hc. induction ticks as [|[[fr blocks] this] ticks IH]; [reflexivity|].
  unfold PyoroLike_run in *. simpl.
  unfold PyoroLike.Block.update at 2. rewrite Hc. simpl. exact IH.
Qed.

(** C3, as it holds.  The y-position of a block never decreases.  A Tapioca
    block is tested anew in every [Block::update]: it keeps its rectangle in a
    tick in which the test finds the floor or another block and is stopped,
    and it falls by the falling speed, moving again, in a tick in which the
    test finds nothing, whatever its state was before.  A PyoroLike block
    collides at most once: from then on no update changes it. *)
Theorem C3_block_falls_or_rests :
  (forall (fr : Frame.t) (blocks : list Tapioca.Block.t) (this : nat)
          (b : Tapioca.Block.t),
     let b' := Tapioca.Block.update fr blocks this b in
     RectF.y (Tapioca.Block.rect b) <= RectF.y (Tapioca.Block.rect b') /\
     (crossesFloor fr b \/ runsIntoOther blocks this b ->
      Tapioca.Block.isMoving b' = false /\
      Tapioca.Block.rect b' = Tapioca.Block.rect b) /\
     (~ (crossesFloor fr b \/ runsIntoOther blocks this b) ->
      Tapioca.Block.isMoving b' = true /\
      Tapioca.Block.rect b' =
        RectF.set_y (Tapioca.Block.rect b)
          (RectF.y (Tapioca.Block.rect b) + Tapioca.Block.fallingSpeed))) /\
  (forall (fr : Frame.t) (blocks : list PyoroLike.Block.t) (this : nat)
          (b : PyoroLike.Block.t),
     0 <= PyoroLike.Block.speed b ->
     let b' := PyoroLike.Block.update fr blocks this b in
     RectF.y (PyoroLike.Block.rect b) <= RectF.y (PyoroLike.Block.rect b') /\
     0 <= PyoroLike.Block.speed b' /\
     (PyoroLike.Block.collided b = false ->
      PyoroLike.Block.willCollide fr blocks this b = true ->
      PyoroLike.Block.collided b' = true /\
      PyoroLike.Block.rect b' = PyoroLike.Block.rect b)) /\
  (forall (ticks : list PyoroLike_tick) (b : PyoroLike.Block.t),
     PyoroLike.Block.collided b = true -> PyoroLike_run ticks b = b).
Proof.
  split; [|split].
  - intros fr blocks this b b'. subst b'.
    pose proof (willCollide_spec fr blocks this b) as Hspec.
    destruct (Tapioca.Block.willCollide fr blocks this
                (Tapioca.Block.set_speed b Tapioca.Block.fallingSpeed)) eqn:Hc.
    + rewrite (Block_update_stop _ _ _ _ Hc). simpl. split; [apply Qle_refl|].
      split; [auto|]. intros Hn. exfalso. apply Hn, Hspec. reflexivity.
    + rewrite (Block_update_fall _ _ _ _ Hc). simpl. split.
      * unfold Tapioca.Block.fallingSpeed. lra.
      * split; [|auto]. intros H. apply Hspec in H. discriminate H.
  - intros fr blocks this b Hs b'. subst b'. unfold PyoroLike.Block.update.
    destruct (PyoroLike.Block.collided b) eqn:Ec; simpl.
    + split; [apply Qle_refl|]. split; [exact Hs|]. discriminate.
    + destruct (PyoroLike.Block.willCollide fr blocks this b) eqn:Ew; simpl.
      * split; [lra|]. split; [lra|]. intros _ _. split; [reflexivity|].
        rewrite Qplus_0_same. destruct (PyoroLike.Block.rect b). reflexivity.
      * split; [lra|]. split; [exact Hs|]. discriminate.
  - apply PyoroLike_collided_fixed.
Qed.

(** A concrete instance: a PyoroLike block that has come to rest on the floor
    of the 400 x 600 window stays there, whatever the next frames bring. *)
Lemma C3_block_falls_or_rests_witness :
  PyoroLike_run [(frame0, [], 0%nat); (frameZ, [], 3%nat)]
    (PyoroLike.Block.mk (RectF.mk 100 538 50 50) 0 false true) =
  PyoroLike.Block.mk (RectF.mk 100 538 50 50) 0 false true.
Proof.
  apply (proj2 (proj2 C3_block_falls_or_rests)). reflexivity.
Defined.

(** C3 as the specification words it fails in Tapioca: a block that has
    stopped on another block falls again as soon as that block is gone. *)
Lemma C3_counterexample :
  let resting := Tapioca.Block.update frame0
                   [stopped 100 173; fallen 100 156] 1 (fallen 100 156) in
  let later := Tapioca.Block.update frame0 [resting] 0 resting in
  Tapioca.Block.isMoving resting = false /\
  Tapioca.Block.rect resting = Tapioca.Block.rect (fallen 100 156) /\
  Tapioca.Block.isMoving later = true /\
  RectF.y (Tapioca.Block.rect resting) < RectF.y (Tapioca.Block.rect later).
Proof.
  vm_compute. repeat split.
Qed.

(** ** Firing *)

(** C2, as it holds.  In Tapioca a press of Z launches a new egg exactly when
    the launch timer has run out, whether or not an egg is still around: the
    new egg takes the place of the old one and the timer is restarted;
    otherwise nothing changes.  In PyoroLike a press of Z fires exactly when
    the player holds no bullet, or holds an inactive one and the fire timer
    has run out.  Either player holds at most one projectile, its [egg] or
    [bullet] member. *)
Theorem C2_fire_condition :
  (forall (fr : Frame.t) (p : Tapioca.Player.t),
     let fresh :=
       Tapioca.Egg.make (Frame.now fr) (RectF.topCenter (Tapioca.Player.rect p))
         (Tapioca.Player.facingRight p) in
     (Frame.KeyZ_down fr = true /\
      Timer.reachedZero (Frame.now fr) (Tapioca.Player.eggLaunchTimer p) = true ->
      Tapioca.Player.egg (Tapioca.Player.launch fr p) = Some fresh /\
      Tapioca.Player.eggLaunchTimer (Tapioca.Player.launch fr p) =
        Timer.restart (Frame.now fr) (Tapioca.Player.eggLaunchTimer p)) /\
     (~ (Frame.KeyZ_down fr = true /\
         Timer.reachedZero (Frame.now fr) (Tapioca.Player.eggLaunchTimer p) = true) ->
      Tapioca.Player.launch fr p = p)) /\
  (forall (fr : Frame.t) (p : PyoroLike.Player.t),
     let fresh :=
       PyoroLike.Bullet.make (RectF.topCenter (PyoroLike.Player.rect p))
         (PyoroLike.Player.facingRight p) in
     let allowed :=
       PyoroLike.Player.bullet p = None \/
       exists b, PyoroLike.Player.bullet p = Some b /\
                 PyoroLike.Bullet.active b = false /\
                 Timer.reachedZero (Frame.now fr)
                   (PyoroLike.Player.bulletFireTimer p) = true in
     (Frame.KeyZ_down fr = true /\ allowed ->
      PyoroLike.Player.bullet (PyoroLike.Player.fire fr p) = Some fresh /\
      PyoroLike.Player.bulletFireTimer (PyoroLike.Player.fire fr p) =
        Timer.restart (Frame.now fr) (PyoroLike.Player.bulletFireTimer p)) /\
     (~ (Frame.KeyZ_down fr = true /\ allowed) ->
      PyoroLike.Player.fire fr p = p)).
Proof.
  split.
  - intros fr p fresh. unfold Tapioca.Player.launch, Tapioca.Player.launches. split.
    + intros [-> ->]. simpl. split; reflexivity.
    + intros Hn.
      destruct (Frame.KeyZ_down fr); [|reflexivity].
      destruct (Timer.reachedZero _ _); [|reflexivity].
      exfalso. apply Hn. split; reflexivity.
  - intros fr p fresh allowed. subst allowed.
    unfold PyoroLike.Player.fire, PyoroLike.Player.fires. split.
    + intros [-> [-> | (b & -> & -> & ->)]]; simpl; split; reflexivity.
    + intros Hn.
      destruct (Frame.KeyZ_down fr); [|reflexivity]. simpl.
      destruct (PyoroLike.Player.bullet p) as [b|] eqn:Eb.
      * destruct (PyoroLike.Bullet.active b) eqn:Ea; [reflexivity|]. simpl.
        destruct (Timer.reachedZero _ _) eqn:Ez; [|reflexivity].
        exfalso. apply Hn. split; [reflexivity|]. right. exists b. auto.
      * exfalso. apply Hn. split; [reflexivity|]. left. reflexivity.
Qed.

(** A concrete instance: the PyoroLike player fires again once its bullet is
    inactive and a second has passed. *)
Lemma C2_fire_condition_witness :
  PyoroLike.Player.bullet (PyoroLike.Player.fire frameZ_later C2_shooter) =
  Some (PyoroLike.Bullet.make (Vec2.mk (50 + 50 / 2) 490) true).
Proof.
  apply (proj1 (proj2 C2_fire_condition frameZ_later C2_shooter)).
  split; [reflexivity|]. right.
  exists (PyoroLike.Bullet.mk false (RectF.mk 420 300 50 50) (Vec2.mk 20 5)).
  repeat split.
Defined.

(** C2 as the specification words it fails.  In Tapioca the egg thrown 600 ms
    earlier is still in flight when Z goes down again, and it is replaced by
    a new egg.  In PyoroLike the very first shot is fired although the fire
    timer, which has never been started, has not run out. *)
Lemma C2_counterexample :
  (exists e,
     Tapioca.Player.egg C2_thrower = Some e /\
     flying frameZ_later e /\ Tapioca.Egg.isDestroyed e = false /\
     Tapioca.Player.egg (Tapioca.Player.launch frameZ_later C2_thrower) =
       Some (Tapioca.Egg.make 600 (RectF.topCenter (Tapioca.Player.rect C2_thrower))
               true) /\
     Tapioca.Player.egg (Tapioca.Player.launch frameZ_later C2_thrower) <> Some e) /\
  (PyoroLike.Player.bullet PyoroLike.Player.make = None /\
   Timer.reachedZero (Frame.now frameZ)
     (PyoroLike.Player.bulletFireTimer PyoroLike.Player.make) = false /\
   PyoroLike.Player.bullet (PyoroLike.Player.fire frameZ PyoroLike.Player.make) =
     Some (PyoroLike.Bullet.make
             (RectF.topCenter (PyoroLike.Player.rect PyoroLike.Player.make)) true)).
Proof.
  split.
  - eexists. split; [vm_compute; reflexivity|].
    split; [split; reflexivity|]. split; [reflexivity|].
    split; [vm_compute; reflexivity|].
    intros H. vm_compute in H. discriminate H.
  - repeat split.
Qed.

(** ** Machine numbers *)

Lemma Int_wrap_small (z : Z) :
  (Int.min <= z <= Int.max)%Z -> Int.wrap z = z.
Proof.
  unfold Int.min, Int.max, Int.wrap. intros H.
  rewrite Z.mod_small by lia. lia.
Qed.

Lemma Int_wrap_range (z : Z) : (Int.min <= Int.wrap z <= Int.max)%Z.
Proof.
  unfold Int.min, Int.max, Int.wrap.
  pose proof (Z.mod_pos_bound (z + 2 ^ 31) (2 ^ 32)). lia.
Qed.

Lemma Int_wrap_add_wrap (a b : Z) : Int.wrap (a + Int.wrap b) = Int.wrap (a + b).
Proof.
  unfold Int.wrap.
  replace (a + ((b + 2 ^ 31) mod 2 ^ 32 - 2 ^ 31) + 2 ^ 31)%Z
    with (a + (b + 2 ^ 31) mod 2 ^ 32)%Z by lia.
  rewrite Zplus_mod_idemp_r. f_equal. f_equal. lia.
Qed.


Lemma pow2_add (a b : Z) : Double.pow2 (a + b) == Double.pow2 a * Double.pow2 b.
Proof. apply Qpower_plus. discriminate. Qed.

Lemma pow2_Z (n : Z) : (0 <= n)%Z -> Double.pow2 n == inject_Z (2 ^ n).
Proof. intros H. unfold Double.pow2. rewrite Zpower_Qpower by exact H. reflexivity. Qed.




Lemma ilog2_lt (q : Q) : 0 < q -> q < Double.pow2 (Double.ilog2 q + 1).
Proof.
  intros Hq. unfold Double.ilog2.
  destruct (Qle_bool _ q) eqn:E.
  - destruct q as [n d]. simpl Qnum in *. simpl Qden in *.
    assert (Hn : (0 < n)%Z) by (unfold Qlt in Hq; simpl in Hq; lia).
    pose proof (Z.log2_spec n Hn) as [_ Hn2].
    pose proof (Z.log2_spec (Zpos d) eq_refl) as [Hd1 _].
    pose proof (Z.log2_nonneg n) as Hln.
    pose proof (Z.log2_nonneg (Zpos d)) as Hld.
    replace (Z.log2 n - Z.log2 (Z.pos d) + 1)%Z
      with (Z.succ (Z.log2 n) + - Z.log2 (Z.pos d))%Z by lia.
    rewrite pow2_add. unfold Double.pow2 at 2. rewrite Qpower_opp.
    fold (Double.pow2 (Z.log2 (Z.pos d))).
    rewrite !pow2_Z by lia.
    set (A := (2 ^ Z.succ (Z.log2 n))%Z) in *.
    set (B := (2 ^ Z.log2 (Z.pos d))%Z) in *.
    assert (HB : (0 < B)%Z) by (apply Z.pow_pos_nonneg; lia).
    unfold Qlt, Qmult, Qinv, inject_Z. simpl.
    destruct B as [|B|B]; try lia. simpl.
    nia.
  - replace (Z.log2 (Qnum q) - Z.log2 (Z.pos (Qden q)) - 1 + 1)%Z
      with (Z.log2 (Qnum q) - Z.log2 (Z.pos (Qden q)))%Z by lia.
    apply Qnot_le_lt. intros Hle. apply Qle_bool_iff in Hle. congruence.
Qed.






(** The arithmetic of [Double] gives what the Standard Library's
    specification of binary64 gives, for the three operations of the score
    at every position that is a multiple of 1/2 between -100 and 650, in
    windows 600 and 400 high, and in windows of a few other heights. *)
Lemma Double_agrees_with_SpecFloat :
  forallb (fun H =>
             forallb (fun y2 => Double_same (Double_score y2 H)
                                            (Double_of_spec (SpecFloat_score y2 H)))
                     (Zrange (-200) 1500))
          [600; 400]%Z = true /\
  forallb (fun H =>
             forallb (fun y2 => Double_same (Double_score y2 H)
                                            (Double_of_spec (SpecFloat_score y2 H)))
                     (Zrange (-100) 300))
          [1; 3; 7; 80; 97; 1080; 1000001]%Z = true.
Proof. split; vm_compute; reflexivity. Qed.

(** ** Scoring *)

(** The rounding shows: a block at y = 468 in the window 600 high scores 21,
    where [100 * (1 - 468 / 600)] is 22, and a block at y = 136, where a
    falling block comes by, in a window 400 high scores 65 for 66. *)
Lemma hitScore_one_less :
  hitScore frame0 (restingAt 468) = 21%Z /\
  100 * (1 - 468 / 600) == 22 /\
  hitScore frameLow (restingAt 136) = 65%Z /\
  100 * (1 - 136 / 400) == 66.
Proof. repeat split; vm_compute; reflexivity. Qed.











(** [Playing::update] asks for no other scene than [GameOver]. *)
Lemma Playing_update_next fr d sw :
  snd (Tapioca.PlayingScene.update fr d sw) = None \/
  snd (Tapioca.PlayingScene.update fr d sw) = Some Tapioca.GameOver.
Proof.
  unfold Tapioca.PlayingScene.update. cbv zeta.
  destruct (Tapioca.PlayingScene.spawn fr sw _) as [blocks0 sw0].
  destruct (Tapioca.PlayingScene.updateBlocks fr [] blocks0) as [blocks1 top].
  destruct top; [right; reflexivity|].
  destruct (Tapioca.Player.update fr _ _) as [[p blocks2] hit].
  destruct (Tapioca.Player.isDead _); [right|left]; reflexivity.
Qed.

(** The data after one [mgr.update()] in the [Playing] scene is the data
    [Playing::update] leaves. *)
Lemma App_update_Playing fr a sw :
  Tapioca.App.current a = Tapioca.App.PlayingSceneOf sw ->
  Tapioca.App.data (Tapioca.App.update fr a) =
  fst (fst (Tapioca.PlayingScene.update fr (Tapioca.App.data a) sw)).
Proof.
  intros Hc. unfold Tapioca.App.update. rewrite Hc.
  destruct (Playing_update_next fr (Tapioca.App.data a) sw) as [H|H];
    destruct (Tapioca.PlayingScene.update fr (Tapioca.App.data a) sw)
      as [[d sw'] next]; simpl in *; subst next; reflexivity.
Qed.


(** The game starts with no block and, if the saved high score is not
    negative, with the scores in order. *)
Lemma App_make_invariants fr saved :
  match saved with Some v => (0 <= v)%Z | None => True end ->
  blocksAboveFloor fr (Tapioca.Data.blocks (Tapioca.App.data (Tapioca.App.make fr saved)))
  /\ blocksFromTop (Tapioca.Data.blocks (Tapioca.App.data (Tapioca.App.make fr saved)))
  /\ scoresInOrder (Tapioca.App.data (Tapioca.App.make fr saved)).
Proof.
  intros H. split; [constructor|]. split; [constructor|].
  unfold scoresInOrder. simpl. destruct saved; lia.
Qed.



(** ** The player: running into a falling block from below *)

Lemma find_firstHit {B : Type} (f : B -> bool) blocks before hit after :
  firstHit f blocks before hit after -> find f blocks = Some hit.
Proof.
  intros (-> & Hbefore & Hhit). induction before as [|b before IH]; simpl.
  - rewrite Hhit. reflexivity.
  - rewrite (Hbefore b (or_introl eq_refl)). apply IH.
    intros b0 H0. apply Hbefore. right. exact H0.
Qed.

(** The first block to intersect a rectangle is found at the same place in a
    vector whose blocks have the same rectangles. *)
Lemma firstHit_transfer {B B1 C : Type} (rect : B -> RectF.t) (rect1 : B1 -> RectF.t)
    (f : B -> C) (f1 : B1 -> C) (r : RectF.t) blocks blocks1 before hit after :
  map (fun b => (rect1 b, f1 b)) blocks1 = map (fun b => (rect b, f b)) blocks ->
  firstHit (fun b => RectF.intersects r (rect b)) blocks before hit after ->
  exists before1 hit1 after1,
    firstHit (fun b => RectF.intersects r (rect1 b)) blocks1 before1 hit1 after1 /\
    rect1 hit1 = rect hit /\ f1 hit1 = f hit.
Proof.
  intros Hm (-> & Hbefore & Hhit).
  rewrite map_app in Hm. simpl in Hm.
  apply map_eq_app in Hm. destruct Hm as (before1 & tail1 & -> & Hb1 & Ht1).
  apply map_eq_cons in Ht1. destruct Ht1 as (hit1 & after1 & -> & Hh1 & _).
  injection Hh1 as Hr Hf.
  exists before1, hit1, after1. split; [|split; assumption].
  split; [reflexivity|]. split; [|rewrite Hr; exact Hhit].
  intros b1 Hin1.
  assert (Hin : In (rect1 b1) (map rect before)).
  { replace (map rect before)
      with (map fst (map (fun b => (rect b, f b)) before))
      by (rewrite map_map; reflexivity).
    rewrite <- Hb1, map_map. simpl. apply (in_map rect1). exact Hin1. }
  apply in_map_iff in Hin. destruct Hin as (b & Hr1 & Hin).
  rewrite <- Hr1. apply Hbefore. exact Hin.
Qed.

(** The vertical velocity, the rectangle and the [grounded] flag at the point
    where [Player::update] turns to the vertical move: the egg phases do not
    touch them, [walk] only moves the rectangle and [jump] only sets the
    other two. *)
Lemma Tapioca_before_contact fr blocks blocks1 p p1 :
  Tapioca.Player.rect p1 = Tapioca.Player.rect p ->
  Tapioca.Player.vy p1 = Tapioca.Player.vy p ->
  Tapioca.Player.grounded p1 = Tapioca.Player.grounded p ->
  map Tapioca.Block.rect blocks1 = map Tapioca.Block.rect blocks ->
  let q := Tapioca.Player.jump fr (Tapioca.Player.walk fr blocks1 p1) in
  Tapioca.Player.rect q = Tapioca.Player.rect (Tapioca.Player.walk fr blocks p) /\
  Tapioca.Player.vy q = Tapioca.Player.vy (Tapioca.Player.jump fr p) /\
  Tapioca.Player.grounded q = Tapioca.Player.grounded (Tapioca.Player.jump fr p).
Proof.
  intros Hr Hv Hg Hm q. subst q.
  assert (Hw : Tapioca.Player.rect (Tapioca.Player.walk fr blocks1 p1) =
               Tapioca.Player.rect (Tapioca.Player.walk fr blocks p) /\
               Tapioca.Player.vy (Tapioca.Player.walk fr blocks1 p1) =
               Tapioca.Player.vy p /\
               Tapioca.Player.grounded (Tapioca.Player.walk fr blocks1 p1) =
               Tapioca.Player.grounded p).
  { unfold Tapioca.Player.walk. simpl. rewrite Hr.
    unfold Tapioca.Block.intersects.
    rewrite !(existsb_rects Tapioca.Block.rect), Hm.
    break_ifs; simpl; auto. }
  destruct Hw as (Hwr & Hwv & Hwg).
  unfold Tapioca.Player.jump. rewrite Hwg.
  destruct (Tapioca.Player.grounded p && Frame.KeyUp_down fr); simpl; auto.
Qed.

Lemma Tapioca_contact_from_below blocks q before block after :
  firstHit (fun b => Tapioca.Block.intersects b
                       (RectF.set_y (Tapioca.Player.rect q)
                          (RectF.y (Tapioca.Player.rect q)
                           + (Tapioca.Player.vy q + Tapioca.gravity))))
           blocks before block after ->
  Tapioca.Block.isMoving block = true ->
  Tapioca.Player.vy q + Tapioca.gravity <= 0 ->
  Tapioca.Player.contact blocks q =
  (Tapioca.Player.set_vy
     (Tapioca.Player.set_vy q (Tapioca.Player.vy q + Tapioca.gravity))
     Tapioca.Block.fallingSpeed,
   false).
Proof.
  intros Hfirst Hm Hv. unfold Tapioca.Player.contact. simpl.
  rewrite (find_firstHit _ _ _ _ _ Hfirst), Hm.
  apply Qgtb_le in Hv. rewrite Hv. reflexivity.
Qed.

Lemma Tapioca_pushed_down fr blocks q before block after :
  firstHit (fun b => Tapioca.Block.intersects b
                       (RectF.set_y (Tapioca.Player.rect q)
                          (RectF.y (Tapioca.Player.rect q)
                           + (Tapioca.Player.vy q + Tapioca.gravity))))
           blocks before block after ->
  Tapioca.Block.isMoving block = true ->
  Tapioca.Player.vy q + Tapioca.gravity <= 0 ->
  let p' :=
    let (q', touching) := Tapioca.Player.contact blocks q in
    Tapioca.Player.crush blocks (Tapioca.Player.land fr touching q') in
  let r := Tapioca.Player.rect q in
  (RectF.y r + RectF.h r + Tapioca.Block.fallingSpeed <= Tapioca.floorLine fr ->
   Tapioca.Player.vy p' = Tapioca.Block.fallingSpeed /\
   Tapioca.Player.grounded p' = Tapioca.Player.grounded q /\
   Tapioca.Player.rect p' = RectF.set_y r (RectF.y r + Tapioca.Block.fallingSpeed)) /\
  (Tapioca.floorLine fr < RectF.y r + RectF.h r + Tapioca.Block.fallingSpeed ->
   Tapioca.Player.vy p' = 0 /\
   Tapioca.Player.grounded p' = true /\
   Tapioca.Player.rect p' = r).
Proof.
  intros Hfirst Hm Hv.
  rewrite (Tapioca_contact_from_below blocks q before block after Hfirst Hm Hv).
  cbv zeta.
  match goal with
  | |- context [Tapioca.Player.crush blocks ?x] =>
      destruct (crush_spec blocks x) as (Hr & Hg & Hvy & _)
  end.
  rewrite Hr, Hg, Hvy. clear Hr Hg Hvy.
  unfold Tapioca.Player.land. simpl. split.
  - intros Hfloor. apply Qgtb_le in Hfloor. rewrite Hfloor. simpl. auto.
  - intros Hfloor. apply Qgtb_gt in Hfloor. rewrite Hfloor. simpl.
    rewrite Qplus_0_same. repeat split.
    destruct (Tapioca.Player.rect q). reflexivity.
Qed.

Lemma Tapioca_egg_phases fr blocks p :
  let p1 := fst (fst (Tapioca.Player.updateEgg fr blocks (Tapioca.Player.launch fr p))) in
  Tapioca.Player.rect p1 = Tapioca.Player.rect p /\
  Tapioca.Player.vy p1 = Tapioca.Player.vy p /\
  Tapioca.Player.grounded p1 = Tapioca.Player.grounded p.
Proof.
  unfold Tapioca.Player.updateEgg, Tapioca.Player.launch.
  destruct (Tapioca.Player.launches fr p); simpl.
  - destruct (Tapioca.Egg.update fr blocks _) as [[e' blocks'] hit]. simpl. auto.
  - destruct (Tapioca.Player.egg p) as [e|]; simpl; auto.
    destruct (Tapioca.Egg.update fr blocks e) as [[e' blocks'] hit]. simpl. auto.
Qed.

Lemma Tapioca_update_pushed_down fr blocks p before block after :
  let r := Tapioca.Player.rect (Tapioca.Player.walk fr blocks p) in
  let v := Tapioca.Player.vy (Tapioca.Player.jump fr p) + Tapioca.gravity in
  firstHit (fun b => Tapioca.Block.intersects b (RectF.set_y r (RectF.y r + v)))
           blocks before block after ->
  Tapioca.Block.isMoving block = true ->
  v <= 0 ->
  let p' := fst (fst (Tapioca.Player.update fr blocks p)) in
  (RectF.y r + RectF.h r + Tapioca.Block.fallingSpeed <= Tapioca.floorLine fr ->
   Tapioca.Player.vy p' = Tapioca.Block.fallingSpeed /\
   Tapioca.Player.grounded p' = Tapioca.Player.grounded (Tapioca.Player.jump fr p) /\
   Tapioca.Player.rect p' = RectF.set_y r (RectF.y r + Tapioca.Block.fallingSpeed)) /\
  (Tapioca.floorLine fr < RectF.y r + RectF.h r + Tapioca.Block.fallingSpeed ->
   Tapioca.Player.vy p' = 0 /\
   Tapioca.Player.grounded p' = true /\
   Tapioca.Player.rect p' = r).
Proof.
  intros r v Hfirst Hmov Hv p'. subst p'.
  pose proof (Player_update_map
                (fun b => (Tapioca.Block.rect b, Tapioca.Block.isMoving b))
                fr blocks p (fun b v => eq_refl)) as Hm.
  destruct (Tapioca_egg_phases fr blocks p) as (Hr1 & Hv1 & Hg1).
  unfold Tapioca.Player.update in *.
  destruct (Tapioca.Player.updateEgg fr blocks (Tapioca.Player.launch fr p))
    as [[p1 blocks1] hit]. simpl in Hm, Hr1, Hv1, Hg1. simpl.
  assert (Hmr : map Tapioca.Block.rect blocks1 = map Tapioca.Block.rect blocks).
  { replace (map Tapioca.Block.rect blocks1)
      with (map fst (map (fun b => (Tapioca.Block.rect b, Tapioca.Block.isMoving b))
                         blocks1)) by (rewrite map_map; reflexivity).
    rewrite Hm, map_map. reflexivity. }
  destruct (Tapioca_before_contact fr blocks blocks1 p p1 Hr1 Hv1 Hg1 Hmr)
    as (Hqr & Hqv & Hqg).
  destruct (firstHit_transfer Tapioca.Block.rect Tapioca.Block.rect
              Tapioca.Block.isMoving Tapioca.Block.isMoving
              _ blocks blocks1 before block after Hm Hfirst)
    as (before1 & block1 & after1 & Hfirst1 & _ & Hmov1).
  rewrite Hmov in Hmov1.
  set (q := Tapioca.Player.jump fr (Tapioca.Player.walk fr blocks1 p1)) in *.
  fold r in Hqr. subst v. rewrite <- Hqv in Hv, Hfirst1. rewrite <- Hqr in Hfirst1.
  pose proof (Tapioca_pushed_down fr blocks1 q before1 block1 after1
                Hfirst1 Hmov1 Hv) as H.
  cbv zeta in H. rewrite Hqr, Hqg in H.
  unfold Tapioca.Player.move. fold q. exact H.
Qed.

Lemma PyoroLike_bullet_phases fr blocks p :
  let p1 := fst (PyoroLike.Player.updateBullet fr blocks (PyoroLike.Player.fire fr p)) in
  let blocks1 :=
    snd (PyoroLike.Player.updateBullet fr blocks (PyoroLike.Player.fire fr p)) in
  PyoroLike.Player.rect p1 = PyoroLike.Player.rect p /\
  PyoroLike.Player.vy p1 = PyoroLike.Player.vy p /\
  PyoroLike.Player.grounded p1 = PyoroLike.Player.grounded p /\
  map (fun b => (PyoroLike.Block.rect b, PyoroLike.Block.speed b)) blocks1 =
  map (fun b => (PyoroLike.Block.rect b, PyoroLike.Block.speed b)) blocks.
Proof.
  assert (Hf : PyoroLike.Player.rect (PyoroLike.Player.fire fr p) =
               PyoroLike.Player.rect p /\
               PyoroLike.Player.vy (PyoroLike.Player.fire fr p) =
               PyoroLike.Player.vy p /\
               PyoroLike.Player.grounded (PyoroLike.Player.fire fr p) =
               PyoroLike.Player.grounded p).
  { unfold PyoroLike.Player.fire. break_ifs; auto. }
  revert Hf. generalize (PyoroLike.Player.fire fr p). intros q (Hr & Hv & Hg).
  unfold PyoroLike.Player.updateBullet.
  destruct (PyoroLike.Player.bullet q) as [b|]; simpl; [|auto].
  pose proof (Bullet_update_map
                (fun b => (PyoroLike.Block.rect b, PyoroLike.Block.speed b))
                fr blocks b (fun blk v => eq_refl)) as Hm.
  destruct (PyoroLike.Bullet.update fr blocks b) as [b' blocks1]. simpl in *. auto.
Qed.

Lemma PyoroLike_before_contact fr blocks blocks1 p p1 :
  PyoroLike.Player.rect p1 = PyoroLike.Player.rect p ->
  PyoroLike.Player.vy p1 = PyoroLike.Player.vy p ->
  PyoroLike.Player.grounded p1 = PyoroLike.Player.grounded p ->
  map PyoroLike.Block.rect blocks1 = map PyoroLike.Block.rect blocks ->
  let q := PyoroLike.Player.jump fr (PyoroLike.Player.walk fr blocks1 p1) in
  PyoroLike.Player.rect q = PyoroLike.Player.rect (PyoroLike.Player.walk fr blocks p) /\
  PyoroLike.Player.vy q = PyoroLike.Player.vy (PyoroLike.Player.jump fr p) /\
  PyoroLike.Player.grounded q = PyoroLike.Player.grounded (PyoroLike.Player.jump fr p).
Proof.
  intros Hr Hv Hg Hm q. subst q.
  assert (Hw : PyoroLike.Player.rect (PyoroLike.Player.walk fr blocks1 p1) =
               PyoroLike.Player.rect (PyoroLike.Player.walk fr blocks p) /\
               PyoroLike.Player.vy (PyoroLike.Player.walk fr blocks1 p1) =
               PyoroLike.Player.vy p /\
               PyoroLike.Player.grounded (PyoroLike.Player.walk fr blocks1 p1) =
               PyoroLike.Player.grounded p).
  { unfold PyoroLike.Player.walk. rewrite Hr.
    destruct (xorb _ _); [destruct (Frame.KeyLeft_pressed fr && _);
                          destruct (Frame.KeyRight_pressed fr && _)|];
      simpl; rewrite ?Hr; unfold PyoroLike.Block.intersects;
      match goal with
      | |- context [existsb ?g blocks1] =>
          match g with
          | (fun block => negb (RectF.intersects ?a _) && RectF.intersects ?b _) =>
              rewrite (existsb_through PyoroLike.Block.rect
                         (fun r => negb (RectF.intersects a r) && RectF.intersects b r)
                         blocks1),
                      (existsb_through PyoroLike.Block.rect
                         (fun r => negb (RectF.intersects a r) && RectF.intersects b r)
                         blocks), Hm
          end
      end; auto. }
  destruct Hw as (Hwr & Hwv & Hwg).
  unfold PyoroLike.Player.jump. rewrite Hwg.
  destruct (PyoroLike.Player.grounded p && Frame.KeyUp_down fr); simpl; auto.
Qed.

Lemma PyoroLike_pushed_down fr blocks q before block after :
  firstHit (fun b => PyoroLike.Block.intersects b
                       (RectF.set_y (PyoroLike.Player.rect q)
                          (RectF.y (PyoroLike.Player.rect q)
                           + (PyoroLike.Player.vy q + PyoroLike.GRAVITY))))
           blocks before block after ->
  0 < PyoroLike.Block.speed block ->
  PyoroLike.Player.vy q + PyoroLike.GRAVITY <= 0 ->
  let p' :=
    let (q', touching) := PyoroLike.Player.contact blocks q in
    PyoroLike.Player.land fr touching q' in
  let r := PyoroLike.Player.rect q in
  (RectF.y r + RectF.h r + PyoroLike.Block.speed block <= PyoroLike.floorLine fr ->
   PyoroLike.Player.vy p' = PyoroLike.Block.speed block /\
   PyoroLike.Player.grounded p' = PyoroLike.Player.grounded q /\
   PyoroLike.Player.rect p' = RectF.set_y r (RectF.y r + PyoroLike.Block.speed block)) /\
  (PyoroLike.floorLine fr < RectF.y r + RectF.h r + PyoroLike.Block.speed block ->
   PyoroLike.Player.vy p' = 0 /\
   PyoroLike.Player.grounded p' = true /\
   PyoroLike.Player.rect p' = r).
Proof.
  intros Hfirst Hs Hv. unfold PyoroLike.Player.contact. simpl.
  rewrite (find_firstHit _ _ _ _ _ Hfirst).
  apply Qgtb_gt in Hs. rewrite Hs. apply Qgtb_le in Hv. rewrite Hv.
  unfold PyoroLike.Player.land. simpl. split.
  - intros Hfloor. apply Qgtb_le in Hfloor. rewrite Hfloor. simpl. auto.
  - intros Hfloor. apply Qgtb_gt in Hfloor. rewrite Hfloor. simpl.
    rewrite Qplus_0_same. repeat split.
    destruct (PyoroLike.Player.rect q). reflexivity.
Qed.

Lemma PyoroLike_update_pushed_down fr blocks p p' before block after :
  let r := PyoroLike.Player.rect (PyoroLike.Player.walk fr blocks p) in
  let v := PyoroLike.Player.vy (PyoroLike.Player.jump fr p) + PyoroLike.GRAVITY in
  firstHit (fun b => PyoroLike.Block.intersects b (RectF.set_y r (RectF.y r + v)))
           blocks before block after ->
  0 < PyoroLike.Block.speed block ->
  v <= 0 ->
  fst (PyoroLike.Player.update fr blocks p) = Some p' ->
  (RectF.y r + RectF.h r + PyoroLike.Block.speed block <= PyoroLike.floorLine fr ->
   PyoroLike.Player.vy p' = PyoroLike.Block.speed block /\
   PyoroLike.Player.grounded p' = PyoroLike.Player.grounded (PyoroLike.Player.jump fr p) /\
   PyoroLike.Player.rect p' = RectF.set_y r (RectF.y r + PyoroLike.Block.speed block)) /\
  (PyoroLike.floorLine fr < RectF.y r + RectF.h r + PyoroLike.Block.speed block ->
   PyoroLike.Player.vy p' = 0 /\
   PyoroLike.Player.grounded p' = true /\
   PyoroLike.Player.rect p' = r).
Proof.
  intros r v Hfirst Hspeed Hv.
  destruct (PyoroLike_bullet_phases fr blocks p) as (Hr1 & Hv1 & Hg1 & Hm).
  unfold PyoroLike.Player.update.
  destruct (PyoroLike.Player.updateBullet fr blocks (PyoroLike.Player.fire fr p))
    as [p1 blocks1]. simpl in Hm, Hr1, Hv1, Hg1.
  assert (Hmr : map PyoroLike.Block.rect blocks1 = map PyoroLike.Block.rect blocks).
  { replace (map PyoroLike.Block.rect blocks1)
      with (map fst (map (fun b => (PyoroLike.Block.rect b, PyoroLike.Block.speed b))
                         blocks1)) by (rewrite map_map; reflexivity).
    rewrite Hm, map_map. reflexivity. }
  destruct (PyoroLike_before_contact fr blocks blocks1 p p1 Hr1 Hv1 Hg1 Hmr)
    as (Hqr & Hqv & Hqg).
  destruct (firstHit_transfer PyoroLike.Block.rect PyoroLike.Block.rect
              PyoroLike.Block.speed PyoroLike.Block.speed
              _ blocks blocks1 before block after Hm Hfirst)
    as (before1 & block1 & after1 & Hfirst1 & _ & Hspeed1).
  set (q := PyoroLike.Player.jump fr (PyoroLike.Player.walk fr blocks1 p1)) in *.
  fold r in Hqr. subst v. rewrite <- Hqv in Hv, Hfirst1. rewrite <- Hqr in Hfirst1.
  rewrite <- Hspeed1 in Hspeed.
  pose proof (PyoroLike_pushed_down fr blocks1 q before1 block1 after1
                Hfirst1 Hspeed Hv) as H.
  cbv zeta in H. rewrite Hqr, Hqg, Hspeed1 in H.
  destruct (PyoroLike.Player.contact blocks1 q) as [q' touching]. simpl.
  unfold PyoroLike.Player.assertNoOverlap.
  destruct (existsb _ blocks1); [discriminate|].
  intros E. injection E as <-. exact H.
Qed.

(** C10, as it holds.  When the first block the proposed vertical move runs
    into is a falling one while the vertical velocity, after the jump and
    gravity, is not positive, the contact sets the velocity to the falling
    speed of the block and does not ground the player.  The floor test that
    follows is made with that velocity: if the player's lower edge would
    cross the floor line, the player is grounded after all, with velocity 0
    and no vertical move; otherwise the player ends the update with the
    falling speed as its velocity, its [grounded] flag as the jump left it,
    and moved down by the falling speed. *)
Theorem C10_jump_into_falling_block :
  (forall (fr : Frame.t) (blocks : list Tapioca.Block.t) (p : Tapioca.Player.t)
          (before : list Tapioca.Block.t) (block : Tapioca.Block.t)
          (after : list Tapioca.Block.t),
     let r := Tapioca.Player.rect (Tapioca.Player.walk fr blocks p) in
     let v := Tapioca.Player.vy (Tapioca.Player.jump fr p) + Tapioca.gravity in
     firstHit (fun b => Tapioca.Block.intersects b (RectF.set_y r (RectF.y r + v)))
              blocks before block after ->
     Tapioca.Block.isMoving block = true ->
     v <= 0 ->
     let p' := fst (fst (Tapioca.Player.update fr blocks p)) in
     (RectF.y r + RectF.h r + Tapioca.Block.fallingSpeed <= Tapioca.floorLine fr ->
      Tapioca.Player.vy p' = Tapioca.Block.fallingSpeed /\
      Tapioca.Player.grounded p' =
        Tapioca.Player.grounded (Tapioca.Player.jump fr p) /\
      Tapioca.Player.rect p' =
        RectF.set_y r (RectF.y r + Tapioca.Block.fallingSpeed)) /\
     (Tapioca.floorLine fr < RectF.y r + RectF.h r + Tapioca.Block.fallingSpeed ->
      Tapioca.Player.vy p' = 0 /\
      Tapioca.Player.grounded p' = true /\
      Tapioca.Player.rect p' = r)) /\
  (forall (fr : Frame.t) (blocks : list PyoroLike.Block.t) (p p' : PyoroLike.Player.t)
          (before : list PyoroLike.Block.t) (block : PyoroLike.Block.t)
          (after : list PyoroLike.Block.t),
     let r := PyoroLike.Player.rect (PyoroLike.Player.walk fr blocks p) in
     let v := PyoroLike.Player.vy (PyoroLike.Player.jump fr p) + PyoroLike.GRAVITY in
     firstHit (fun b => PyoroLike.Block.intersects b (RectF.set_y r (RectF.y r + v)))
              blocks before block after ->
     0 < PyoroLike.Block.speed block ->
     v <= 0 ->
     fst (PyoroLike.Player.update fr blocks p) = Some p' ->
     (RectF.y r + RectF.h r + PyoroLike.Block.speed block <= PyoroLike.floorLine fr ->
      PyoroLike.Player.vy p' = PyoroLike.Block.speed block /\
      PyoroLike.Player.grounded p' =
        PyoroLike.Player.grounded (PyoroLike.Player.jump fr p) /\
      PyoroLike.Player.rect p' =
        RectF.set_y r (RectF.y r + PyoroLike.Block.speed block)) /\
     (PyoroLike.floorLine fr < RectF.y r + RectF.h r + PyoroLike.Block.speed block ->
      PyoroLike.Player.vy p' = 0 /\
      PyoroLike.Player.grounded p' = true /\
      PyoroLike.Player.rect p' = r)).
Proof.
  split.
  - intros fr blocks p before block after. apply Tapioca_update_pushed_down.
  - intros fr blocks p p' before block after. apply PyoroLike_update_pushed_down.
Qed.

(** A concrete instance: in mid-air the rising player is sent down at the
    falling speed and is not grounded. *)
Lemma C10_jump_into_falling_block_witness :
  let p' := fst (fst (Tapioca.Player.update frame0 [fallen 100 99] C10_rising)) in
  Tapioca.Player.vy p' = Tapioca.Block.fallingSpeed /\
  Tapioca.Player.grounded p' = false /\
  Tapioca.Player.rect p' = RectF.set_y (RectF.mk 100 300 40 70) (300 + 3).
Proof.
  assert (Hfirst :
    firstHit
      (fun b => Tapioca.Block.intersects b
                  (RectF.set_y
                     (Tapioca.Player.rect
                        (Tapioca.Player.walk frame0 [fallen 100 99] C10_rising))
                     (RectF.y (Tapioca.Player.rect
                                 (Tapioca.Player.walk frame0 [fallen 100 99]
                                    C10_rising))
                      + (Tapioca.Player.vy (Tapioca.Player.jump frame0 C10_rising)
                         + Tapioca.gravity))))
      [fallen 100 99] [] (fallen 100 99) []).
  { split; [reflexivity|]. split; [intros b []|reflexivity]. }
  assert (Hv : Tapioca.Player.vy (Tapioca.Player.jump frame0 C10_rising)
               + Tapioca.gravity <= 0).
  { apply Qle_bool_iff. reflexivity. }
  apply (proj1 (proj1 C10_jump_into_falling_block frame0 [fallen 100 99] C10_rising
                  [] (fallen 100 99) [] Hfirst eq_refl Hv)).
  apply Qle_bool_iff. reflexivity.
Defined.

(** C10 as the specification words it fails: the player jumps from the floor
    into a falling block 9 pixels above its head.  The contact sets the
    velocity to the falling speed, with which the player would sink into the
    floor; the floor test therefore grounds the player again and cancels the
    move: the player ends the tick grounded, with velocity 0, where it
    was. *)
Lemma C10_counterexample :
  let r := Tapioca.Player.rect (Tapioca.Player.walk frameUp [fallen 100 147] playerOnFloor) in
  let v := Tapioca.Player.vy (Tapioca.Player.jump frameUp playerOnFloor) + Tapioca.gravity in
  let p' := fst (fst (Tapioca.Player.update frameUp [fallen 100 147] playerOnFloor)) in
  firstHit (fun b => Tapioca.Block.intersects b (RectF.set_y r (RectF.y r + v)))
           [fallen 100 147] [] (fallen 100 147) [] /\
  Tapioca.Block.isMoving (fallen 100 147) = true /\
  v <= 0 /\
  Tapioca.Player.grounded (Tapioca.Player.jump frameUp playerOnFloor) = false /\
  Tapioca.Player.grounded p' = true /\
  Tapioca.Player.vy p' == 0 /\
  ~ Tapioca.Player.vy p' == Tapioca.Block.fallingSpeed /\
  RectF.y (Tapioca.Player.rect p') == RectF.y (Tapioca.Player.rect playerOnFloor).
Proof.
  cbv zeta. split; [split; [reflexivity|]; split; [intros b []|reflexivity]|].
  split; [reflexivity|]. split; [apply Qle_bool_iff; reflexivity|].
  split; [reflexivity|]. split; [reflexivity|].
  split; [vm_compute; reflexivity|].
  split; [intros H; vm_compute in H; discriminate H|].
  vm_compute. reflexivity.
Qed.

(** ** What holds of the blocks throughout the [Playing] scene *)

(** A loop that was not left early has flagged no block. *)
Lemma updateBlocks_none_touching fr pending :
  forall updated result,
    Tapioca.PlayingScene.updateBlocks fr updated pending = (result, false) ->
    Forall (fun b => Tapioca.Block.isTouchingTop b = false) updated ->
    Forall (fun b => Tapioca.Block.isTouchingTop b = false) result.
Proof.
  induction pending as [|block rest IH]; intros updated result H Hu; simpl in H.
  - injection H as <-. exact Hu.
  - destruct (Tapioca.Block.isTouchingTop _) eqn:Et; [discriminate|].
    apply (IH _ _ H). apply Forall_app. split; [exact Hu|].
    constructor; [exact Et|constructor].
Qed.

(** While the game stays in the [Playing] scene no block of the vector is
    flagged [touchingTop]. *)
Lemma Playing_update_none_touching fr d sw :
  snd (Tapioca.PlayingScene.update fr d sw) = None ->
  Forall (fun b => Tapioca.Block.isTouchingTop b = false)
         (Tapioca.Data.blocks (fst (fst (Tapioca.PlayingScene.update fr d sw)))).
Proof.
  unfold Tapioca.PlayingScene.update. cbv zeta.
  destruct (Tapioca.PlayingScene.spawn fr sw _) as [blocks0 sw0].
  destruct (Tapioca.PlayingScene.updateBlocks fr [] blocks0) as [blocks1 top] eqn:Eu.
  destruct top; [discriminate|].
  pose proof (updateBlocks_none_touching fr blocks0 [] blocks1 Eu (Forall_nil _)) as H1.
  pose proof (Player_update_map Tapioca.Block.isTouchingTop fr blocks1
                (Tapioca.Data.player
                   (Tapioca.PlayingScene.set_blocks
                      (Tapioca.PlayingScene.set_stage d
                         (Tapioca.Stage.update fr (Tapioca.Data.stage d)))
                      blocks1))
                (fun b v => eq_refl)) as Hm.
  change (Tapioca.Data.blocks (Tapioca.PlayingScene.set_blocks _ blocks1))
    with blocks1.
  destruct (Tapioca.Player.update fr blocks1 _) as [[p blocks2] hit]. simpl in Hm.
  assert (H2 : Forall (fun b => Tapioca.Block.isTouchingTop b = false) blocks2).
  { apply (Forall_along Tapioca.Block.isTouchingTop (fun t => t = false) _ _ Hm H1). }
  destruct hit as [height|]; simpl;
    (destruct (Tapioca.Player.isDead p); [discriminate|]); simpl; intros _;
    apply Forall_kept; exact H2.
Qed.

(** With the 400 pixel wide window of [Main] (or a wider one) and a lane
    number between 0 and 7, the blocks stay between the left and the right
    edge of the window. *)
Lemma Playing_update_insideWindow fr d sw :
  (400 <= Frame.Window_Width fr)%Z ->
  (0 <= Frame.Random fr <= 7)%Z ->
  Forall (fun b => insideWindow fr (Tapioca.Block.rect b)) (Tapioca.Data.blocks d) ->
  Forall (fun b => insideWindow fr (Tapioca.Block.rect b))
         (Tapioca.Data.blocks (fst (fst (Tapioca.PlayingScene.update fr d sw)))).
Proof.
  intros HW HR Hd.
  assert (Hspawn : Forall (fun b => insideWindow fr (Tapioca.Block.rect b))
                     (fst (Tapioca.PlayingScene.spawn fr sw (Tapioca.Data.blocks d)))).
  { unfold Tapioca.PlayingScene.spawn. destruct (_ >? _)%Z; simpl; [|exact Hd].
    apply Forall_app. split; [exact Hd|]. constructor; [|constructor].
    unfold insideWindow, Tapioca.Block.make, Tapioca.Block.size,
      Tapioca.numBlocksX. simpl.
    rewrite inject_Z_mult.
    set (W := inject_Z (Frame.Window_Width fr)).
    set (R := inject_Z (Frame.Random fr)).
    assert (400 <= W) by (unfold W; rewrite <- (Zle_Qle 400); exact HW).
    assert (0 <= R) by (unfold R; rewrite <- (Zle_Qle 0); apply HR).
    assert (R <= 7) by (unfold R; rewrite <- (Zle_Qle _ 7); apply HR).
    assert (HRW : 0 <= R * W) by (apply Qmult_le_0_compat; lra).
    assert (HRW' : 0 <= (7 - R) * W) by (apply Qmult_le_0_compat; lra).
    change (inject_Z 8) with 8.
    split.
    - apply Qle_shift_div_l; lra.
    - assert (R * W / 8 <= W - 50); [|lra].
      apply Qle_shift_div_r; lra. }
  unfold Tapioca.PlayingScene.update. cbv zeta.
  change (Tapioca.Data.blocks
            (Tapioca.PlayingScene.set_stage d
               (Tapioca.Stage.update fr (Tapioca.Data.stage d))))
    with (Tapioca.Data.blocks d).
  destruct (Tapioca.PlayingScene.spawn fr sw (Tapioca.Data.blocks d))
    as [blocks0 sw0]. simpl in Hspawn.
  assert (H1 : Forall (fun b => insideWindow fr (Tapioca.Block.rect b))
                 (fst (Tapioca.PlayingScene.updateBlocks fr [] blocks0))).
  { apply updateBlocks_Forall; [|constructor|exact Hspawn].
    intros blocks this b Hb.
    destruct (Tapioca.Block.willCollide fr blocks this
                (Tapioca.Block.set_speed b Tapioca.Block.fallingSpeed)) eqn:Hc.
    - rewrite (Block_update_stop _ _ _ _ Hc). exact Hb.
    - rewrite (Block_update_fall _ _ _ _ Hc). exact Hb. }
  destruct (Tapioca.PlayingScene.updateBlocks fr [] blocks0) as [blocks1 top].
  simpl in H1. destruct top; [exact H1|].
  change (Tapioca.Data.blocks (Tapioca.PlayingScene.set_blocks _ blocks1))
    with blocks1.
  pose proof (Player_update_map Tapioca.Block.rect fr blocks1
                (Tapioca.Data.player
                   (Tapioca.PlayingScene.set_blocks
                      (Tapioca.PlayingScene.set_stage d
                         (Tapioca.Stage.update fr (Tapioca.Data.stage d)))
                      blocks1))
                (fun b v => eq_refl)) as Hm.
  destruct (Tapioca.Player.update fr blocks1 _) as [[p blocks2] hit]. simpl in Hm.
  assert (H2 : Forall (fun b => insideWindow fr (Tapioca.Block.rect b)) blocks2).
  { apply (Forall_along Tapioca.Block.rect (insideWindow fr) _ _ Hm H1). }
  destruct hit as [height|]; simpl;
    (destruct (Tapioca.Player.isDead p); [exact H2|]); simpl;
    apply Forall_kept; exact H2.
Qed.

(** * Further properties *)

(** ** Blocks never overlap *)

Lemma intersects_sym (a b : RectF.t) : RectF.intersects a b = RectF.intersects b a.
Proof.
  unfold RectF.intersects.
  destruct (Qltb (RectF.x a) _), (Qltb (RectF.x b) _),
           (Qltb (RectF.y a) _), (Qltb (RectF.y b) _); reflexivity.
Qed.

(** The vector with the block at one position replaced. *)
Lemma nth_error_replaced {B : Type} (before : list B) (x y : B) (after : list B) k :
  nth_error (before ++ x :: after) k =
  if Nat.eqb k (length before) then Some x
  else nth_error (before ++ y :: after) k.
Proof.
  destruct (Nat.eqb k (length before)) eqn:E.
  - apply Nat.eqb_eq in E. subst k.
    rewrite nth_error_app2, Nat.sub_diag by lia. reflexivity.
  - apply Nat.eqb_neq in E. destruct (Nat.lt_ge_cases k (length before)) as [Hlt|Hge].
    + rewrite !nth_error_app1 by exact Hlt. reflexivity.
    + rewrite !nth_error_app2 by exact Hge.
      destruct (k - length before)%nat as [|m] eqn:Em; [lia|reflexivity].
Qed.

(** One [Block::update] in a vector without overlaps leaves it without
    overlaps. *)
Lemma Block_update_disjoint fr before block after :
  disjointBlocks (before ++ block :: after) ->
  disjointBlocks
    (before ++ Tapioca.Block.update fr (before ++ block :: after)
                 (length before) block :: after).
Proof.
  intros Hd.
  set (V := before ++ block :: after) in *.
  set (block' := Tapioca.Block.update fr V (length before) block).
  assert (Hme : nth_error V (length before) = Some block).
  { unfold V. rewrite nth_error_app2, Nat.sub_diag by lia. reflexivity. }
  assert (Hfree : forall k other,
            k <> length before -> nth_error V k = Some other ->
            RectF.intersects (Tapioca.Block.rect block') (Tapioca.Block.rect other)
            = false).
  { intros k other Hk Hother. subst block'.
    destruct (Tapioca.Block.willCollide fr V (length before)
                (Tapioca.Block.set_speed block Tapioca.Block.fallingSpeed)) eqn:Hc.
    - rewrite (Block_update_stop _ _ _ _ Hc). simpl.
      apply (Hd (length before) k); auto.
    - rewrite (Block_update_fall _ _ _ _ Hc). simpl.
      apply not_true_iff_false. intros Hi.
      apply not_true_iff_false in Hc. apply Hc, willCollide_spec. right.
      exists k, other. auto. }
  intros i j bi bj Hij Hi Hj.
  rewrite (nth_error_replaced before block' block after) in Hi, Hj.
  fold V in Hi, Hj.
  destruct (Nat.eqb i (length before)) eqn:Ei;
    destruct (Nat.eqb j (length before)) eqn:Ej.
  - apply Nat.eqb_eq in Ei, Ej. lia.
  - injection Hi as <-. apply Nat.eqb_neq in Ej. apply (Hfree j); assumption.
  - injection Hj as <-. apply Nat.eqb_neq in Ei.
    rewrite intersects_sym. apply (Hfree i); assumption.
  - apply (Hd i j); assumption.
Qed.

Lemma updateBlocks_disjoint fr pending :
  forall updated,
    disjointBlocks (updated ++ pending) ->
    disjointBlocks (fst (Tapioca.PlayingScene.updateBlocks fr updated pending)).
Proof.
  induction pending as [|block rest IH]; intros updated Hd; simpl.
  - rewrite app_nil_r in Hd. exact Hd.
  - pose proof (Block_update_disjoint fr updated block rest Hd) as Hd'.
    destruct (Tapioca.Block.isTouchingTop _); simpl; [exact Hd'|].
    apply IH. rewrite <- app_assoc. exact Hd'.
Qed.

(** Blocks never overlap: the loop over the blocks of [Playing::update] takes
    a vector in which no two blocks intersect to such a vector again, however
    the loop is left.  A block only moves to a place that is free in the
    vector as it stands, the blocks before it having moved already. *)
Theorem updateBlocks_keeps_disjoint (fr : Frame.t) (blocks : list Tapioca.Block.t) :
  disjointBlocks blocks ->
  disjointBlocks (fst (Tapioca.PlayingScene.updateBlocks fr [] blocks)).
Proof.
  intros Hd. apply (updateBlocks_disjoint fr blocks []). exact Hd.
Qed.

(** Disjointness only depends on the rectangles, survives the removal of
    blocks and the arrival of a block that intersects none. *)
Lemma disjoint_along (l1 l2 : list Tapioca.Block.t) :
  map Tapioca.Block.rect l1 = map Tapioca.Block.rect l2 ->
  disjointBlocks l2 -> disjointBlocks l1.
Proof.
  intros Hm Hd i j bi bj Hij Hi Hj.
  assert (Hget : forall k b, nth_error l1 k = Some b ->
                 exists b2, nth_error l2 k = Some b2 /\
                            Tapioca.Block.rect b2 = Tapioca.Block.rect b).
  { intros k b Hk. apply (map_nth_error Tapioca.Block.rect) in Hk.
    rewrite Hm in Hk. rewrite nth_error_map in Hk.
    destruct (nth_error l2 k) as [b2|]; [|discriminate].
    injection Hk as Hk. exists b2. auto. }
  destruct (Hget i bi Hi) as (bi2 & Hi2 & <-).
  destruct (Hget j bj Hj) as (bj2 & Hj2 & <-).
  apply (Hd i j); assumption.
Qed.

Lemma filter_nth_pair {B : Type} (keep : B -> bool) (l : list B) :
  forall i j x y,
    (i < j)%nat ->
    nth_error (filter keep l) i = Some x -> nth_error (filter keep l) j = Some y ->
    exists k1 k2, (k1 < k2)%nat /\ nth_error l k1 = Some x /\ nth_error l k2 = Some y.
Proof.
  induction l as [|a l IH]; intros i j x y Hij Hi Hj; simpl in *.
  - destruct i; discriminate.
  - destruct (keep a).
    + destruct i as [|i]; destruct j as [|j]; try lia.
      * simpl in Hi, Hj. injection Hi as <-.
        apply nth_error_In, filter_In in Hj. destruct Hj as [Hin _].
        apply In_nth_error in Hin. destruct Hin as (k & Hk).
        exists 0%nat, (S k). repeat split; [lia | exact Hk].
      * simpl in Hi, Hj.
        destruct (IH i j x y ltac:(lia) Hi Hj) as (k1 & k2 & Hk & H1 & H2).
        exists (S k1), (S k2). repeat split; [lia | exact H1 | exact H2].
    + destruct (IH i j x y Hij Hi Hj) as (k1 & k2 & Hk & H1 & H2).
      exists (S k1), (S k2). repeat split; [lia | exact H1 | exact H2].
Qed.

Lemma disjoint_kept (keep : Tapioca.Block.t -> bool) (l : list Tapioca.Block.t) :
  disjointBlocks l -> disjointBlocks (filter keep l).
Proof.
  intros Hd i j bi bj Hij Hi Hj.
  destruct (Nat.lt_ge_cases i j) as [Hlt|Hge].
  - destruct (filter_nth_pair keep l i j bi bj Hlt Hi Hj) as (k1 & k2 & Hk & H1 & H2).
    apply (Hd k1 k2); [lia | exact H1 | exact H2].
  - destruct (filter_nth_pair keep l j i bj bi ltac:(lia) Hj Hi)
      as (k1 & k2 & Hk & H1 & H2).
    rewrite intersects_sym. apply (Hd k1 k2); [lia | exact H1 | exact H2].
Qed.

Lemma disjoint_arrival (l : list Tapioca.Block.t) (b : Tapioca.Block.t) :
  disjointBlocks l ->
  (forall other, In other l ->
     RectF.intersects (Tapioca.Block.rect b) (Tapioca.Block.rect other) = false) ->
  disjointBlocks (l ++ [b]).
Proof.
  intros Hd Hb i j bi bj Hij Hi Hj.
  assert (Hcase : forall k x, nth_error (l ++ [b]) k = Some x ->
            ((k < length l)%nat /\ nth_error l k = Some x) \/
            (k = length l /\ x = b)).
  { intros k x Hk. destruct (Nat.lt_ge_cases k (length l)) as [Hlt|Hge].
    - left. rewrite nth_error_app1 in Hk by exact Hlt. auto.
    - right. rewrite nth_error_app2 in Hk by exact Hge.
      destruct (k - length l)%nat as [|m] eqn:Em.
      + simpl in Hk. injection Hk as <-. split; [lia|reflexivity].
      + destruct m; discriminate. }
  destruct (Hcase i bi Hi) as [[Hil Hi']|[-> ->]];
    destruct (Hcase j bj Hj) as [[Hjl Hj']|[-> ->]].
  - apply (Hd i j); assumption.
  - rewrite intersects_sym. apply Hb. apply (nth_error_In _ _ Hi').
  - apply Hb. apply (nth_error_In _ _ Hj').
  - lia.
Qed.

(** Blocks never overlap, over a whole tick: [Playing::update] takes blocks
    of which no two intersect to such blocks again, provided that a block is
    only spawned when the blocks there are have all come down below the top
    edge of the window. *)
Theorem Playing_update_keeps_disjoint (fr : Frame.t) (d : Tapioca.Data.t)
    (sw : Stopwatch.t) :
  disjointBlocks (Tapioca.Data.blocks d) ->
  ((Stopwatch.ms (Frame.now fr) sw <= Tapioca.PlayingScene.blockFallIntervalms)%Z \/
   forall b, In b (Tapioca.Data.blocks d) -> 0 <= RectF.y (Tapioca.Block.rect b)) ->
  disjointBlocks
    (Tapioca.Data.blocks (fst (fst (Tapioca.PlayingScene.update fr d sw)))).
Proof.
  intros Hd Hspawn.
  assert (H0 : disjointBlocks
                 (fst (Tapioca.PlayingScene.spawn fr sw (Tapioca.Data.blocks d)))).
  { unfold Tapioca.PlayingScene.spawn.
    destruct (_ >? _)%Z eqn:E; simpl; [|exact Hd].
    destruct Hspawn as [Hms|Hy]; [apply Z.gtb_lt in E; lia|].
    apply disjoint_arrival; [exact Hd|].
    intros other Hin. apply not_true_iff_false. intros Hi.
    apply intersects_spec in Hi. destruct Hi as (_ & _ & _ & Hi).
    specialize (Hy other Hin). simpl in Hi.
    unfold Tapioca.Block.size in Hi. lra. }
  unfold Tapioca.PlayingScene.update. cbv zeta.
  change (Tapioca.Data.blocks
            (Tapioca.PlayingScene.set_stage d
               (Tapioca.Stage.update fr (Tapioca.Data.stage d))))
    with (Tapioca.Data.blocks d).
  destruct (Tapioca.PlayingScene.spawn fr sw (Tapioca.Data.blocks d))
    as [blocks0 sw0]. simpl in H0.
  pose proof (updateBlocks_disjoint fr blocks0 [] H0) as H1.
  destruct (Tapioca.PlayingScene.updateBlocks fr [] blocks0) as [blocks1 top].
  simpl in H1. destruct top; [exact H1|].
  change (Tapioca.Data.blocks (Tapioca.PlayingScene.set_blocks _ blocks1))
    with blocks1.
  pose proof (Player_update_map Tapioca.Block.rect fr blocks1
                (Tapioca.Data.player
                   (Tapioca.PlayingScene.set_blocks
                      (Tapioca.PlayingScene.set_stage d
                         (Tapioca.Stage.update fr (Tapioca.Data.stage d)))
                      blocks1))
                (fun b v => eq_refl)) as Hm.
  destruct (Tapioca.Player.update fr blocks1 _) as [[p blocks2] hit]. simpl in Hm.
  pose proof (disjoint_along blocks2 blocks1 Hm H1) as H2.
  destruct hit as [height|]; simpl;
    (destruct (Tapioca.Player.isDead p); [exact H2|]); simpl;
    apply disjoint_kept; exact H2.
Qed.

Lemma disjointb_sound (blocks : list Tapioca.Block.t) :
  disjointb blocks = true -> disjointBlocks blocks.
Proof.
  induction blocks as [|b rest IH]; intros H i j bi bj Hij Hi Hj.
  - destruct i; discriminate.
  - simpl in H. apply andb_true_iff in H. destruct H as [Hb Hrest].
    rewrite forallb_forall in Hb.
    destruct i as [|i]; destruct j as [|j]; simpl in Hi, Hj.
    + lia.
    + injection Hi as <-. apply negb_true_iff, Hb, (nth_error_In _ _ Hj).
    + injection Hj as <-. rewrite intersects_sym.
      apply negb_true_iff, Hb, (nth_error_In _ _ Hi).
    + apply (IH Hrest i j); auto.
Qed.

(** A concrete instance: the two stacked blocks that have lost their
    support. *)
Lemma updateBlocks_keeps_disjoint_witness :
  disjointBlocks (fst (Tapioca.PlayingScene.updateBlocks frame0 [] unsupportedStack)).
Proof.
  apply updateBlocks_keeps_disjoint. apply disjointb_sound. reflexivity.
Defined.

(** A concrete instance: the tick in which the egg destroys the lowest block
    of the stack; nothing is spawned in it. *)
Lemma Playing_update_keeps_disjoint_witness :
  disjointBlocks
    (Tapioca.Data.blocks
       (fst (fst (Tapioca.PlayingScene.update frame0 stackBeingHit Stopwatch.make)))).
Proof.
  apply Playing_update_keeps_disjoint.
  - apply disjointb_sound. reflexivity.
  - left. vm_compute. discriminate.
Defined.

(** ** What the egg does to the blocks *)

Lemma hitFirst_cases fr r blocks :
  Tapioca.Egg.hitFirst fr r blocks = (blocks, None) \/
  exists before hit after,
    blocks = before ++ hit :: after /\
    Tapioca.Egg.hitFirst fr r blocks =
    (before ++ Tapioca.Block.set_destroyed hit true :: after,
     Some (snd (Tapioca.Block.destroy fr hit))).
Proof.
  induction blocks as [|block rest IH]; simpl; [left; reflexivity|].
  destruct (Tapioca.Block.intersects block r).
  - right. exists [], block, rest. split; reflexivity.
  - destruct IH as [-> | (before & hit & after & -> & ->)].
    + left. reflexivity.
    + right. exists (block :: before), hit, after. split; reflexivity.
Qed.

Lemma Player_update_cases (fr : Frame.t)
    (blocks : list Tapioca.Block.t) (p : Tapioca.Player.t) :
  let blocks' := snd (fst (Tapioca.Player.update fr blocks p)) in
  let called := snd (Tapioca.Player.update fr blocks p) in
  (blocks' = blocks /\ called = None) \/
  exists before hit after,
    blocks = before ++ hit :: after /\
    blocks' = before ++ Tapioca.Block.set_destroyed hit true :: after /\
    called = Some (snd (Tapioca.Block.destroy fr hit)).
Proof.
  unfold Tapioca.Player.update, Tapioca.Player.updateEgg.
  destruct (Tapioca.Player.egg (Tapioca.Player.launch fr p)) as [e|];
    [|left; split; reflexivity].
  unfold Tapioca.Egg.update.
  break_ifs; simpl; try (left; split; reflexivity).
  match goal with
  | |- context [Tapioca.Egg.hitFirst fr ?r blocks] =>
      destruct (hitFirst_cases fr r blocks) as [-> | (before & hit & after & Hb & ->)]
  end.
  - left. split; reflexivity.
  - right. exists before, hit, after. simpl. auto.
Qed.

(** [Player::update] never moves, stops, adds or removes a block: it leaves
    the vector as it is and calls no hit callback, or it changes exactly one
    block, whose destroyed flag it sets and of which nothing else changes,
    and calls the hit callback exactly once, with the binary64 value of
    [1.0 - rect.y / Window::Height()] of that block. *)
Theorem Player_update_touches_one_block (fr : Frame.t)
    (blocks : list Tapioca.Block.t) (p : Tapioca.Player.t) :
  let blocks' := snd (fst (Tapioca.Player.update fr blocks p)) in
  let called := snd (Tapioca.Player.update fr blocks p) in
  (blocks' = blocks /\ called = None) \/
  exists before hit hit' after,
    blocks = before ++ hit :: after /\
    blocks' = before ++ hit' :: after /\
    Tapioca.Block.isDestroyed hit' = true /\
    Tapioca.Block.rect hit' = Tapioca.Block.rect hit /\
    Tapioca.Block.isMoving hit' = Tapioca.Block.isMoving hit /\
    Tapioca.Block.isTouchingTop hit' = Tapioca.Block.isTouchingTop hit /\
    Tapioca.Block.speed hit' = Tapioca.Block.speed hit /\
    called = Some (Double.sub (Double.finite 1)
                     (Double.div (Double.finite (RectF.y (Tapioca.Block.rect hit)))
                                 (Double.of_int (Frame.Window_Height fr)))).
Proof.
  destruct (Player_update_cases fr blocks p)
    as [H | (before & hit & after & Hb & Hb' & Hc)]; [left; exact H|].
  right. exists before, hit, (Tapioca.Block.set_destroyed hit true), after.
  repeat split; assumption.
Qed.

(** ** Removing destroyed blocks *)

Lemma filter_all {B : Type} (keep : B -> bool) (l : list B) :
  Forall (fun b => keep b = true) l -> filter keep l = l.
Proof.
  induction 1 as [|b l Hb _ IH]; simpl; [reflexivity|]. rewrite Hb, IH. reflexivity.
Qed.

Lemma Block_update_destroyed fr blocks this b :
  Tapioca.Block.isDestroyed (Tapioca.Block.update fr blocks this b) =
  Tapioca.Block.isDestroyed b.
Proof.
  destruct (Tapioca.Block.willCollide fr blocks this
              (Tapioca.Block.set_speed b Tapioca.Block.fallingSpeed)) eqn:Hc.
  - rewrite (Block_update_stop _ _ _ _ Hc). reflexivity.
  - rewrite (Block_update_fall _ _ _ _ Hc). reflexivity.
Qed.

Lemma visited_not_destroyed fr sw blocks :
  Forall (fun b => Tapioca.Block.isDestroyed b = false) blocks ->
  Forall (fun b => Tapioca.Block.isDestroyed b = false)
    (fst (Tapioca.PlayingScene.updateBlocks fr []
            (fst (Tapioca.PlayingScene.spawn fr sw blocks)))).
Proof.
  intros H. apply updateBlocks_Forall.
  - intros l this b Hb. rewrite Block_update_destroyed. exact Hb.
  - constructor.
  - unfold Tapioca.PlayingScene.spawn. destruct (_ >? _)%Z; simpl; [|exact H].
    apply Forall_app. split; [exact H|]. constructor; [reflexivity|constructor].
Qed.

Lemma Playing_update_removal fr d sw :
  Forall (fun b => Tapioca.Block.isDestroyed b = false) (Tapioca.Data.blocks d) ->
  snd (Tapioca.PlayingScene.update fr d sw) = None ->
  let d' := fst (fst (Tapioca.PlayingScene.update fr d sw)) in
  let visited :=
    fst (Tapioca.PlayingScene.updateBlocks fr []
           (fst (Tapioca.PlayingScene.spawn fr sw (Tapioca.Data.blocks d)))) in
  (Tapioca.Data.blocks d' = visited /\
   Tapioca.Data.score d' = Tapioca.Data.score d /\
   Tapioca.Data.highScore d' = Tapioca.Data.highScore d) \/
  (exists before hit after,
     visited = before ++ hit :: after /\
     Tapioca.Data.blocks d' = before ++ after /\
     Tapioca.Data.score d' = Int.wrap (Tapioca.Data.score d + hitScore fr hit) /\
     Tapioca.Data.highScore d' =
       Z.max (Tapioca.Data.score d') (Tapioca.Data.highScore d)).
Proof.
  intros Hd. pose proof (visited_not_destroyed fr sw _ Hd) as Hv.
  unfold Tapioca.PlayingScene.update. cbv zeta.
  change (Tapioca.Data.blocks
            (Tapioca.PlayingScene.set_stage d
               (Tapioca.Stage.update fr (Tapioca.Data.stage d))))
    with (Tapioca.Data.blocks d).
  destruct (Tapioca.PlayingScene.spawn fr sw (Tapioca.Data.blocks d))
    as [blocks0 sw0]. simpl in Hv. cbn [fst snd].
  destruct (Tapioca.PlayingScene.updateBlocks fr [] blocks0) as [blocks1 top].
  simpl in Hv. cbn [fst snd]. destruct top; [discriminate|].
  change (Tapioca.Data.blocks (Tapioca.PlayingScene.set_blocks _ blocks1))
    with blocks1.
  pose proof (Player_update_cases fr blocks1
                (Tapioca.Data.player
                   (Tapioca.PlayingScene.set_blocks
                      (Tapioca.PlayingScene.set_stage d
                         (Tapioca.Stage.update fr (Tapioca.Data.stage d)))
                      blocks1))) as Hcases.
  destruct (Tapioca.Player.update fr blocks1 _) as [[p blocks2] called].
  simpl in Hcases.
  assert (Hkeep : forall l,
            Forall (fun b => Tapioca.Block.isDestroyed b = false) l ->
            filter (fun block => negb (Tapioca.Block.isDestroyed block)) l = l).
  { intros l Hl. apply filter_all. apply Forall_forall. intros b Hin.
    rewrite Forall_forall in Hl. rewrite (Hl b Hin). reflexivity. }
  destruct Hcases as [[-> ->] | (before & hit & after & -> & -> & ->)]; simpl;
    (destruct (Tapioca.Player.isDead p); [discriminate|]); simpl; intros _.
  - left. rewrite (Hkeep _ Hv). repeat split.
  - right. exists before, hit, after.
    apply Forall_app in Hv. destruct Hv as [Hb Ha].
    inversion Ha as [|? ? _ Ha']; subst.
    rewrite filter_app. simpl. rewrite (Hkeep _ Hb), (Hkeep _ Ha').
    repeat split.
Qed.

(** A tick that stays in the [Playing] scene removes at most one block, the
    one the egg hit, keeps the others in their order, and scores for exactly
    that block: the score grows, in [int] arithmetic, by the [int] of the
    binary64 product [100.0 * (1.0 - rect.y / Window::Height())].  The
    blocks are those the loop left, the one spawned in this tick included.
    This is for blocks of which none is flagged destroyed when the tick
    starts, as is the case after every such tick. *)
Theorem Playing_update_removes_the_hit_block (fr : Frame.t) (d : Tapioca.Data.t)
    (sw : Stopwatch.t) :
  Forall (fun b => Tapioca.Block.isDestroyed b = false) (Tapioca.Data.blocks d) ->
  snd (Tapioca.PlayingScene.update fr d sw) = None ->
  let d' := fst (fst (Tapioca.PlayingScene.update fr d sw)) in
  let visited :=
    fst (Tapioca.PlayingScene.updateBlocks fr []
           (fst (Tapioca.PlayingScene.spawn fr sw (Tapioca.Data.blocks d)))) in
  Forall (fun b => Tapioca.Block.isDestroyed b = false) (Tapioca.Data.blocks d') /\
  ((Tapioca.Data.blocks d' = visited /\
    Tapioca.Data.score d' = Tapioca.Data.score d /\
    Tapioca.Data.highScore d' = Tapioca.Data.highScore d) \/
   (exists before hit after,
      visited = before ++ hit :: after /\
      Tapioca.Data.blocks d' = before ++ after /\
      Tapioca.Data.score d' = Int.wrap (Tapioca.Data.score d + hitScore fr hit) /\
      Tapioca.Data.highScore d' =
        Z.max (Tapioca.Data.score d') (Tapioca.Data.highScore d))).
Proof.
  intros Hd Hnext.
  pose proof (Playing_update_removal fr d sw Hd Hnext) as H.
  pose proof (visited_not_destroyed fr sw _ Hd) as Hv.
  cbv zeta in *. split; [|exact H].
  destruct H as [(-> & _) | (before & hit & after & Hvis & -> & _)]; [exact Hv|].
  rewrite Hvis in Hv. apply Forall_app in Hv. destruct Hv as [Hb Ha].
  inversion Ha; subst. apply Forall_app. auto.
Qed.

(** A concrete instance: the egg destroys the lowest block of the stack. *)
Lemma Playing_update_removes_the_hit_block_witness :
  Forall (fun b => Tapioca.Block.isDestroyed b = false)
    (Tapioca.Data.blocks
       (fst (fst (Tapioca.PlayingScene.update frame0 stackBeingHit Stopwatch.make)))).
Proof.
  apply (Playing_update_removes_the_hit_block frame0 stackBeingHit Stopwatch.make).
  - repeat constructor.
  - reflexivity.
Defined.

(** ** Lanes *)

Lemma Block_update_inLane fr blocks this b :
  inLane fr (Tapioca.Block.rect b) ->
  inLane fr (Tapioca.Block.rect (Tapioca.Block.update fr blocks this b)).
Proof.
  intros H.
  destruct (Tapioca.Block.willCollide fr blocks this
              (Tapioca.Block.set_speed b Tapioca.Block.fallingSpeed)) eqn:Hc.
  - rewrite (Block_update_stop _ _ _ _ Hc). exact H.
  - rewrite (Block_update_fall _ _ _ _ Hc). exact H.
Qed.

Lemma inLane_400 fr r :
  Frame.Window_Width fr = 400%Z ->
  inLane fr r ->
  exists lane : Z, (0 <= lane <= 7)%Z /\ RectF.x r == inject_Z (50 * lane).
Proof.
  intros HW (lane & Hl & Hx & _). exists lane. split; [exact Hl|].
  rewrite Hx, HW. unfold Tapioca.numBlocksX.
  rewrite !inject_Z_mult. change (inject_Z 8) with 8. field.
Qed.

(** Blocks keep to the lanes: with a lane number between 0 and 7, every block
    fills one of the eight lanes after [Playing::update] if it did before;
    the block spawned stands in the lane drawn, and at most one block is
    added.  In the 400 pixel wide window of [Main] the blocks are therefore
    50 wide and stand at x = 0, 50, ..., 350. *)
Theorem Playing_update_keeps_lanes (fr : Frame.t) (d : Tapioca.Data.t)
    (sw : Stopwatch.t) :
  (0 <= Frame.Random fr <= 7)%Z ->
  Forall (fun b => inLane fr (Tapioca.Block.rect b)) (Tapioca.Data.blocks d) ->
  let blocks' :=
    Tapioca.Data.blocks (fst (fst (Tapioca.PlayingScene.update fr d sw))) in
  Forall (fun b => inLane fr (Tapioca.Block.rect b)) blocks' /\
  (length blocks' <= length (Tapioca.Data.blocks d) + 1)%nat /\
  (Frame.Window_Width fr = 400%Z ->
   forall b, In b blocks' ->
     RectF.w (Tapioca.Block.rect b) = 50 /\
     exists lane : Z,
       (0 <= lane <= 7)%Z /\ RectF.x (Tapioca.Block.rect b) == inject_Z (50 * lane)).
Proof.
  intros HR Hd blocks'.
  assert (H : Forall (fun b => inLane fr (Tapioca.Block.rect b)) blocks' /\
              (length blocks' <= length (Tapioca.Data.blocks d) + 1)%nat).
  { subst blocks'.
    assert (H0 : Forall (fun b => inLane fr (Tapioca.Block.rect b))
                   (fst (Tapioca.PlayingScene.spawn fr sw (Tapioca.Data.blocks d)))
                 /\ (length (fst (Tapioca.PlayingScene.spawn fr sw
                                    (Tapioca.Data.blocks d)))
                     <= length (Tapioca.Data.blocks d) + 1)%nat).
    { unfold Tapioca.PlayingScene.spawn. destruct (_ >? _)%Z; simpl.
      - split; [|rewrite length_app; simpl; lia].
        apply Forall_app. split; [exact Hd|]. constructor; [|constructor].
        exists (Frame.Random fr). repeat split; apply HR.
      - split; [exact Hd|lia]. }
    unfold Tapioca.PlayingScene.update. cbv zeta.
    change (Tapioca.Data.blocks
              (Tapioca.PlayingScene.set_stage d
                 (Tapioca.Stage.update fr (Tapioca.Data.stage d))))
      with (Tapioca.Data.blocks d).
    destruct (Tapioca.PlayingScene.spawn fr sw (Tapioca.Data.blocks d))
      as [blocks0 sw0]. cbn [fst snd] in *. destruct H0 as [H0 Hlen0].
    pose proof (updateBlocks_Forall fr _ (fun l this b => Block_update_inLane fr l this b)
                  blocks0 [] (Forall_nil _) H0) as H1.
    destruct (updateBlocks_shape fr blocks0 [] _ _
                (surjective_pairing _)) as (_ & _ & _ & Hlen1 & _).
    destruct (Tapioca.PlayingScene.updateBlocks fr [] blocks0) as [blocks1 top].
    cbn [fst snd length] in *. destruct top; [split; [exact H1|simpl; lia]|].
    change (Tapioca.Data.blocks (Tapioca.PlayingScene.set_blocks _ blocks1))
      with blocks1.
    pose proof (Player_update_map Tapioca.Block.rect fr blocks1
                  (Tapioca.Data.player
                     (Tapioca.PlayingScene.set_blocks
                        (Tapioca.PlayingScene.set_stage d
                           (Tapioca.Stage.update fr (Tapioca.Data.stage d)))
                        blocks1))
                  (fun b v => eq_refl)) as Hm.
    destruct (Tapioca.Player.update fr blocks1 _) as [[p blocks2] hit].
    cbn [fst snd] in Hm.
    pose proof (Forall_along Tapioca.Block.rect (inLane fr) _ _ Hm H1) as H2.
    assert (Hlen2 : length blocks2 = length blocks1).
    { rewrite <- (length_map Tapioca.Block.rect blocks2), Hm. apply length_map. }
    pose proof (filter_length_le
                  (fun block => negb (Tapioca.Block.isDestroyed block)) blocks2) as Hf.
    destruct hit as [height|]; simpl;
      (destruct (Tapioca.Player.isDead p); simpl;
       [split; [exact H2|lia] | split; [apply Forall_kept; exact H2|lia]]). }
  destruct H as [Hl Hlen]. split; [exact Hl|]. split; [exact Hlen|].
  intros HW b Hin. rewrite Forall_forall in Hl. specialize (Hl b Hin).
  split; [destruct Hl as (lane & _ & _ & Hw & _); exact Hw|].
  apply (inLane_400 fr _ HW Hl).
Qed.

(** A concrete instance: a tick in which a block is spawned in the fourth
    lane above the stack. *)
Lemma Playing_update_keeps_lanes_witness :
  Forall (fun b => inLane frameLane3 (Tapioca.Block.rect b))
    (Tapioca.Data.blocks
       (fst (fst (Tapioca.PlayingScene.update frameLane3 stackBeingHit
                    (Stopwatch.restart (-600) Stopwatch.make))))).
Proof.
  apply (Playing_update_keeps_lanes frameLane3 stackBeingHit
           (Stopwatch.restart (-600) Stopwatch.make)).
  - simpl. lia.
  - repeat constructor; exists 2%Z; repeat split; simpl; lia.
Defined.

(** ** Scenes *)

(** The scenes follow one another as Title, Playing, GameOver, Playing, ...:
    the title waits for Z and the game-over screen for R, changing nothing
    until then, and the game itself goes on or ends; it never goes back to
    the title and never starts anew by itself. *)
Theorem App_update_transitions (fr : Frame.t) (a : Tapioca.App.t) :
  let a' := Tapioca.App.update fr a in
  match Tapioca.App.state a with
  | Tapioca.Title =>
      if Frame.KeyZ_down fr then Tapioca.App.state a' = Tapioca.Playing else a' = a
  | Tapioca.GameOver =>
      if Frame.KeyR_down fr then Tapioca.App.state a' = Tapioca.Playing else a' = a
  | Tapioca.Playing =>
      Tapioca.App.state a' = Tapioca.Playing \/
      Tapioca.App.state a' = Tapioca.GameOver
  end.
Proof.
  unfold Tapioca.App.state at 1, Tapioca.App.update.
  destruct (Tapioca.App.current a) as [|sw|] eqn:Hc.
  - destruct (Frame.KeyZ_down fr); reflexivity.
  - destruct (Playing_update_next fr (Tapioca.App.data a) sw) as [H|H];
      destruct (Tapioca.PlayingScene.update fr (Tapioca.App.data a) sw)
        as [[d sw'] next]; simpl in H; subst next; [left|right]; reflexivity.
  - destruct (Frame.KeyR_down fr); reflexivity.
Qed.

Lemma updateBlocks_flagged fr pending :
  forall updated,
    snd (Tapioca.PlayingScene.updateBlocks fr updated pending) = true ->
    exists b, In b (fst (Tapioca.PlayingScene.updateBlocks fr updated pending)) /\
              Tapioca.Block.isTouchingTop b = true.
Proof.
  induction pending as [|block rest IH]; intros updated; simpl; [discriminate|].
  destruct (Tapioca.Block.isTouchingTop _) eqn:Et; simpl.
  - intros _. eexists. split; [|exact Et]. apply in_elt.
  - apply IH.
Qed.

Lemma Playing_update_ends fr d sw :
  let d' := fst (fst (Tapioca.PlayingScene.update fr d sw)) in
  snd (Tapioca.PlayingScene.update fr d sw) = Some Tapioca.GameOver <->
  (exists b, In b (Tapioca.Data.blocks d') /\ Tapioca.Block.isTouchingTop b = true) \/
  Tapioca.Player.isDead (Tapioca.Data.player d') = true.
Proof.
  intros d'. subst d'.
  pose proof (Playing_update_none_touching fr d sw) as Hnone.
  revert Hnone.
  unfold Tapioca.PlayingScene.update. cbv zeta.
  destruct (Tapioca.PlayingScene.spawn fr sw _) as [blocks0 sw0].
  pose proof (updateBlocks_flagged fr blocks0 []) as Hflag.
  destruct (Tapioca.PlayingScene.updateBlocks fr [] blocks0) as [blocks1 top].
  cbn [fst snd] in Hflag.
  destruct top.
  - intros _. simpl. split; [|reflexivity]. intros _. left. apply Hflag. reflexivity.
  - change (Tapioca.Data.blocks (Tapioca.PlayingScene.set_blocks _ blocks1))
      with blocks1.
    destruct (Tapioca.Player.update fr blocks1 _) as [[p blocks2] hit].
    destruct hit as [height|]; simpl;
      (destruct (Tapioca.Player.isDead p) eqn:Edead; simpl; intros Hnone;
       [ split; [intros _; right; exact Edead | reflexivity]
       | split; [discriminate|];
         intros [(b & Hin & Hb) | Hdead]; [|simpl in Hdead; congruence];
         specialize (Hnone eq_refl); rewrite Forall_forall in Hnone;
         rewrite (Hnone b Hin) in Hb; discriminate Hb ]).
Qed.

(** A game ends exactly when, after [Playing::update], a block of the vector
    is flagged as touching the top or the player is dead; otherwise it goes
    on, with no block flagged. *)
Theorem game_over_iff_top_or_dead (fr : Frame.t) (a : Tapioca.App.t) :
  Tapioca.App.state a = Tapioca.Playing ->
  let d' := Tapioca.App.data (Tapioca.App.update fr a) in
  let ended :=
    (exists b, In b (Tapioca.Data.blocks d') /\ Tapioca.Block.isTouchingTop b = true) \/
    Tapioca.Player.isDead (Tapioca.Data.player d') = true in
  (Tapioca.App.state (Tapioca.App.update fr a) = Tapioca.GameOver <-> ended) /\
  (Tapioca.App.state (Tapioca.App.update fr a) = Tapioca.Playing <-> ~ ended).
Proof.
  unfold Tapioca.App.state at 1.
  destruct (Tapioca.App.current a) as [|sw|] eqn:Hc; try discriminate.
  intros _. cbv zeta.
  rewrite (App_update_Playing fr a sw Hc).
  pose proof (Playing_update_ends fr (Tapioca.App.data a) sw) as He.
  cbv zeta in He.
  assert (Hs : Tapioca.App.state (Tapioca.App.update fr a) =
               match snd (Tapioca.PlayingScene.update fr (Tapioca.App.data a) sw) with
               | Some _ => Tapioca.GameOver
               | None => Tapioca.Playing
               end).
  { unfold Tapioca.App.update. rewrite Hc.
    destruct (Playing_update_next fr (Tapioca.App.data a) sw) as [H|H];
      destruct (Tapioca.PlayingScene.update fr (Tapioca.App.data a) sw)
        as [[d sw'] next]; simpl in H; subst next; reflexivity. }
  rewrite Hs.
  destruct (Playing_update_next fr (Tapioca.App.data a) sw) as [H|H]; rewrite H in *.
  - split.
    + rewrite <- He. split; discriminate.
    + rewrite <- He. split; [discriminate | reflexivity].
  - split.
    + rewrite <- He. split; reflexivity.
    + rewrite <- He. split; [discriminate|]. intros Hn. exfalso. apply Hn. reflexivity.
Qed.

(** A concrete instance: the falling block has reached the head of the
    player on the floor, who is crushed. *)
Lemma game_over_iff_top_or_dead_witness :
  Tapioca.App.state (Tapioca.App.update frame0 crushing) = Tapioca.GameOver.
Proof.
  apply (proj1 (game_over_iff_top_or_dead frame0 crushing eq_refl)).
  right. reflexivity.
Defined.

(** ** Eggs in flight *)

Lemma inject_nat_succ (k : nat) :
  inject_Z (Z.of_nat (S k)) == inject_Z (Z.of_nat k) + 1.
Proof. rewrite Nat2Z.inj_succ, <- Z.add_1_r, inject_Z_plus. reflexivity. Qed.

(** One update of an egg in free flight. *)
Lemma Egg_update_flight fr e :
  Tapioca.Egg.explosionAnim e = Tapioca.Animation.make 0 2 100 false false ->
  0 < RectF.x (Tapioca.Egg.rect e) + RectF.w (Tapioca.Egg.rect e) ->
  RectF.x (Tapioca.Egg.rect e) <= inject_Z (Frame.Window_Width fr) ->
  fst (fst (Tapioca.Egg.update fr [] e)) =
  Tapioca.Egg.mk
    (RectF.mk
       (RectF.x (Tapioca.Egg.rect e) + Vec2.x (Tapioca.Egg.velocity e))
       (RectF.y (Tapioca.Egg.rect e)
        + (Vec2.y (Tapioca.Egg.velocity e) + Tapioca.gravity))
       (RectF.w (Tapioca.Egg.rect e)) (RectF.h (Tapioca.Egg.rect e)))
    (Vec2.mk (Vec2.x (Tapioca.Egg.velocity e))
             (Vec2.y (Tapioca.Egg.velocity e) + Tapioca.gravity))
    (Tapioca.Egg.destroyed e)
    (Tapioca.Egg.explosionAnim e).
Proof.
  intros Ha H0 HW. destruct e as [r v dd a]. simpl in *. subst a.
  unfold Tapioca.Egg.update. simpl.
  apply Qleb_gt in H0. apply Qgtb_le in HW. rewrite H0, HW. reflexivity.
Qed.

(** An egg in free flight follows a parabola: as long as it has not left the
    window sideways and meets no block, after [n] updates it has moved [n]
    times its horizontal velocity sideways, its vertical velocity has grown
    by [n] times the gravity, and it has moved down by
    [n * vy + gravity * n * (n + 1) / 2]. *)
Theorem Egg_free_flight (W : Z) (frames : list Frame.t) (e : Tapioca.Egg.t) :
  Tapioca.Egg.explosionAnim e = Tapioca.Animation.make 0 2 100 false false ->
  (forall fr, In fr frames -> Frame.Window_Width fr = W) ->
  (forall k : nat,
     (k < length frames)%nat ->
     let x := RectF.x (Tapioca.Egg.rect e)
              + inject_Z (Z.of_nat k) * Vec2.x (Tapioca.Egg.velocity e) in
     0 < x + RectF.w (Tapioca.Egg.rect e) /\ x <= inject_Z W) ->
  let n := inject_Z (Z.of_nat (length frames)) in
  let e' := Egg_fly frames e in
  RectF.x (Tapioca.Egg.rect e') ==
    RectF.x (Tapioca.Egg.rect e) + n * Vec2.x (Tapioca.Egg.velocity e) /\
  RectF.y (Tapioca.Egg.rect e') ==
    RectF.y (Tapioca.Egg.rect e) + n * Vec2.y (Tapioca.Egg.velocity e)
    + Tapioca.gravity * n * (n + 1) / 2 /\
  Vec2.x (Tapioca.Egg.velocity e') = Vec2.x (Tapioca.Egg.velocity e) /\
  Vec2.y (Tapioca.Egg.velocity e') ==
    Vec2.y (Tapioca.Egg.velocity e) + n * Tapioca.gravity /\
  Tapioca.Egg.explosionAnim e' = Tapioca.Egg.explosionAnim e /\
  Tapioca.Egg.isDestroyed e' = Tapioca.Egg.isDestroyed e.
Proof.
  revert e. induction frames as [|fr frames IH]; intros e Ha HW Hin n e'.
  - subst n e'. simpl. repeat split; try reflexivity; field.
  - subst n e'. unfold Egg_fly. simpl fold_left.
    destruct (Hin 0%nat ltac:(simpl; lia)) as [H0 H1]. simpl in H0, H1.
    rewrite (Egg_update_flight fr e Ha).
    2: { rewrite Qmult_0_l, Qplus_0_r in H0. exact H0. }
    2: { rewrite (HW fr (or_introl eq_refl)).
         rewrite Qmult_0_l, Qplus_0_r in H1. exact H1. }
    match goal with
    | |- context [fold_left _ frames ?e1] => set (e1' := e1)
    end.
    specialize (IH e1' Ha (fun f Hf => HW f (or_intror Hf))).
    assert (Hin' : forall k : nat,
              (k < length frames)%nat ->
              let x := RectF.x (Tapioca.Egg.rect e1')
                       + inject_Z (Z.of_nat k) * Vec2.x (Tapioca.Egg.velocity e1') in
              0 < x + RectF.w (Tapioca.Egg.rect e1') /\ x <= inject_Z W).
    { intros k Hk. specialize (Hin (S k) ltac:(simpl; lia)). cbv zeta in *.
      simpl. rewrite inject_nat_succ in Hin.
      destruct Hin as [Ha1 Ha2]. split; lra. }
    specialize (IH Hin'). cbv zeta in IH. fold (Egg_fly frames e1') in *.
    destruct IH as (Hx & Hy & Hvx & Hvy & Hanim & Hdes).
    simpl in Hx, Hy, Hvx, Hvy, Hanim, Hdes.
    change (length (fr :: frames)) with (S (length frames)).
    rewrite inject_nat_succ.
    set (m := inject_Z (Z.of_nat (length frames))) in *.
    repeat split.
    + rewrite Hx. ring.
    + rewrite Hy. field.
    + exact Hvx.
    + rewrite Hvy. ring.
    + exact Hanim.
    + exact Hdes.
Qed.

(** A concrete instance: three ticks of the egg thrown to the right from
    (120, 450). *)
Lemma Egg_free_flight_witness :
  let e' := Egg_fly [frame0; frame0; frame0] C5_egg in
  RectF.x (Tapioca.Egg.rect e') == 95 + 3 * 20 /\
  RectF.y (Tapioca.Egg.rect e') == 437.5 + 3 * (-20) + 1.5 * 3 * (3 + 1) / 2.
Proof.
  destruct (Egg_free_flight 400 [frame0; frame0; frame0] C5_egg) as (Hx & Hy & _).
  - reflexivity.
  - intros fr [<-|[<-|[<-|[]]]]; reflexivity.
  - intros k Hk. simpl in Hk.
    destruct k as [|[|[|k]]]; [| | |lia];
      split; apply Qlt_alt || apply Qle_bool_iff; reflexivity.
  - split; [rewrite Hx | rewrite Hy]; reflexivity.
Defined.

(** ** Eggs that have exploded *)

Lemma exploding_stays_inert ticks :
  forall e, exploding e -> Egg_inert ticks e.
Proof.
  induction ticks as [|[fr blocks] ticks IH]; intros e He; simpl; [exact I|].
  destruct (exploding_inert fr blocks e He) as (Hb & Hc & Hr & _ & Hnext).
  repeat split; try assumption.
  destruct Hnext as [Hd|He']; [left; exact Hd | right; apply IH; exact He'].
Qed.

(** An egg that has left the window sideways explodes where it is: the
    update in which [Egg::update] finds it outside and all later ones, up to
    the one that flags it destroyed, leave the blocks alone, call no hit
    callback and do not move the egg, even if it overlaps a block. *)
Theorem egg_outside_is_spent (fr : Frame.t) (blocks : list Tapioca.Block.t)
    (e : Tapioca.Egg.t) (ticks : list (Frame.t * list Tapioca.Block.t)) :
  Tapioca.Egg.explosionAnim e = Tapioca.Animation.make 0 2 100 false false ->
  RectF.x (Tapioca.Egg.rect e) + RectF.w (Tapioca.Egg.rect e) <= 0 \/
  inject_Z (Frame.Window_Width fr) < RectF.x (Tapioca.Egg.rect e) ->
  Egg_inert ((fr, blocks) :: ticks) e.
Proof.
  intros Ha Hout. destruct e as [r v dd a]. simpl in Ha, Hout. subst a.
  assert (Hb : Qleb (RectF.x r + RectF.w r) 0
               || Qgtb (RectF.x r) (inject_Z (Frame.Window_Width fr)) = true).
  { apply orb_true_iff. destruct Hout as [H|H];
      [left; apply Qleb_le | right; apply Qgtb_gt]; exact H. }
  simpl. unfold Tapioca.Egg.update. simpl. rewrite Hb. simpl.
  repeat split. right. apply exploding_stays_inert.
  unfold exploding. simpl. repeat split; auto.
Qed.

(** A concrete instance: an egg that has flown out on the right, over three
    ticks 120 ms apart, the second with a block in the last lane. *)
Lemma egg_outside_is_spent_witness :
  Egg_inert
    [(frame0, []);
     (Frame.mk 400 600 false false false false false 120 0, [fallen 350 100]);
     (Frame.mk 400 600 false false false false false 240 0, [])]
    (Tapioca.Egg.mk (RectF.mk 415 250 50 50) (Vec2.mk 20 4) false
       (Tapioca.Animation.make 0 2 100 false false)).
Proof.
  apply egg_outside_is_spent; [reflexivity|].
  right. apply Qlt_alt. reflexivity.
Defined.

(** No egg hits twice: after an update in which an egg has hit a block (the
    hit callback was called), no later update of that egg changes the
    blocks, calls a hit callback or moves the egg. *)
Theorem egg_hits_once (fr : Frame.t) (blocks : list Tapioca.Block.t)
    (e : Tapioca.Egg.t) (ticks : list (Frame.t * list Tapioca.Block.t)) :
  Tapioca.Egg.explosionAnim e = Tapioca.Animation.make 0 2 100 false false ->
  snd (Tapioca.Egg.update fr blocks e) <> None ->
  Egg_inert ticks (fst (fst (Tapioca.Egg.update fr blocks e))).
Proof.
  intros Ha Hcalled. destruct e as [r v dd a]. simpl in Ha. subst a.
  revert Hcalled. unfold Tapioca.Egg.update. simpl.
  destruct (_ || _); simpl; [intros H; exfalso; apply H; reflexivity|].
  destruct (Tapioca.Egg.hitFirst fr r blocks) as [blocks' [height|]]; simpl;
    [|intros H; exfalso; apply H; reflexivity].
  intros _. apply exploding_stays_inert.
  unfold exploding. simpl. repeat split; auto.
Qed.

(** A concrete instance: the egg that reaches the stack, followed over two
    more ticks. *)
Lemma egg_hits_once_witness :
  Egg_inert
    [(Frame.mk 400 600 false false false false false 17 0, C5_blocks);
     (Frame.mk 400 600 false false false false false 130 0, C5_blocks)]
    (fst (fst (Tapioca.Egg.update frame0 C5_blocks C5_egg))).
Proof.
  apply egg_hits_once; [reflexivity|]. vm_compute. discriminate.
Defined.

(** ** Animations *)

Lemma Animation_call_in_range a c :
  (0 < Tapioca.Animation.texAssets_size a < 2 ^ 64)%Z ->
  (0 <= Tapioca.Animation.idx a < Tapioca.Animation.texAssets_size a)%Z ->
  let a' := Animation_call a c in
  Tapioca.Animation.texAssets_size a' = Tapioca.Animation.texAssets_size a /\
  Tapioca.Animation.looped a' = Tapioca.Animation.looped a /\
  (0 <= Tapioca.Animation.idx a' < Tapioca.Animation.texAssets_size a)%Z /\
  (Tapioca.Animation.looped a = false ->
   Tapioca.Animation.idx a <= Tapioca.Animation.idx a')%Z.
Proof.
  intros Hs Hi. destruct c as [now|now|now]; simpl.
  - repeat split; lia.
  - repeat split; lia.
  - unfold Tapioca.Animation.update, Tapioca.Animation.last_idx.
    rewrite (Z.mod_small (Tapioca.Animation.texAssets_size a - 1)) by lia.
    destruct (Timer.reachedZero now _); [|repeat split; lia].
    destruct (Tapioca.Animation.looped a) eqn:El; simpl.
    + pose proof (Z.mod_pos_bound (Tapioca.Animation.idx a + 1)
                    (Tapioca.Animation.texAssets_size a) ltac:(lia)).
      repeat split; try lia; try discriminate.
    + destruct (_ <? _)%Z eqn:Elt; simpl.
      * apply Z.ltb_lt in Elt. repeat split; lia.
      * repeat split; lia.
Qed.

(** [Animation::get] never throws: an animation constructed with at least
    one texture keeps its index below the number of textures through any
    sequence of [start], [stop] and [update], so [texAssets.at(idx)] always
    finds a texture. *)
Theorem Animation_get_total (now : Z) (textures intervals : Z)
    (looped immediatelyStarted : bool) (calls : list AnimationCall) :
  (0 < textures < 2 ^ 64)%Z ->
  let a := fold_left Animation_call calls
             (Tapioca.Animation.make now textures intervals looped
                immediatelyStarted) in
  exists i, Animation_get a = Some i /\ (0 <= i < textures)%Z.
Proof.
  intros Ht a.
  assert (H : forall a0,
            Tapioca.Animation.texAssets_size a0 = textures ->
            (0 <= Tapioca.Animation.idx a0 < textures)%Z ->
            let a1 := fold_left Animation_call calls a0 in
            Tapioca.Animation.texAssets_size a1 = textures /\
            (0 <= Tapioca.Animation.idx a1 < textures)%Z).
  { induction calls as [|c calls IH]; intros a0 Hs Hi; simpl; [auto|].
    destruct (Animation_call_in_range a0 c) as (Hs' & _ & Hi' & _);
      [rewrite Hs; exact Ht | rewrite Hs; exact Hi |].
    apply IH; [rewrite Hs'; exact Hs | rewrite Hs in Hi'; exact Hi']. }
  destruct (H (Tapioca.Animation.make now textures intervals looped
                 immediatelyStarted)) as [Hs Hi].
  - unfold Tapioca.Animation.make. destruct immediatelyStarted; reflexivity.
  - unfold Tapioca.Animation.make. destruct immediatelyStarted; simpl; lia.
  - fold a in Hs, Hi. exists (Tapioca.Animation.idx a). split; [|exact Hi].
    unfold Animation_get. rewrite Hs.
    destruct Hi as [H0 H1]. apply Z.leb_le in H0. apply Z.ltb_lt in H1.
    rewrite H0, H1. reflexivity.
Qed.

(** A concrete instance: the explosion of an egg, started and updated. *)
Lemma Animation_get_total_witness :
  exists i,
    Animation_get
      (fold_left Animation_call [CallStart 0; CallUpdate 120; CallUpdate 240]
         (Tapioca.Animation.make 0 2 100 false false)) = Some i /\
    (0 <= i < 2)%Z.
Proof.
  apply (Animation_get_total 0 2 100 false false
           [CallStart 0; CallUpdate 120; CallUpdate 240]).
  lia.
Defined.

(** ** The player in the air and on the floor *)

Lemma Tapioca_free_fall fr blocks q :
  (forall b, In b blocks ->
     Tapioca.Block.intersects b
       (RectF.set_y (Tapioca.Player.rect q)
          (RectF.y (Tapioca.Player.rect q)
           + (Tapioca.Player.vy q + Tapioca.gravity))) = false) ->
  let p' :=
    let (q', touching) := Tapioca.Player.contact blocks q in
    Tapioca.Player.crush blocks (Tapioca.Player.land fr touching q') in
  let r := Tapioca.Player.rect q in
  let v := Tapioca.Player.vy q + Tapioca.gravity in
  (RectF.y r + RectF.h r + v <= Tapioca.floorLine fr ->
   Tapioca.Player.vy p' = v /\
   Tapioca.Player.grounded p' = Tapioca.Player.grounded q /\
   Tapioca.Player.rect p' = RectF.set_y r (RectF.y r + v)) /\
  (Tapioca.floorLine fr < RectF.y r + RectF.h r + v ->
   Tapioca.Player.vy p' = 0 /\
   Tapioca.Player.grounded p' = true /\
   Tapioca.Player.rect p' = r).
Proof.
  intros Hfree. apply existsb_false in Hfree.
  assert (Hfind : find (fun block => Tapioca.Block.intersects block
                          (RectF.set_y (Tapioca.Player.rect q)
                             (RectF.y (Tapioca.Player.rect q)
                              + (Tapioca.Player.vy q + Tapioca.gravity)))) blocks
                  = None).
  { destruct (find _ blocks) as [b|] eqn:Ef; [|reflexivity].
    apply find_some in Ef. destruct Ef as [Hin Hb].
    rewrite <- not_true_iff_false, existsb_exists in Hfree.
    exfalso. apply Hfree. exists b. auto. }
  unfold Tapioca.Player.contact. simpl. rewrite Hfind. cbv zeta.
  match goal with
  | |- context [Tapioca.Player.crush blocks ?x] =>
      destruct (crush_spec blocks x) as (Hr & Hg & Hvy & _)
  end.
  rewrite Hr, Hg, Hvy. clear Hr Hg Hvy.
  unfold Tapioca.Player.land. simpl. split.
  - intros Hfloor. apply Qgtb_le in Hfloor. rewrite Hfloor. simpl. auto.
  - intros Hfloor. apply Qgtb_gt in Hfloor. rewrite Hfloor. simpl.
    rewrite Qplus_0_same. repeat split.
    destruct (Tapioca.Player.rect q). reflexivity.
Qed.

(** The player in the air: when the proposed vertical move, by the velocity
    after the jump and gravity, runs into no block, the player makes that
    move and keeps that velocity, unless its lower edge would cross the floor
    line; then it is grounded with velocity 0 and stays where it is.  In
    particular the player ends the update above the floor line if it was, and
    a jump from the ground lifts it by the jump speed less the gravity. *)
Theorem player_free_fall (fr : Frame.t) (blocks : list Tapioca.Block.t)
    (p : Tapioca.Player.t) :
  let r := Tapioca.Player.rect (Tapioca.Player.walk fr blocks p) in
  let v := Tapioca.Player.vy (Tapioca.Player.jump fr p) + Tapioca.gravity in
  (forall b, In b blocks ->
     Tapioca.Block.intersects b (RectF.set_y r (RectF.y r + v)) = false) ->
  let p' := fst (fst (Tapioca.Player.update fr blocks p)) in
  (RectF.y r + RectF.h r + v <= Tapioca.floorLine fr ->
   Tapioca.Player.vy p' = v /\
   Tapioca.Player.grounded p' = Tapioca.Player.grounded (Tapioca.Player.jump fr p) /\
   Tapioca.Player.rect p' = RectF.set_y r (RectF.y r + v)) /\
  (Tapioca.floorLine fr < RectF.y r + RectF.h r + v ->
   Tapioca.Player.vy p' = 0 /\
   Tapioca.Player.grounded p' = true /\
   Tapioca.Player.rect p' = r) /\
  (RectF.y r + RectF.h r <= Tapioca.floorLine fr ->
   RectF.y (Tapioca.Player.rect p') + RectF.h (Tapioca.Player.rect p')
   <= Tapioca.floorLine fr) /\
  (Tapioca.Player.grounded p = true -> Frame.KeyUp_down fr = true ->
   RectF.y r + RectF.h r <= Tapioca.floorLine fr ->
   Tapioca.Player.grounded p' = false /\
   Tapioca.Player.vy p' = - Tapioca.Player.jumpSpeed + Tapioca.gravity).
Proof.
  intros r v Hfree p'. subst p'.
  pose proof (Player_update_map Tapioca.Block.rect fr blocks p
                (fun b v => eq_refl)) as Hm.
  destruct (Tapioca_egg_phases fr blocks p) as (Hr1 & Hv1 & Hg1).
  unfold Tapioca.Player.update in *.
  destruct (Tapioca.Player.updateEgg fr blocks (Tapioca.Player.launch fr p))
    as [[p1 blocks1] hit]. simpl in Hm, Hr1, Hv1, Hg1. simpl.
  destruct (Tapioca_before_contact fr blocks blocks1 p p1 Hr1 Hv1 Hg1 Hm)
    as (Hqr & Hqv & Hqg).
  set (q := Tapioca.Player.jump fr (Tapioca.Player.walk fr blocks1 p1)) in *.
  fold r in Hqr.
  assert (Hfree1 : forall b, In b blocks1 ->
            Tapioca.Block.intersects b
              (RectF.set_y (Tapioca.Player.rect q)
                 (RectF.y (Tapioca.Player.rect q)
                  + (Tapioca.Player.vy q + Tapioca.gravity))) = false).
  { rewrite Hqr, Hqv. fold v. intros b1 Hin1.
    apply (in_map Tapioca.Block.rect) in Hin1. rewrite Hm in Hin1.
    apply in_map_iff in Hin1. destruct Hin1 as (b & Hrb & Hin).
    unfold Tapioca.Block.intersects. rewrite <- Hrb. apply (Hfree b Hin). }
  pose proof (Tapioca_free_fall fr blocks1 q Hfree1) as H.
  cbv zeta in H. rewrite Hqr, Hqv, Hqg in H. fold v in H.
  unfold Tapioca.Player.move. fold q.
  destruct H as [Hfall Hland].
  split; [exact Hfall|]. split; [exact Hland|]. split.
  - intros Habove.
    destruct (Qlt_le_dec (Tapioca.floorLine fr) (RectF.y r + RectF.h r + v))
      as [Hc|Hc].
    + destruct (Hland Hc) as (_ & _ & ->). exact Habove.
    + destruct (Hfall Hc) as (_ & _ & ->). simpl. lra.
  - intros Hg Hup Habove.
    assert (Hj : Tapioca.Player.jump fr p =
                 Tapioca.Player.set_grounded
                   (Tapioca.Player.set_vy p (- Tapioca.Player.jumpSpeed)) false).
    { unfold Tapioca.Player.jump. rewrite Hg, Hup. reflexivity. }
    assert (Hv : v = - Tapioca.Player.jumpSpeed + Tapioca.gravity).
    { subst v. rewrite Hj. reflexivity. }
    destruct Hfall as (Hvy & Hgr & _).
    + rewrite Hv. unfold Tapioca.Player.jumpSpeed, Tapioca.gravity. lra.
    + rewrite Hgr, Hvy, Hj. split; [reflexivity | exact Hv].
Qed.

(** A concrete instance: the player jumps from the floor while a block falls
    in another lane. *)
Lemma player_free_fall_witness :
  let p' := fst (fst (Tapioca.Player.update frameUp [fallen 300 30] playerOnFloor)) in
  Tapioca.Player.grounded p' = false /\
  Tapioca.Player.vy p' = - Tapioca.Player.jumpSpeed + Tapioca.gravity.
Proof.
  apply (proj2 (proj2 (proj2
           (player_free_fall frameUp [fallen 300 30] playerOnFloor
              ltac:(intros b [<-|[]]; vm_compute; reflexivity)))));
    [reflexivity | reflexivity | vm_compute; discriminate].
Defined.

(** ** The up key *)

Lemma hitFirst_withKeyUp fr up r blocks :
  Tapioca.Egg.hitFirst (withKeyUp fr up) r blocks = Tapioca.Egg.hitFirst fr r blocks.
Proof.
  induction blocks as [|block rest IH]; simpl; [reflexivity|].
  rewrite IH. reflexivity.
Qed.

Lemma updateEgg_withKeyUp fr up blocks p :
  Tapioca.Player.updateEgg (withKeyUp fr up) blocks p =
  Tapioca.Player.updateEgg fr blocks p.
Proof.
  unfold Tapioca.Player.updateEgg. destruct (Tapioca.Player.egg p) as [e|];
    [|reflexivity].
  unfold Tapioca.Egg.update. rewrite hitFirst_withKeyUp. reflexivity.
Qed.

Lemma walk_grounded fr blocks p :
  Tapioca.Player.grounded (Tapioca.Player.walk fr blocks p) =
  Tapioca.Player.grounded p.
Proof. unfold Tapioca.Player.walk. break_ifs; reflexivity. Qed.

(** No jump in the air: for a player that is not grounded the up key changes
    nothing in the whole update, neither of the player nor of the blocks nor
    of the callback call. *)
Theorem no_jump_in_the_air (fr : Frame.t) (up : bool)
    (blocks : list Tapioca.Block.t) (p : Tapioca.Player.t) :
  Tapioca.Player.grounded p = false ->
  Tapioca.Player.update (withKeyUp fr up) blocks p =
  Tapioca.Player.update fr blocks p.
Proof.
  intros Hg.
  destruct (Tapioca_egg_phases fr blocks p) as (_ & _ & Hg1).
  unfold Tapioca.Player.update.
  change (Tapioca.Player.launch (withKeyUp fr up) p)
    with (Tapioca.Player.launch fr p).
  rewrite updateEgg_withKeyUp.
  destruct (Tapioca.Player.updateEgg fr blocks (Tapioca.Player.launch fr p))
    as [[p1 blocks1] hit]. simpl in Hg1. rewrite Hg in Hg1.
  assert (Hj : forall f,
            Tapioca.Player.jump f (Tapioca.Player.walk fr blocks1 p1) =
            Tapioca.Player.walk fr blocks1 p1).
  { intros f. unfold Tapioca.Player.jump. rewrite walk_grounded, Hg1.
    reflexivity. }
  unfold Tapioca.Player.move.
  change (Tapioca.Player.walk (withKeyUp fr up) blocks1 p1)
    with (Tapioca.Player.walk fr blocks1 p1).
  rewrite !Hj. reflexivity.
Qed.

(** A concrete instance: the new player, which is not grounded yet, with the
    up key pressed. *)
Lemma no_jump_in_the_air_witness :
  Tapioca.Player.update (withKeyUp frame0 true) [fallen 300 30]
    (Tapioca.Player.make frame0) =
  Tapioca.Player.update frame0 [fallen 300 30] (Tapioca.Player.make frame0).
Proof.
  apply (no_jump_in_the_air frame0 true [fallen 300 30]
           (Tapioca.Player.make frame0)).
  reflexivity.
Defined.

(** ** The player and the window *)

(** One horizontal step: none, or one of [speed] to the left from a position
    right of the left edge, or one to the right from a position left of the
    right edge. *)
Lemma walk_step fr blocks p :
  let r := Tapioca.Player.rect p in
  let r' := Tapioca.Player.rect (Tapioca.Player.walk fr blocks p) in
  RectF.w r' = RectF.w r /\ RectF.h r' = RectF.h r /\
  (RectF.x r' == RectF.x r \/
   (RectF.x r' == RectF.x r - Tapioca.Player.speed /\ 0 < RectF.x r) \/
   (RectF.x r' == RectF.x r + Tapioca.Player.speed /\
    RectF.x r + RectF.w r < inject_Z (Frame.Window_Width fr))).
Proof.
  unfold Tapioca.Player.walk.
  destruct (xorb (Frame.KeyLeft_pressed fr) (Frame.KeyRight_pressed fr));
    [|simpl; repeat split; left; reflexivity].
  cbv zeta. simpl.
  destruct (Frame.KeyLeft_pressed fr);
    destruct (Frame.KeyRight_pressed fr); simpl;
    try (destruct (Qgtb (RectF.x (Tapioca.Player.rect p)) 0) eqn:El);
    try (destruct (Qltb (RectF.x (Tapioca.Player.rect p)
                         + RectF.w (Tapioca.Player.rect p))
                        (inject_Z (Frame.Window_Width fr))) eqn:Er);
    simpl; try (repeat split; left; reflexivity);
    destruct (existsb _ blocks); simpl; repeat split;
    try (apply Qgtb_gt in El); try (apply Qltb_lt in Er);
    first [ left; ring
          | right; left; split; [ring | assumption]
          | right; right; split; [ring | assumption] ].
Qed.

Lemma Tapioca_after_walk_size fr blocks p :
  let p' :=
    let (q, touching) :=
      Tapioca.Player.contact blocks (Tapioca.Player.jump fr p) in
    Tapioca.Player.crush blocks (Tapioca.Player.land fr touching q) in
  RectF.w (Tapioca.Player.rect p') = RectF.w (Tapioca.Player.rect p) /\
  RectF.h (Tapioca.Player.rect p') = RectF.h (Tapioca.Player.rect p).
Proof.
  unfold Tapioca.Player.crush, Tapioca.Player.land, Tapioca.Player.contact,
    Tapioca.Player.jump.
  destruct (find _ blocks) as [block|]; break_ifs; split; reflexivity.
Qed.

(** The player and the window: an update keeps the size of the player's
    rectangle and moves it horizontally by nothing or by one step of [speed],
    to the left only from a position right of the left edge and to the right
    only while the right side is left of the right edge.  So a player that
    sticks out of the window by less than one step does so afterwards. *)
Theorem player_stays_in_window (fr : Frame.t) (blocks : list Tapioca.Block.t)
    (p : Tapioca.Player.t) :
  let r := Tapioca.Player.rect p in
  let r' := Tapioca.Player.rect (fst (fst (Tapioca.Player.update fr blocks p))) in
  - Tapioca.Player.speed < RectF.x r ->
  RectF.x r + RectF.w r < inject_Z (Frame.Window_Width fr) + Tapioca.Player.speed ->
  RectF.w r' = RectF.w r /\ RectF.h r' = RectF.h r /\
  (RectF.x r' == RectF.x r \/
   (RectF.x r' == RectF.x r - Tapioca.Player.speed /\ 0 < RectF.x r) \/
   (RectF.x r' == RectF.x r + Tapioca.Player.speed /\
    RectF.x r + RectF.w r < inject_Z (Frame.Window_Width fr))) /\
  - Tapioca.Player.speed < RectF.x r' /\
  RectF.x r' + RectF.w r' < inject_Z (Frame.Window_Width fr) + Tapioca.Player.speed.
Proof.
  intros r r' Hl Hr.
  pose proof (Tapioca_updateEgg_rect fr blocks (Tapioca.Player.launch fr p)) as Hr1.
  rewrite Tapioca_launch_rect in Hr1. fold r in Hr1.
  assert (Hx : RectF.x r' =
               RectF.x (Tapioca.Player.rect
                          (Tapioca.Player.walk fr
                             (snd (fst (Tapioca.Player.update fr blocks p)))
                             (fst (fst (Tapioca.Player.updateEgg fr blocks
                                          (Tapioca.Player.launch fr p))))))).
  { apply Tapioca_update_x. }
  assert (Hs : RectF.w r' =
               RectF.w (Tapioca.Player.rect
                          (Tapioca.Player.walk fr
                             (snd (fst (Tapioca.Player.update fr blocks p)))
                             (fst (fst (Tapioca.Player.updateEgg fr blocks
                                          (Tapioca.Player.launch fr p)))))) /\
               RectF.h r' =
               RectF.h (Tapioca.Player.rect
                          (Tapioca.Player.walk fr
                             (snd (fst (Tapioca.Player.update fr blocks p)))
                             (fst (fst (Tapioca.Player.updateEgg fr blocks
                                          (Tapioca.Player.launch fr p))))))).
  { subst r'. unfold Tapioca.Player.update.
    destruct (Tapioca.Player.updateEgg fr blocks (Tapioca.Player.launch fr p))
      as [[p1 blocks1] hit]. simpl.
    unfold Tapioca.Player.move. apply Tapioca_after_walk_size. }
  destruct Hs as [Hw Hh].
  destruct (walk_step fr (snd (fst (Tapioca.Player.update fr blocks p)))
              (fst (fst (Tapioca.Player.updateEgg fr blocks
                           (Tapioca.Player.launch fr p)))))
    as (Hw1 & Hh1 & Hstep).
  rewrite <- Hx, Hr1 in Hstep. rewrite <- Hw, Hr1 in Hw1.
  rewrite <- Hh, Hr1 in Hh1.
  split; [exact Hw1|]. split; [exact Hh1|]. split; [exact Hstep|].
  rewrite Hw1. unfold Tapioca.Player.speed in *.
  destruct Hstep as [E|[[E H0]|[E HW]]]; rewrite E; split; lra.
Qed.

(** A concrete instance: the player at the left edge walks to the right. *)
Lemma player_stays_in_window_witness :
  let r' := Tapioca.Player.rect
              (fst (fst (Tapioca.Player.update frameRight [fallen 300 30]
                           playerOnFloor))) in
  - Tapioca.Player.speed < RectF.x r' /\
  RectF.x r' + RectF.w r' < inject_Z (Frame.Window_Width frameRight)
                            + Tapioca.Player.speed.
Proof.
  apply (player_stays_in_window frameRight [fallen 300 30] playerOnFloor);
    vm_compute; reflexivity.
Defined.

(** ** The prototype: counting the score *)

Lemma int_of_size_t_sub (a b : Z) :
  (0 <= a - b < 2 ^ 31)%Z ->
  PrototypeGame.int_of_size_t (PrototypeGame.size_t_sub a b) = (a - b)%Z.
Proof.
  intros H. unfold PrototypeGame.int_of_size_t, PrototypeGame.size_t_sub.
  rewrite (Z.mod_small (a - b)) by lia.
  apply Int_wrap_small. unfold Int.min, Int.max. lia.
Qed.

Lemma filter_partition_length {B : Type} (f : B -> bool) (l : list B) :
  (length (filter f l) + length (filter (fun b => negb (f b)) l))%nat = length l.
Proof.
  induction l as [|b rest IH]; simpl; [reflexivity|].
  destruct (f b); simpl; lia.
Qed.

Lemma destroyedCount_map (l1 l2 : list Tapioca.Block.t) :
  map Tapioca.Block.destroyed l1 = map Tapioca.Block.destroyed l2 ->
  destroyedCount l1 = destroyedCount l2.
Proof.
  unfold destroyedCount. revert l2.
  induction l1 as [|b1 r1 IH]; intros [|b2 r2] H; simpl in *; try discriminate;
    [reflexivity|].
  injection H as Hb Hr.
  change (Tapioca.Block.isDestroyed b1) with (Tapioca.Block.destroyed b1).
  change (Tapioca.Block.isDestroyed b2) with (Tapioca.Block.destroyed b2).
  rewrite Hb. destruct (Tapioca.Block.destroyed b2); simpl; rewrite (IH r2 Hr);
    reflexivity.
Qed.

Lemma destroyedCount_app (l1 l2 : list Tapioca.Block.t) :
  destroyedCount (l1 ++ l2) = (destroyedCount l1 + destroyedCount l2)%nat.
Proof. unfold destroyedCount. rewrite filter_app, length_app. reflexivity. Qed.

Lemma Prototype_Block_update_destroyed fr blocks this b :
  Tapioca.Block.destroyed (PrototypeGame.Block.update fr blocks this b) =
  Tapioca.Block.destroyed b.
Proof. unfold PrototypeGame.Block.update. break_ifs; reflexivity. Qed.

Lemma Prototype_updateBlocks_destroyed fr pending : forall updated,
  map Tapioca.Block.destroyed
    (fst (PrototypeGame.PlayingScene.updateBlocks fr updated pending)) =
  map Tapioca.Block.destroyed (updated ++ pending).
Proof.
  induction pending as [|block rest IH]; intros updated; simpl.
  - rewrite app_nil_r. reflexivity.
  - specialize (IH (updated ++
        [PrototypeGame.Block.update fr (updated ++ block :: rest)
           (length updated) block])).
    destruct (PrototypeGame.PlayingScene.updateBlocks fr _ rest) as [blocks asked].
    simpl in *. rewrite IH, <- app_assoc, !map_app. simpl.
    rewrite Prototype_Block_update_destroyed. reflexivity.
Qed.

Lemma destroyedCount_filtered (l : list Tapioca.Block.t) :
  destroyedCount (filter (fun b => negb (Tapioca.Block.isDestroyed b)) l) = 0%nat.
Proof.
  unfold destroyedCount. induction l as [|b rest IH]; simpl; [reflexivity|].
  destruct (Tapioca.Block.isDestroyed b) eqn:E; simpl; [exact IH|].
  rewrite E. exact IH.
Qed.

Lemma Prototype_hitFirst_count r blocks :
  let blocks' := fst (PrototypeGame.Bullet.hitFirst r blocks) in
  length blocks' = length blocks /\
  (destroyedCount blocks' <= S (destroyedCount blocks))%nat.
Proof.
  induction blocks as [|block rest IH]; simpl; [split; [reflexivity | lia]|].
  destruct (Tapioca.Block.intersects block r); simpl.
  - split; [reflexivity|]. unfold destroyedCount. simpl.
    destruct (Tapioca.Block.isDestroyed block); simpl; lia.
  - destruct (PrototypeGame.Bullet.hitFirst r rest) as [rest' hit].
    simpl in *. destruct IH as [Hl Hc]. split; [lia|].
    unfold destroyedCount in *. simpl.
    destruct (Tapioca.Block.isDestroyed block); simpl; lia.
Qed.

Lemma Prototype_Player_update_count fr blocks p :
  let blocks' := snd (PrototypeGame.Player.update fr blocks p) in
  length blocks' = length blocks /\
  (destroyedCount blocks' <= S (destroyedCount blocks))%nat.
Proof.
  unfold PrototypeGame.Player.update, PrototypeGame.Player.updateBullet.
  destruct (Prototype.Player.bullet (PrototypeGame.Player.fire fr p)) as [b|].
  - unfold PrototypeGame.Bullet.update.
    pose proof (Prototype_hitFirst_count (PyoroLike.Bullet.rect b) blocks) as H.
    destruct (negb (PyoroLike.Bullet.active b)); simpl;
      [destruct (PrototypeGame.Player.contact _ _); simpl; split; lia|].
    destruct (_ || _); simpl;
      [destruct (PrototypeGame.Player.contact _ _); simpl; split; lia|].
    destruct (PrototypeGame.Bullet.hitFirst (PyoroLike.Bullet.rect b) blocks)
      as [blocks' [|]]; simpl in *.
    + destruct (PrototypeGame.Player.contact _ _); simpl. exact H.
    + destruct (PrototypeGame.Player.contact _ _); simpl. split; lia.
  - simpl. destruct (PrototypeGame.Player.contact _ _); simpl. split; lia.
Qed.

(** The prototype's score: one [Playing::update] adds, in [int] arithmetic,
    10 for every block that is flagged destroyed when the update starts,
    those are the blocks it erases, and puts the high score at the larger of
    the new score and the old high score; where the sum stays an [int] the
    score is that sum.  The bullet flags a block only after the count, so at
    the end of an update at most one block is flagged: the next update
    erases it and adds 10 for it.  The vector must be shorter than 2^31 - 1
    for the count to fit the [int] it is cast to. *)
Theorem Prototype_score_counts_erased (fr : Frame.t) (d : Prototype.Data.t)
    (s : Prototype.PlayingScene.t) :
  (Z.of_nat (length (Prototype.PlayingScene.blocks s)) < 2 ^ 31 - 1)%Z ->
  let d' := fst (fst (PrototypeGame.PlayingScene.update fr d s)) in
  let s' := snd (fst (PrototypeGame.PlayingScene.update fr d s)) in
  let erased := Z.of_nat (destroyedCount (Prototype.PlayingScene.blocks s)) in
  Prototype.Data.score d' = Int.wrap (Prototype.Data.score d + 10 * erased) /\
  ((Int.min <= Prototype.Data.score d)%Z ->
   (Prototype.Data.score d + 10 * erased <= Int.max)%Z ->
   Prototype.Data.score d' = (Prototype.Data.score d + 10 * erased)%Z) /\
  Prototype.Data.highScore d' =
    Z.max (Prototype.Data.score d') (Prototype.Data.highScore d) /\
  (length (Prototype.PlayingScene.blocks s')
   + destroyedCount (Prototype.PlayingScene.blocks s)
   = length (fst (PrototypeGame.PlayingScene.spawn fr
                    (Prototype.PlayingScene.blockFallSW s)
                    (Prototype.PlayingScene.blocks s))))%nat /\
  (destroyedCount (Prototype.PlayingScene.blocks s') <= 1)%nat.
Proof.
  intros Hlen. unfold PrototypeGame.PlayingScene.update.
  assert (Hsp : destroyedCount
                  (fst (PrototypeGame.PlayingScene.spawn fr
                          (Prototype.PlayingScene.blockFallSW s)
                          (Prototype.PlayingScene.blocks s))) =
                destroyedCount (Prototype.PlayingScene.blocks s) /\
                (Z.of_nat (length
                   (fst (PrototypeGame.PlayingScene.spawn fr
                           (Prototype.PlayingScene.blockFallSW s)
                           (Prototype.PlayingScene.blocks s)))) < 2 ^ 31)%Z).
  { unfold PrototypeGame.PlayingScene.spawn.
    destruct (_ >? _)%Z; simpl; [|split; [reflexivity | lia]].
    rewrite destroyedCount_app, length_app. simpl. split; [|lia].
    unfold destroyedCount. simpl. lia. }
  destruct (PrototypeGame.PlayingScene.spawn fr
              (Prototype.PlayingScene.blockFallSW s)
              (Prototype.PlayingScene.blocks s)) as [blocks0 sw0].
  cbn [fst snd] in *. destruct Hsp as [Hsp Hlen0].
  pose proof (Prototype_updateBlocks_destroyed fr blocks0 []) as Hd.
  destruct (PrototypeGame.PlayingScene.updateBlocks fr [] blocks0)
    as [blocks1 top]. cbn [fst snd app] in Hd.
  pose proof (destroyedCount_map _ _ Hd) as Hc.
  assert (Hl1 : length blocks1 = length blocks0).
  { rewrite <- (length_map Tapioca.Block.destroyed blocks1), Hd.
    apply length_map. }
  pose proof (filter_partition_length Tapioca.Block.isDestroyed blocks1) as Hp.
  fold (destroyedCount blocks1) in Hp.
  set (kept := filter (fun block => negb (Tapioca.Block.isDestroyed block))
                      blocks1) in *.
  pose proof (Prototype_Player_update_count fr kept
                (Prototype.PlayingScene.player s)) as Hu.
  pose proof (destroyedCount_filtered blocks1) as Hk. fold kept in Hk.
  destruct (PrototypeGame.Player.update fr kept
              (Prototype.PlayingScene.player s)) as [p' blocks2].
  cbn [fst snd] in *. destruct Hu as [Hl2 Hc2].
  rewrite int_of_size_t_sub by lia.
  cbn [Prototype.Data.score Prototype.Data.highScore
       Prototype.PlayingScene.blocks].
  assert (Hscore : Int.add (Prototype.Data.score d)
                     (Int.mul 10 (Z.max 0 (Z.of_nat (length blocks1)
                                           - Z.of_nat (length kept)))) =
                   Int.wrap (Prototype.Data.score d
                             + 10 * Z.of_nat (destroyedCount
                                                (Prototype.PlayingScene.blocks s)))).
  { unfold Int.add, Int.mul. rewrite Int_wrap_add_wrap. f_equal. lia. }
  rewrite Hscore. split; [reflexivity|]. split.
  - intros Hmin Hmax. apply Int_wrap_small. lia.
  - repeat split; lia.
Qed.

(** A concrete instance: the update after a bullet has hit the lower block of
    a tower adds 10. *)
Lemma Prototype_score_counts_erased_witness :
  Prototype.Data.score
    (fst (fst (PrototypeGame.PlayingScene.update frame0 (Prototype.Data.mk 30 40)
                 prototypeAfterHit))) = 40%Z.
Proof.
  apply (proj1 (proj2 (Prototype_score_counts_erased frame0 (Prototype.Data.mk 30 40)
                  prototypeAfterHit ltac:(vm_compute; reflexivity))));
    vm_compute; discriminate.
Defined.

(** ** The prototype: the end of the game *)

Lemma Prototype_updateBlocks_asked fr pending : forall updated,
  exists visited,
    fst (PrototypeGame.PlayingScene.updateBlocks fr updated pending) =
      updated ++ visited /\
    snd (PrototypeGame.PlayingScene.updateBlocks fr updated pending) =
      existsb Tapioca.Block.isTouchingTop visited.
Proof.
  induction pending as [|block rest IH]; intros updated; simpl.
  - exists []. rewrite app_nil_r. split; reflexivity.
  - set (block' := PrototypeGame.Block.update fr (updated ++ block :: rest)
                     (length updated) block).
    destruct (IH (updated ++ [block'])) as (visited & Hv & Ha).
    destruct (PrototypeGame.PlayingScene.updateBlocks fr (updated ++ [block']) rest)
      as [blocks asked]. simpl in *.
    exists (block' :: visited). rewrite Hv, <- app_assoc. simpl.
    rewrite Ha. split; reflexivity.
Qed.

Lemma Prototype_Player_update_dead fr blocks p :
  let p' := fst (PrototypeGame.Player.update fr blocks p) in
  let blocks' := snd (PrototypeGame.Player.update fr blocks p) in
  PrototypeGame.Player.isDead p' =
  Prototype.Player.dead p ||
  existsb (fun block => Tapioca.Block.intersects block (Prototype.Player.rect p'))
          blocks'.
Proof.
  unfold PrototypeGame.Player.update.
  assert (Hd : Prototype.Player.dead
                 (fst (PrototypeGame.Player.updateBullet fr blocks
                         (PrototypeGame.Player.fire fr p))) =
               Prototype.Player.dead p).
  { unfold PrototypeGame.Player.updateBullet, PrototypeGame.Player.fire.
    destruct (PrototypeGame.Player.fires fr p); simpl.
    - destruct (PrototypeGame.Bullet.update fr blocks _). reflexivity.
    - destruct (Prototype.Player.bullet p) as [b|]; [|reflexivity].
      destruct (PrototypeGame.Bullet.update fr blocks b). reflexivity. }
  destruct (PrototypeGame.Player.updateBullet fr blocks
              (PrototypeGame.Player.fire fr p)) as [p1 blocks1].
  simpl in Hd.
  assert (Hq : Prototype.Player.dead
                 (PrototypeGame.Player.jump fr
                    (PrototypeGame.Player.walk fr blocks1 p1)) =
               Prototype.Player.dead p).
  { rewrite <- Hd. unfold PrototypeGame.Player.jump, PrototypeGame.Player.walk.
    break_ifs; reflexivity. }
  set (q := PrototypeGame.Player.jump fr
              (PrototypeGame.Player.walk fr blocks1 p1)) in *.
  assert (Hc : Prototype.Player.dead (fst (PrototypeGame.Player.contact blocks1 q)) =
               Prototype.Player.dead p).
  { rewrite <- Hq. unfold PrototypeGame.Player.contact.
    destruct (find _ blocks1); break_ifs; reflexivity. }
  destruct (PrototypeGame.Player.contact blocks1 q) as [q' touching].
  simpl in Hc. cbn [fst snd].
  assert (Hl : Prototype.Player.dead (PrototypeGame.Player.land fr touching q') =
               Prototype.Player.dead p).
  { rewrite <- Hc. unfold PrototypeGame.Player.land. break_ifs; reflexivity. }
  set (l := PrototypeGame.Player.land fr touching q') in *.
  unfold PrototypeGame.Player.die, PrototypeGame.Player.isDead.
  destruct (existsb _ blocks1) eqn:E.
  - change (Prototype.Player.rect (PrototypeGame.Player.set_dead l true))
      with (Prototype.Player.rect l).
    rewrite E. apply eq_sym, orb_true_r.
  - rewrite E, orb_false_r. exact Hl.
Qed.

(** The end of the prototype's game: [Playing::update] asks for the
    [GameOver] scene exactly when a block is flagged as touching the top when
    the loop over the blocks is through, or the player was dead already, or
    a block of the vector overlaps the player where the update has put it;
    the block need not be falling, nor the player grounded. *)
Theorem Prototype_game_over (fr : Frame.t) (d : Prototype.Data.t)
    (s : Prototype.PlayingScene.t) :
  let visited :=
    fst (PrototypeGame.PlayingScene.updateBlocks fr []
           (fst (PrototypeGame.PlayingScene.spawn fr
                   (Prototype.PlayingScene.blockFallSW s)
                   (Prototype.PlayingScene.blocks s)))) in
  let s' := snd (fst (PrototypeGame.PlayingScene.update fr d s)) in
  snd (PrototypeGame.PlayingScene.update fr d s) = true <->
  (exists b, In b visited /\ Tapioca.Block.isTouchingTop b = true) \/
  Prototype.Player.dead (Prototype.PlayingScene.player s) = true \/
  (exists b, In b (Prototype.PlayingScene.blocks s') /\
             Tapioca.Block.intersects b
               (Prototype.Player.rect (Prototype.PlayingScene.player s')) = true).
Proof.
  cbv zeta. unfold PrototypeGame.PlayingScene.update.
  destruct (PrototypeGame.PlayingScene.spawn fr
              (Prototype.PlayingScene.blockFallSW s)
              (Prototype.PlayingScene.blocks s)) as [blocks0 sw0].
  cbn [fst snd].
  destruct (Prototype_updateBlocks_asked fr blocks0 []) as (visited & Hv & Ha).
  destruct (PrototypeGame.PlayingScene.updateBlocks fr [] blocks0)
    as [blocks1 top]. cbn [fst snd app] in *. subst visited top.
  pose proof (Prototype_Player_update_dead fr
                (filter (fun block => negb (Tapioca.Block.isDestroyed block)) blocks1)
                (Prototype.PlayingScene.player s)) as Hdead.
  destruct (PrototypeGame.Player.update fr
              (filter (fun block => negb (Tapioca.Block.isDestroyed block)) blocks1)
              (Prototype.PlayingScene.player s)) as [p' blocks2].
  cbn [fst snd Prototype.PlayingScene.blocks Prototype.PlayingScene.player] in *.
  rewrite Hdead, !orb_true_iff, !existsb_exists. tauto.
Qed.
